(** * A verified model of the file catalogue of [database/ia_filterdb.py]

    The development embeds the catalogue layer of the bot: the file-id
    codec ([encode_file_id], [unpack_new_file_id]), the query builder and
    its regular expressions, the MongoDB collections with their insert,
    find and delete primitives, and the operations built on them
    ([save_file], [get_search_results], [get_search_counts],
    [get_file_details], [move_file], [copy_file], [bulk_move_files],
    [delete_files]) with the counting helpers ([db_count_documents],
    [get_all_counts], [get_all_collections]).

    Python [int] is [Z]; [bytes] is [list Z] with every element in
    [0, 256); [str] is [string] (ASCII); exceptions are an explicit
    [result]; the database is an explicit world threaded through every
    store call. *)

From Stdlib Require Import ZArith List String Ascii Bool Lia Arith.
Import ListNotations.

Open Scope Z_scope.

(** ** Exceptions and results *)

(** The exceptions the module can see.  [DuplicateKeyError] and
    [OperationFailure] come from pymongo, [StructError] from
    [struct.pack], [ValueError] from [bytes([n])]; [DecodeError] stands
    for whatever [FileId.decode] raises on a malformed handle; [NameError]
    and [AttributeError] are Python's own, for a name of the second
    database used while that database is not configured and for a
    method call on [None]; [NotImplementedError] is what pymongo's
    [Collection.__bool__] raises when a collection is used as a truth
    value. *)
Inductive exn : Type :=
| DuplicateKeyError
| OperationFailure
| StructError
| ValueError
| DecodeError
| NameError
| AttributeError
| NotImplementedError.

Inductive result (A : Type) : Type :=
| Ok (a : A)
| Raise (e : exn).

Arguments Ok {A} a.
Arguments Raise {A} e.

Definition rbind {A B} (m : result A) (k : A -> result B) : result B :=
  match m with
  | Ok a => k a
  | Raise e => Raise e
  end.

Definition exn_eqb (a b : exn) : bool :=
  match a, b with
  | DuplicateKeyError, DuplicateKeyError
  | OperationFailure, OperationFailure
  | StructError, StructError
  | ValueError, ValueError
  | DecodeError, DecodeError
  | NameError, NameError
  | AttributeError, AttributeError
  | NotImplementedError, NotImplementedError => true
  | _, _ => false
  end.

(** ** The file-id codec *)

Module Codec.

(** *** [struct.pack] with format ["<iiqq"] *)

(** The [n] low bytes of [x], least significant first.  Floor division
    makes this the two's-complement image of a negative [x]. *)
Fixpoint le_bytes (n : nat) (x : Z) : list Z :=
  match n with
  | O => []
  | S n' => (x mod 256) :: le_bytes n' (x / 256)
  end.

(** A signed field of [n] bytes; [struct.pack] raises [struct.error]
    when the argument is out of range. *)
Definition pack_signed (n : nat) (x : Z) : result (list Z) :=
  let half := 2 ^ (8 * Z.of_nat n - 1) in
  if (- half <=? x) && (x <? half) then Ok (le_bytes n x)
  else Raise StructError.

(** [pack("<iiqq", a, b, c, d)]: no alignment, 4 + 4 + 8 + 8 bytes. *)
Definition pack_iiqq (a b c d : Z) : result (list Z) :=
  rbind (pack_signed 4 a) (fun ba =>
  rbind (pack_signed 4 b) (fun bb =>
  rbind (pack_signed 8 c) (fun bc =>
  rbind (pack_signed 8 d) (fun bd =>
  Ok (ba ++ bb ++ bc ++ bd))))).

(** *** [bytes([n])] *)

Definition is_byte (b : Z) : bool := (0 <=? b) && (b <? 256).

Definition bytes_of (l : list Z) : result (list Z) :=
  if forallb is_byte l then Ok l else Raise ValueError.

(** *** The loop of [encode_file_id]

    [r] is the output built so far and [n] the length of the pending run
    of zero bytes. *)
Fixpoint encode_loop (s : list Z) (r : list Z) (n : Z) : result (list Z) :=
  match s with
  | [] => Ok r
  | i :: s' =>
      if i =? 0 then encode_loop s' r (n + 1)
      else
        rbind (if negb (n =? 0)
               then rbind (bytes_of [n]) (fun bn => Ok (r ++ [0] ++ bn, 0))
               else Ok (r, n))
              (fun '(r1, n1) => encode_loop s' (r1 ++ [i]) n1)
  end.

(** *** [base64.urlsafe_b64encode]

    The standard library encoder: three bytes become four sextets, a
    final group of one or two bytes becomes two or three sextets and is
    padded with [=] to four characters; the URL-safe variant then trades
    [+] and [/] for [-] and [_]. *)
Definition b64_alphabet : list ascii :=
  list_ascii_of_string
    "ABCDEFGHIJKLMNOPQRSTUVWXYZabcdefghijklmnopqrstuvwxyz0123456789+/".

Definition b64_char (v : Z) : ascii :=
  nth (Z.to_nat v) b64_alphabet "="%char.

Fixpoint sextets (l : list Z) : list Z :=
  match l with
  | a :: b :: c :: t =>
      a / 4 :: (a mod 4) * 16 + b / 16 :: (b mod 16) * 4 + c / 64
        :: c mod 64 :: sextets t
  | [a; b] => [a / 4; (a mod 4) * 16 + b / 16; (b mod 16) * 4]
  | [a] => [a / 4; (a mod 4) * 16]
  | [] => []
  end.

Definition b64_padding (len : nat) : list ascii :=
  match (len mod 3)%nat with
  | 1%nat => ["="; "="]%char
  | 2%nat => ["="]%char
  | _ => []
  end.

Definition b64encode (l : list Z) : list ascii :=
  map b64_char (sextets l) ++ b64_padding (List.length l).

Definition urlsafe_translate (c : ascii) : ascii :=
  if Ascii.eqb c "+" then "-"%char
  else if Ascii.eqb c "/" then "_"%char
  else c.

Definition urlsafe_b64encode (l : list Z) : list ascii :=
  map urlsafe_translate (b64encode l).

(** [str.rstrip("=")]: drop every trailing [=]. *)
Fixpoint rstrip_eq (s : list ascii) : list ascii :=
  match s with
  | [] => []
  | c :: t =>
      match rstrip_eq t with
      | [] => if Ascii.eqb c "=" then [] else [c]
      | t' => c :: t'
      end
  end.

(** *** [encode_file_id] *)
Definition encode_file_id (s : list Z) : result string :=
  rbind (encode_loop (s ++ [22] ++ [4]) [] 0) (fun r =>
  Ok (string_of_list_ascii (rstrip_eq (urlsafe_b64encode r)))).

(** *** [unpack_new_file_id]

    [FileId] is hydrogram's decoded handle.  The code reads four of its
    attributes; [file_reference] stands for the rest of the handle, which
    the code never looks at. *)
Record FileId : Type := mkFileId {
  file_type : Z;
  dc_id : Z;
  media_id : Z;
  access_hash : Z;
  file_reference : list Z
}.

Section Unpack.

(** [FileId.decode] belongs to the platform library: a handle either
    decodes or the call raises. *)
Variable FileId_decode : string -> option FileId.

Definition unpack_new_file_id (new_file_id : string) : result string :=
  match FileId_decode new_file_id with
  | None => Raise DecodeError
  | Some decoded =>
      rbind (pack_iiqq (file_type decoded) (dc_id decoded)
               (media_id decoded) (access_hash decoded))
            encode_file_id
  end.

End Unpack.

(** The tuple the key is derived from. *)
Definition key_fields (d : FileId) : Z * Z * Z * Z :=
  (file_type d, dc_id d, media_id d, access_hash d).

(** What the platform's decoder guarantees: two 32-bit and two 64-bit
    signed fields. *)
Definition fields_in_range (d : FileId) : Prop :=
  - 2 ^ 31 <= file_type d < 2 ^ 31 /\
  - 2 ^ 31 <= dc_id d < 2 ^ 31 /\
  - 2 ^ 63 <= media_id d < 2 ^ 63 /\
  - 2 ^ 63 <= access_hash d < 2 ^ 63.

End Codec.

(** ** Regular expressions: the fragment of Python's [re] the query builder
    produces *)

Module Regex.

Local Open Scope char_scope.
Local Open Scope nat_scope.

(** *** Character tests (ASCII) *)

Definition code (c : ascii) : nat := nat_of_ascii c.

Definition in_range (lo hi c : ascii) : bool :=
  (code lo <=? code c) && (code c <=? code hi).

Definition is_upper (c : ascii) : bool := in_range "A" "Z" c.
Definition is_lower (c : ascii) : bool := in_range "a" "z" c.
Definition is_digit (c : ascii) : bool := in_range "0" "9" c.
Definition is_alnum (c : ascii) : bool := is_upper c || is_lower c || is_digit c.

(** [\w]: letters, digits and the underscore. *)
Definition is_word (c : ascii) : bool := is_alnum c || Ascii.eqb c "_".

(** [\s] as the database engine evaluates it: space, tab, line feed,
    vertical tab, form feed, carriage return. *)
Definition is_space (c : ascii) : bool :=
  Ascii.eqb c " " || ((9 <=? code c) && (code c <=? 13)).

Definition to_lower (c : ascii) : ascii :=
  if is_upper c then ascii_of_nat (code c + 32) else c.

Definition to_upper (c : ascii) : ascii :=
  if is_lower c then ascii_of_nat (code c - 32) else c.

(** *** Syntax *)

(** One item of a bracketed class, or a class escape. *)
Inductive cclass : Type :=
| CChar (c : ascii)
| CRange (lo hi : ascii)
| CSpace | CNotSpace
| CDigit | CNotDigit
| CWord | CNotWord.

Inductive regex : Type :=
| Eps
| Chr (c : ascii)
| AnyChar
| CharSet (negated : bool) (items : list cclass)
| WordBoundary
| NotWordBoundary
| LineStart
| LineEnd
| Cat (r1 r2 : regex)
| Alt (r1 r2 : regex)
| Star (r : regex)
| Plus (r : regex)
| Opt (r : regex)
| Group (r : regex).

(** *** Matching

    [ends ic r s i] lists the positions [j] such that [r] matches the
    slice [s[i:j]] of the subject [s]; [ic] is [re.IGNORECASE]. *)

Definition chr_matches (ic : bool) (c d : ascii) : bool :=
  if ic then Ascii.eqb (to_lower c) (to_lower d) else Ascii.eqb c d.

Definition item_matches_exact (it : cclass) (d : ascii) : bool :=
  match it with
  | CChar c => Ascii.eqb c d
  | CRange lo hi => in_range lo hi d
  | CSpace => is_space d
  | CNotSpace => negb (is_space d)
  | CDigit => is_digit d
  | CNotDigit => negb (is_digit d)
  | CWord => is_word d
  | CNotWord => negb (is_word d)
  end.

Definition item_matches (ic : bool) (it : cclass) (d : ascii) : bool :=
  item_matches_exact it d ||
  (ic && (item_matches_exact it (to_lower d) ||
          item_matches_exact it (to_upper d))).

Definition set_matches (ic negated : bool) (items : list cclass) (d : ascii)
  : bool :=
  xorb negated (existsb (fun it => item_matches ic it d) items).

Definition word_at (s : list ascii) (i : nat) : bool :=
  match nth_error s i with
  | Some c => is_word c
  | None => false
  end.

(** [\b] holds at [i] when exactly one of [s[i-1]], [s[i]] is a word
    character, the outside of the string counting as a non-word. *)
Definition word_boundary (s : list ascii) (i : nat) : bool :=
  xorb (match i with O => false | S p => word_at s p end) (word_at s i).

Definition newline : ascii := ascii_of_nat 10.

Definition step_char (p : ascii -> bool) (s : list ascii) (i : nat)
  : list nat :=
  match nth_error s i with
  | Some d => if p d then [S i] else []
  | None => []
  end.

Definition guard (b : bool) (i : nat) : list nat := if b then [i] else [].

(** Iterations of a starred body; an iteration that consumes nothing adds
    no new end position and is not followed. *)
Fixpoint star_ends (fuel : nat) (body : nat -> list nat) (i : nat)
  : list nat :=
  i :: match fuel with
       | O => []
       | S f =>
           flat_map (fun j => if i <? j then star_ends f body j else [])
                    (body i)
       end.

Fixpoint ends (ic : bool) (r : regex) (s : list ascii) (i : nat)
  : list nat :=
  match r with
  | Eps => [i]
  | Chr c => step_char (chr_matches ic c) s i
  | AnyChar => step_char (fun d => negb (Ascii.eqb d newline)) s i
  | CharSet negated items => step_char (set_matches ic negated items) s i
  | WordBoundary => guard (word_boundary s i) i
  | NotWordBoundary => guard (negb (word_boundary s i)) i
  | LineStart => guard (i =? 0) i
  | LineEnd =>
      guard ((i =? List.length s) ||
             ((S i =? List.length s) &&
              match nth_error s i with
              | Some d => Ascii.eqb d newline
              | None => false
              end)) i
  | Cat r1 r2 => flat_map (ends ic r2 s) (ends ic r1 s i)
  | Alt r1 r2 => ends ic r1 s i ++ ends ic r2 s i
  | Star r1 => star_ends (List.length s) (ends ic r1 s) i
  | Plus r1 =>
      flat_map (star_ends (List.length s) (ends ic r1 s)) (ends ic r1 s i)
  | Opt r1 => ends ic r1 s i ++ [i]
  | Group r1 => ends ic r1 s i
  end.

Definition nonempty {A} (l : list A) : bool :=
  match l with [] => false | _ => true end.

(** A pattern used as a MongoDB filter, or [re.search]: a match may
    start anywhere. *)
Definition search_list (ic : bool) (r : regex) (s : list ascii) : bool :=
  existsb (fun i => nonempty (ends ic r s i)) (seq 0 (S (List.length s))).

Definition search (ic : bool) (r : regex) (s : string) : bool :=
  search_list ic r (list_ascii_of_string s).

(** *** Parsing

    One pass over the pattern with an explicit stack of open groups.
    [atoms] and [alts] are kept most recent first. *)

Record frame : Type := mkFrame {
  alts : list regex;
  atoms : list regex
}.

Inductive mode : Type :=
| MNormal
| MEscape
| MGroupOpen
| MClassOpen
| MClass (negated first : bool) (items : list cclass)
| MClassItem (negated : bool) (items : list cclass) (this : cclass)
| MClassDash (negated : bool) (items : list cclass) (this : cclass)
| MClassEscape (negated : bool) (items : list cclass).

Record pstate : Type := mkPState {
  cur : frame;
  stack : list frame;
  pmode : mode
}.

Definition mkseq (rev_atoms : list regex) : regex :=
  fold_left (fun acc a => Cat a acc) rev_atoms Eps.

Fixpoint mkalt (branches : list regex) : regex :=
  match branches with
  | [] => Eps
  | [b] => b
  | b :: rest => Alt b (mkalt rest)
  end.

Definition close_frame (f : frame) : regex :=
  mkalt (rev (mkseq (atoms f) :: alts f)).

Definition push_atom (a : regex) (st : pstate) : option pstate :=
  Some (mkPState (mkFrame (alts (cur st)) (a :: atoms (cur st)))
                 (stack st) MNormal).

(** [*], [+] and [?] apply to the last atom; a repeat of nothing, of an
    assertion or of a repeat is refused. *)
Definition quantify (q : regex -> regex) (st : pstate) : option pstate :=
  match atoms (cur st) with
  | [] => None
  | a :: rest =>
      match a with
      | Star _ | Plus _ | Opt _
      | WordBoundary | NotWordBoundary | LineStart | LineEnd => None
      | _ => Some (mkPState (mkFrame (alts (cur st)) (q a :: rest))
                            (stack st) MNormal)
      end
  end.

Definition class_escape (c : ascii) : option cclass :=
  if Ascii.eqb c "s" then Some CSpace
  else if Ascii.eqb c "S" then Some CNotSpace
  else if Ascii.eqb c "d" then Some CDigit
  else if Ascii.eqb c "D" then Some CNotDigit
  else if Ascii.eqb c "w" then Some CWord
  else if Ascii.eqb c "W" then Some CNotWord
  else if is_alnum c then None
  else Some (CChar c).

Definition normal_step (st : pstate) (c : ascii) : option pstate :=
  let f := cur st in
  if Ascii.eqb c "\" then Some (mkPState f (stack st) MEscape)
  else if Ascii.eqb c "[" then Some (mkPState f (stack st) MClassOpen)
  else if Ascii.eqb c "(" then
    Some (mkPState (mkFrame [] []) (f :: stack st) MGroupOpen)
  else if Ascii.eqb c ")" then
    match stack st with
    | [] => None
    | parent :: rest =>
        Some (mkPState (mkFrame (alts parent)
                                (Group (close_frame f) :: atoms parent))
                       rest MNormal)
    end
  else if Ascii.eqb c "|" then
    Some (mkPState (mkFrame (mkseq (atoms f) :: alts f) []) (stack st) MNormal)
  else if Ascii.eqb c "*" then quantify Star st
  else if Ascii.eqb c "+" then quantify Plus st
  else if Ascii.eqb c "?" then quantify Opt st
  else if Ascii.eqb c "." then push_atom AnyChar st
  else if Ascii.eqb c "^" then push_atom LineStart st
  else if Ascii.eqb c "$" then push_atom LineEnd st
  else if Ascii.eqb c "{" then None
  else push_atom (Chr c) st.

Definition class_item_step (st : pstate) (negated first : bool)
    (items : list cclass) (c : ascii) : option pstate :=
  if Ascii.eqb c "]" && negb first then
    push_atom (CharSet negated (rev items)) st
  else if Ascii.eqb c "\" then
    Some (mkPState (cur st) (stack st) (MClassEscape negated items))
  else
    Some (mkPState (cur st) (stack st) (MClassItem negated items (CChar c))).

Definition step (st : pstate) (c : ascii) : option pstate :=
  match pmode st with
  | MNormal => normal_step st c
  | MGroupOpen => if Ascii.eqb c "?" then None else normal_step st c
  | MEscape =>
      if Ascii.eqb c "b" then push_atom WordBoundary st
      else if Ascii.eqb c "B" then push_atom NotWordBoundary st
      else match class_escape c with
           | Some (CChar d) => push_atom (Chr d) st
           | Some it => push_atom (CharSet false [it]) st
           | None => None
           end
  | MClassOpen =>
      if Ascii.eqb c "^" then
        Some (mkPState (cur st) (stack st) (MClass true true []))
      else class_item_step st false true [] c
  | MClass negated first items => class_item_step st negated first items c
  | MClassItem negated items this =>
      if Ascii.eqb c "-" then
        Some (mkPState (cur st) (stack st) (MClassDash negated items this))
      else class_item_step st negated false (this :: items) c
  | MClassDash negated items this =>
      if Ascii.eqb c "]" then
        push_atom (CharSet negated (rev (CChar "-" :: this :: items))) st
      else if Ascii.eqb c "\" then None
      else match this with
           | CChar lo =>
               if code lo <=? code c then
                 Some (mkPState (cur st) (stack st)
                                (MClass negated false (CRange lo c :: items)))
               else None
           | _ => None
           end
  | MClassEscape negated items =>
      match class_escape c with
      | Some it => Some (mkPState (cur st) (stack st)
                                  (MClassItem negated items it))
      | None => None
      end
  end.

Fixpoint steps (st : pstate) (p : list ascii) : option pstate :=
  match p with
  | [] => Some st
  | c :: p' =>
      match step st c with
      | Some st' => steps st' p'
      | None => None
      end
  end.

Definition initial : pstate := mkPState (mkFrame [] []) [] MNormal.

(** [re.compile]: [None] when the pattern is refused.  Inside the
    fragment (literals, [.], [*], [+], [?], [|], groups, bracketed
    classes, [^], [$], the escapes [\b \B \s \S \d \D \w \W] and escaped
    punctuation) a refusal is Python's [re.error]; counted repeats, lazy
    and possessive repeats, [(?...)] groups and the other letter or digit
    escapes are outside the fragment and refused as well. *)
Definition compile (pattern : string) : option regex :=
  match steps initial (list_ascii_of_string pattern) with
  | Some st =>
      match pmode st, stack st with
      | MNormal, [] => Some (close_frame (cur st))
      | _, _ => None
      end
  | None => None
  end.

End Regex.

(** ** The query builder *)

Module Query.

Local Open Scope string_scope.

(** What [str.strip()] removes, on ASCII text: the characters 9 to 13,
    28 to 31 and the space. *)
Definition is_whitespace (c : ascii) : bool :=
  Regex.is_space c ||
  ((28 <=? Regex.code c)%nat && (Regex.code c <=? 31)%nat).

Fixpoint lstrip (s : list ascii) : list ascii :=
  match s with
  | c :: t => if is_whitespace c then lstrip t else s
  | [] => []
  end.

Definition strip (s : string) : string :=
  string_of_list_ascii
    (rev (lstrip (rev (lstrip (list_ascii_of_string s))))).

(** [' ' in s]. *)
Fixpoint has_space (s : string) : bool :=
  match s with
  | EmptyString => false
  | String c t => Ascii.eqb c " " || has_space t
  end.

(** [s.replace(' ', by)]. *)
Fixpoint replace_space (s by_ : string) : string :=
  match s with
  | EmptyString => EmptyString
  | String c t =>
      if Ascii.eqb c " " then by_ ++ replace_space t by_
      else String c (replace_space t by_)
  end.

(** The three-way choice of [raw_pattern], on the stripped query. *)
Definition raw_pattern (query : string) : string :=
  if String.eqb query "" then "."
  else if negb (has_space query) then
    "(\b|[\.\+\-_])" ++ query ++ "(\b|[\.\+\-_])"
  else replace_space query ".*[\s\.\+\-_]".

(** What ends up under the [file_name] key of the filter: the compiled
    pattern, or the query itself when [re.compile] raised. *)
Inductive pattern : Type :=
| PRegex (r : Regex.regex)
| PString (s : string).

Definition build_regex (query : string) : pattern :=
  let query := strip query in
  match Regex.compile (raw_pattern query) with
  | Some r => PRegex r
  | None => PString query
  end.

(** A string field against a filter value: a regular expression is
    searched for (with [re.IGNORECASE]), a string is compared. *)
Definition field_matches (p : pattern) (value : string) : bool :=
  match p with
  | PRegex r => Regex.search true r value
  | PString s => String.eqb s value
  end.

End Query.

(** ** The collections and the operations on them *)

Module Catalog.

Local Open Scope string_scope.
Local Open Scope list_scope.
Open Scope Z_scope.

(** A stored document: the keys [save_file] writes, and the three keys
    later operations may add. *)
Record Document : Type := mkDocument {
  _id : string;
  file_name : string;
  file_size : Z;
  caption : string;
  collection_type : string;
  file_type : string;
  added_date : Z;
  moved_date : option Z;
  copied_date : option Z;
  source_collection : option string
}.

(** What [save_file] reads of the platform's media object; an absent
    name or caption is Python's [None].  [media_mime_type] is [None]
    when the object has no [mime_type] attribute, the one case in which
    [getattr(media, 'mime_type', 'unknown')] falls back on its default;
    an object whose attribute is there but holds Python's [None] is not
    represented. *)
Record Media : Type := mkMedia {
  media_file_id : string;
  media_file_name : option string;
  media_caption : option string;
  media_file_size : Z;
  media_mime_type : option string
}.

(** A collection holds its documents in insertion order, unique on
    [_id].  [quota_exceeded] is the engine's capacity state: while it is
    set every write is refused with [OperationFailure]. *)
Record Collection : Type := mkCollection {
  docs : list Document;
  quota_exceeded : bool
}.

Inductive Slot : Type := primary_files | cloud_files | archive_files.

Record Database : Type := mkDatabase {
  db_primary : Collection;
  db_clouds : Collection;
  db_archive : Collection
}.

Inductive DbId : Type := FirstDb | SecondDb.

(** A collection object of the module: which database, which slot. *)
Definition Coll : Type := (DbId * Slot)%type.

Definition primary_collection : Coll := (FirstDb, primary_files).
Definition clouds_collection : Coll := (FirstDb, cloud_files).
Definition archive_collection : Coll := (FirstDb, archive_files).
Definition second_primary : Coll := (SecondDb, primary_files).
Definition second_clouds : Coll := (SecondDb, cloud_files).
Definition second_archive : Coll := (SecondDb, archive_files).

Inductive query_filter : Type :=
| ByName (p : Query.pattern)
| ByNameOrCaption (p : Query.pattern).

Inductive Event : Type :=
| EvInsertOne (c : Coll) (doc : Document)
| EvFindOne (c : Coll) (key : string)
| EvFind (c : Coll) (f : query_filter)
| EvDeleteOne (c : Coll) (key : string).

(** The world the module runs in.  [second] is present exactly when
    [SECOND_FILES_DATABASE_URL] is set; [clock] is what
    [datetime.now()] reads; [log] records the store calls, oldest
    first. *)
Record World : Type := mkWorld {
  first : Database;
  second : option Database;
  clock : Z;
  log : list Event
}.

Definition slot_get (d : Database) (s : Slot) : Collection :=
  match s with
  | primary_files => db_primary d
  | cloud_files => db_clouds d
  | archive_files => db_archive d
  end.

Definition slot_set (d : Database) (s : Slot) (c : Collection) : Database :=
  match s with
  | primary_files => mkDatabase c (db_clouds d) (db_archive d)
  | cloud_files => mkDatabase (db_primary d) c (db_archive d)
  | archive_files => mkDatabase (db_primary d) (db_clouds d) c
  end.

Definition get_coll (w : World) (c : Coll) : option Collection :=
  match fst c with
  | FirstDb => Some (slot_get (first w) (snd c))
  | SecondDb => option_map (fun d => slot_get d (snd c)) (second w)
  end.

Definition set_coll (w : World) (c : Coll) (col : Collection) : World :=
  match fst c with
  | FirstDb =>
      mkWorld (slot_set (first w) (snd c) col) (second w) (clock w) (log w)
  | SecondDb =>
      mkWorld (first w)
              (option_map (fun d => slot_set d (snd c) col) (second w))
              (clock w) (log w)
  end.

Definition record (e : Event) (w : World) : World :=
  mkWorld (first w) (second w) (clock w) (log w ++ [e]).

(** *** A monad for store calls that may raise *)

Definition M (A : Type) : Type := World -> result A * World.

Definition ret {A} (a : A) : M A := fun w => (Ok a, w).

Definition raise {A} (e : exn) : M A := fun w => (Raise e, w).

Definition bind {A B} (m : M A) (k : A -> M B) : M B :=
  fun w =>
    match m w with
    | (Ok a, w') => k a w'
    | (Raise e, w') => (Raise e, w')
    end.

(** [try: m except ...]: the handler says which exceptions it takes. *)
Definition try_except {A} (m : M A) (handler : exn -> option (M A)) : M A :=
  fun w =>
    match m w with
    | (Ok a, w') => (Ok a, w')
    | (Raise e, w') =>
        match handler e with
        | Some h => h w'
        | None => (Raise e, w')
        end
    end.

Definition lift {A} (r : result A) : M A := fun w => (r, w).

Declare Scope catalog_scope.
Delimit Scope catalog_scope with catalog.
Notation "x <- m ;; k" := (bind m (fun x => k))
  (at level 61, m at next level, right associativity) : catalog_scope.
Notation "m ;;; k" := (bind m (fun _ => k))
  (at level 61, right associativity) : catalog_scope.
Local Open Scope catalog_scope.

(** [datetime.now()]: successive readings differ. *)
Definition datetime_now : M Z :=
  fun w => (Ok (clock w),
            mkWorld (first w) (second w) (clock w + 1) (log w)).

(** Reading [SECOND_FILES_DATABASE_URL] for its truth value. *)
Definition second_configured : M bool :=
  fun w => (Ok (match second w with Some _ => true | None => false end), w).

(** *** pymongo primitives *)

Definition has_id (key : string) (l : list Document) : bool :=
  existsb (fun d => String.eqb (_id d) key) l.

(** A collection of the second database can only be named when that
    database exists; otherwise the Python name is unbound. *)
Definition with_coll {A} (c : Coll) (k : Collection -> M A) : M A :=
  fun w =>
    match get_coll w c with
    | Some col => k col w
    | None => (Raise NameError, w)
    end.

Definition insert_one (c : Coll) (doc : Document) : M unit :=
  fun w =>
    with_coll c (fun col w1 =>
      if quota_exceeded col then (Raise OperationFailure, w1)
      else if has_id (_id doc) (docs col) then (Raise DuplicateKeyError, w1)
      else (Ok tt,
            set_coll w1 c (mkCollection (docs col ++ [doc])
                                        (quota_exceeded col))))
      (record (EvInsertOne c doc) w).

Definition find_one (c : Coll) (key : string) : M (option Document) :=
  fun w =>
    with_coll c (fun col w1 =>
      (Ok (List.find (fun d => String.eqb (_id d) key) (docs col)), w1))
      (record (EvFindOne c key) w).

Fixpoint remove_first (key : string) (l : list Document) : list Document :=
  match l with
  | [] => []
  | d :: t => if String.eqb (_id d) key then t else d :: remove_first key t
  end.

Definition delete_one (c : Coll) (key : string) : M unit :=
  fun w =>
    with_coll c (fun col w1 =>
      (Ok tt, set_coll w1 c (mkCollection (remove_first key (docs col))
                                          (quota_exceeded col))))
      (record (EvDeleteOne c key) w).

Definition matches_filter (f : query_filter) (d : Document) : bool :=
  match f with
  | ByName p => Query.field_matches p (file_name d)
  | ByNameOrCaption p =>
      Query.field_matches p (file_name d) || Query.field_matches p (caption d)
  end.

(** [list(col.find(filter))], in the store's insertion order. *)
Definition find (c : Coll) (f : query_filter) : M (list Document) :=
  fun w =>
    with_coll c (fun col w1 => (Ok (filter (matches_filter f) (docs col)), w1))
      (record (EvFind c f) w).

(** *** Helper functions *)

Definition get_collection_by_name (collection_name : string) : Coll :=
  if String.eqb collection_name "primary" then primary_collection
  else if String.eqb collection_name "clouds" then clouds_collection
  else if String.eqb collection_name "archive" then archive_collection
  else primary_collection.

(** The dictionary [{'primary': second_primary, ...}] with [.get(name)]. *)
Definition second_lookup (collection_name : string) : option Coll :=
  if String.eqb collection_name "primary" then Some second_primary
  else if String.eqb collection_name "clouds" then Some second_clouds
  else if String.eqb collection_name "archive" then Some second_archive
  else None.

(** The same with [.get(name, second_primary)]. *)
Definition second_lookup_default (collection_name : string) : Coll :=
  match second_lookup collection_name with
  | Some c => c
  | None => second_primary
  end.

(** [col.count_documents({})]. *)
Definition count_documents (c : Coll) : M Z :=
  with_coll c (fun col => ret (Z.of_nat (List.length (docs col)))).

Definition db_count_documents (collection_name : string) : M Z :=
  count_documents (get_collection_by_name collection_name).

(** *** [save_file] *)

Inductive status : Type := suc | dup | err.

(** [str(x)] for a value that is a string or [None]. *)
Definition str (x : option string) : string :=
  match x with
  | Some s => s
  | None => "None"
  end.

Definition is_separator (c : ascii) : bool :=
  Ascii.eqb c "_" || Ascii.eqb c "-" || Ascii.eqb c "." || Ascii.eqb c "+".

(** [re.sub(r"@\w+|(_|\-|\.|\+)", " ", s)]: scanning left to right, an
    [@] followed by at least one word character is replaced, with the
    whole run of word characters, by one space; each separator is
    replaced by a space.  [in_mention] holds while the scan is inside
    such a run. *)
Fixpoint sub_mentions (in_mention : bool) (s : list ascii) : list ascii :=
  match s with
  | [] => []
  | c :: t =>
      if in_mention && Regex.is_word c then sub_mentions true t
      else if Ascii.eqb c "@" &&
              match t with d :: _ => Regex.is_word d | [] => false end
      then " "%char :: sub_mentions true t
      else if is_separator c then " "%char :: sub_mentions false t
      else c :: sub_mentions false t
  end.

Definition clean_name (s : string) : string :=
  string_of_list_ascii (sub_mentions false (list_ascii_of_string s)).

Section Operations.

Variable FileId_decode : string -> option Codec.FileId.

(** The [info] constant read by the search. *)
Variable USE_CAPTION_FILTER : bool.

Definition save_file (media : Media) (collection_name : string)
  : M (status * string) :=
  file_id <- lift (Codec.unpack_new_file_id FileId_decode
                     (media_file_id media)) ;;
  let file_name := clean_name (str (media_file_name media)) in
  let file_caption := clean_name (str (media_caption media)) in
  now <- datetime_now ;;
  let document :=
    mkDocument file_id file_name (media_file_size media) file_caption
               collection_name
               (match media_mime_type media with
                | Some t => t
                | None => "unknown"
                end)
               now None None None in
  let target_col := get_collection_by_name collection_name in
  try_except
    (insert_one target_col document ;;;
     ret (suc, collection_name))
    (fun e =>
       match e with
       | DuplicateKeyError => Some (ret (dup, collection_name))
       | OperationFailure =>
           Some (configured <- second_configured ;;
                 if configured then
                   try_except
                     (let second_col :=
                        second_lookup_default collection_name in
                      insert_one second_col document ;;;
                      ret (suc, ("second_" ++ collection_name)%string))
                     (fun e2 =>
                        match e2 with
                        | DuplicateKeyError =>
                            Some (ret (dup,
                                       ("second_" ++ collection_name)%string))
                        | _ => None
                        end)
                 else ret (err, collection_name))
       | _ => None
       end).

(** *** [get_search_results] *)

Definition tag_source (name : string) (d : Document) : Document :=
  mkDocument (_id d) (file_name d) (file_size d) (caption d)
             (collection_type d) (file_type d) (added_date d)
             (moved_date d) (copied_date d) (Some name).

(** Truth value of an optional string argument: [None] and [''] are
    false. *)
Definition truthy (x : option string) : option string :=
  match x with
  | Some s => if String.eqb s "" then None else Some s
  | None => None
  end.

Definition dict_get (k : string) (d : list (string * Z)) : Z :=
  match List.find (fun kv => String.eqb (fst kv) k) d with
  | Some kv => snd kv
  | None => 0
  end.

Fixpoint dict_set (k : string) (v : Z) (d : list (string * Z))
  : list (string * Z) :=
  match d with
  | [] => [(k, v)]
  | kv :: t =>
      if String.eqb (fst kv) k then (k, v) :: t else kv :: dict_set k v t
  end.

Definition len {A} (l : list A) : Z := Z.of_nat (List.length l).

(** The truth value of a collection object.  pymongo's [Collection]
    defines [__bool__] to raise [NotImplementedError]: collection
    objects do not implement truth value testing, and are to be
    compared with [None] instead.  So a test such as [if second_col:]
    on a collection raises instead of choosing a branch. *)
Definition collection_bool (c : Coll) : M bool :=
  raise NotImplementedError.

(** The branch for one named collection.  [second_col] is the result
    of [dict.get]: [None], which is false, for a name outside the
    three, and otherwise a collection, which [if second_col:] asks for
    its truth value. *)
Definition search_named (filter_query : query_filter)
    (collection_name : string) : M (list Document) :=
  let target_col := get_collection_by_name collection_name in
  results <- find target_col filter_query ;;
  configured <- second_configured ;;
  results <-
    (if configured then
       match second_lookup collection_name with
       | Some second_col =>
           truth <- collection_bool second_col ;;
           if truth then
             more <- find second_col filter_query ;;
             ret (results ++ more)
           else ret results
       | None => ret results
       end
     else ret results) ;;
  ret (map (tag_source collection_name) results).

(** The loop over ['primary', 'clouds', 'archive']. *)
Fixpoint search_all (filter_query : query_filter) (names : list string)
    (results : list Document) (counts : list (string * Z))
  : M (list Document * list (string * Z)) :=
  match names with
  | [] => ret (results, counts)
  | col_name :: rest =>
      let col := get_collection_by_name col_name in
      col_results <- find col filter_query ;;
      let col_results := map (tag_source col_name) col_results in
      let results := results ++ col_results in
      let counts := dict_set col_name (len col_results) counts in
      configured <- second_configured ;;
      rc <-
        (if configured then
           match second_lookup col_name with
           | Some second_col =>
               second_results <- find second_col filter_query ;;
               let second_results :=
                 map (tag_source col_name) second_results in
               ret (results ++ second_results,
                    dict_set col_name
                      (dict_get col_name counts + len second_results)
                      counts)
           | None => raise AttributeError
           end
         else ret (results, counts)) ;;
      search_all filter_query rest (fst rc) (snd rc)
  end.

(** Python's [l[o:]] and [l[:m]] for integer bounds of either sign. *)
Definition slice_from {A} (l : list A) (o : Z) : list A :=
  if 0 <=? o then skipn (Z.to_nat o) l
  else skipn (Z.to_nat (Z.max 0 (len l + o))) l.

Definition slice_to {A} (l : list A) (m : Z) : list A :=
  if 0 <=? m then firstn (Z.to_nat m) l
  else firstn (Z.to_nat (Z.max 0 (len l + m))) l.

Fixpoint starts_with (p s : list ascii) : bool :=
  match p, s with
  | [], _ => true
  | _ :: _, [] => false
  | a :: p', b :: s' => Ascii.eqb a b && starts_with p' s'
  end.

(** [p in s] on strings. *)
Fixpoint contains (p s : list ascii) : bool :=
  starts_with p s ||
  match s with
  | [] => false
  | _ :: s' => contains p s'
  end.

(** [s.lower()] on ASCII text. *)
Definition lower (s : string) : list ascii :=
  map Regex.to_lower (list_ascii_of_string s).

Definition lang_in_name (lang : string) (file : Document) : bool :=
  contains (list_ascii_of_string lang) (lower (file_name file)).

Record SearchResult : Type := mkSearchResult {
  files : list Document;
  next_offset : option Z;
  total_results : Z;
  counts : option (list (string * Z))
}.

(** The language filter and the page, from [# Language filter] to the
    exhaustion test; the empty string returned for an exhausted
    search is [None]. *)
Definition page (results : list Document) (lang : option string)
    (max_results offset : Z) : list Document * option Z * Z :=
  let '(files, total_results) :=
    match truthy lang with
    | Some lang =>
        let lang_files := filter (lang_in_name lang) results in
        (slice_to (slice_from lang_files offset) max_results,
         len lang_files)
    | None =>
        (slice_to (slice_from results offset) max_results, len results)
    end in
  let next_offset := offset + max_results in
  (files,
   if next_offset >=? total_results then None else Some next_offset,
   total_results).

Definition search_filter (query : string) : query_filter :=
  let regex := Query.build_regex query in
  if USE_CAPTION_FILTER then ByNameOrCaption regex else ByName regex.

(** The merged, tagged result list the page is cut from, with the
    per-collection counts when every collection is searched. *)
Definition gather (query : string) (collection_name : option string)
  : M (list Document * option (list (string * Z))) :=
  let filter_query := search_filter query in
  match truthy collection_name with
  | Some collection_name =>
      results <- search_named filter_query collection_name ;;
      ret (results, None)
  | None =>
      rc <- search_all filter_query ["primary"; "clouds"; "archive"]
              [] [] ;;
      ret (fst rc, Some (snd rc))
  end.

Definition get_search_results (query : string)
    (collection_name : option string) (max_results offset : Z)
    (lang : option string) : M SearchResult :=
  rc <- gather query collection_name ;;
  let '(files, next_offset, total_results) :=
    page (fst rc) lang max_results offset in
  ret (mkSearchResult files next_offset total_results (snd rc)).

(** *** [get_file_details] *)

Fixpoint first_hit (cols : list Coll) (query : string)
  : M (option Document) :=
  match cols with
  | [] => ret None
  | col :: rest =>
      file_details <- find_one col query ;;
      match file_details with
      | Some d => ret (Some d)
      | None => first_hit rest query
      end
  end.

Definition get_file_details (query : string) : M (option Document) :=
  hit <- first_hit [primary_collection; clouds_collection;
                    archive_collection] query ;;
  match hit with
  | Some d => ret (Some d)
  | None =>
      configured <- second_configured ;;
      if configured then
        first_hit [second_primary; second_clouds; second_archive] query
      else ret None
  end.

(** *** [move_file], [copy_file], [bulk_move_files] *)

(** A returned message: a literal of the source, or [str(e)]. *)
Inductive message : Type :=
| Text (s : string)
| StrOf (e : exn).

Definition set_moved (to_collection : string) (now : Z) (d : Document)
  : Document :=
  mkDocument (_id d) (file_name d) (file_size d) (caption d)
             to_collection (file_type d) (added_date d)
             (Some now) (copied_date d) (source_collection d).

Definition set_copied (to_collection : string) (now : Z) (d : Document)
  : Document :=
  mkDocument (_id d) (file_name d) (file_size d) (caption d)
             to_collection (file_type d) (added_date d)
             (moved_date d) (Some now) (source_collection d).

Definition move_file (file_id from_collection to_collection : string)
  : M (bool * message) :=
  let from_col := get_collection_by_name from_collection in
  let to_col := get_collection_by_name to_collection in
  file <- find_one from_col file_id ;;
  match file with
  | None => ret (false, Text "File not found in source collection")
  | Some file =>
      now <- datetime_now ;;
      let file := set_moved to_collection now file in
      try_except
        (insert_one to_col file ;;;
         delete_one from_col file_id ;;;
         ret (true, Text "File moved successfully"))
        (fun e => Some (ret (false, StrOf e)))
  end.

Definition copy_file (file_id from_collection to_collection : string)
  : M (bool * option string * message) :=
  let from_col := get_collection_by_name from_collection in
  let to_col := get_collection_by_name to_collection in
  file <- find_one from_col file_id ;;
  match file with
  | None => ret (false, None, Text "File not found")
  | Some file =>
      now <- datetime_now ;;
      let file_copy := set_copied to_collection now file in
      try_except
        (existing <- find_one to_col file_id ;;
         match existing with
         | Some _ =>
             ret (false, None,
                  Text "File already exists in target collection")
         | None =>
             insert_one to_col file_copy ;;;
             ret (true, Some file_id, Text "File copied successfully")
         end)
        (fun e => Some (ret (false, None, StrOf e)))
  end.

(** The loop of [bulk_move_files] over the materialised list. *)
Fixpoint bulk_move_loop (files : list Document) (from_col to_col : Coll)
    (to_collection : string) (moved_count : Z) : M Z :=
  match files with
  | [] => ret moved_count
  | file :: rest =>
      now <- datetime_now ;;
      let file := set_moved to_collection now file in
      moved_count <-
        try_except
          (insert_one to_col file ;;;
           delete_one from_col (_id file) ;;;
           ret (moved_count + 1))
          (fun e =>
             match e with
             | DuplicateKeyError => Some (ret moved_count)
             | _ => None
             end) ;;
      bulk_move_loop rest from_col to_col to_collection moved_count
  end.

Definition bulk_move_files (query from_collection to_collection : string)
  : M Z :=
  let from_col := get_collection_by_name from_collection in
  let to_col := get_collection_by_name to_collection in
  let regex := Query.build_regex query in
  let filter_query := ByName regex in
  files <- find from_col filter_query ;;
  bulk_move_loop files from_col to_col to_collection 0.

(** *** The remaining helpers: [get_all_collections],
    [get_all_counts], [get_search_counts], [delete_files] *)

(** [col.count_documents(filter)]. *)
Definition count_matching (c : Coll) (f : query_filter) : M Z :=
  with_coll c (fun col => ret (len (filter (matches_filter f) (docs col)))).

(** [col.delete_many(filter).deleted_count]: every matching document
    goes, the others keep their order.  Like [count_documents], the
    call is not written to the log. *)
Definition delete_many (c : Coll) (f : query_filter) : M Z :=
  fun w =>
    with_coll c (fun col w1 =>
      (Ok (len (filter (matches_filter f) (docs col))),
       set_coll w1 c
         (mkCollection
            (filter (fun d => negb (matches_filter f d)) (docs col))
            (quota_exceeded col)))) w.

Definition get_all_collections : M (list Coll) :=
  let cols := [primary_collection; clouds_collection; archive_collection] in
  configured <- second_configured ;;
  if configured then
    ret (cols ++ [second_primary; second_clouds; second_archive])
  else ret cols.

Definition get_all_counts : M (list (string * Z)) :=
  n_primary <- count_documents primary_collection ;;
  n_clouds <- count_documents clouds_collection ;;
  n_archive <- count_documents archive_collection ;;
  let counts :=
    [("primary", n_primary); ("clouds", n_clouds); ("archive", n_archive)] in
  configured <- second_configured ;;
  if configured then
    m_primary <- count_documents second_primary ;;
    let counts := dict_set "second_primary" m_primary counts in
    m_clouds <- count_documents second_clouds ;;
    let counts := dict_set "second_clouds" m_clouds counts in
    m_archive <- count_documents second_archive ;;
    ret (dict_set "second_archive" m_archive counts)
  else ret counts.

(** The loop of [get_search_counts] over the three names. *)
Fixpoint search_counts_loop (filter_query : query_filter)
    (names : list string) (counts : list (string * Z))
  : M (list (string * Z)) :=
  match names with
  | [] => ret counts
  | col_name :: rest =>
      let col := get_collection_by_name col_name in
      n <- count_matching col filter_query ;;
      let counts := dict_set col_name n counts in
      configured <- second_configured ;;
      counts <-
        (if configured then
           match second_lookup col_name with
           | Some second_col =>
               m <- count_matching second_col filter_query ;;
               ret (dict_set col_name (dict_get col_name counts + m) counts)
           | None => raise AttributeError
           end
         else ret counts) ;;
      search_counts_loop filter_query rest counts
  end.

Definition get_search_counts (query : string) : M (list (string * Z)) :=
  search_counts_loop (search_filter query)
                     ["primary"; "clouds"; "archive"] [].

(** The two loops of [delete_files] over a list of collections. *)
Fixpoint delete_each (cols : list Coll) (filter_query : query_filter)
    (total_deleted : Z) : M Z :=
  match cols with
  | [] => ret total_deleted
  | col :: rest =>
      n <- delete_many col filter_query ;;
      delete_each rest filter_query (total_deleted + n)
  end.

Definition delete_files (query : string) (collection_name : option string)
  : M Z :=
  let regex := Query.build_regex query in
  let filter_query := ByName regex in
  match truthy collection_name with
  | Some collection_name =>
      let col := get_collection_by_name collection_name in
      total_deleted <- delete_many col filter_query ;;
      configured <- second_configured ;;
      if configured then
        match second_lookup collection_name with
        | Some second_col =>
            n <- delete_many second_col filter_query ;;
            ret (total_deleted + n)
        | None => raise AttributeError
        end
      else ret total_deleted
  | None =>
      total_deleted <-
        delete_each [primary_collection; clouds_collection;
                     archive_collection] filter_query 0 ;;
      configured <- second_configured ;;
      if configured then
        delete_each [second_primary; second_clouds; second_archive]
                    filter_query total_deleted
      else ret total_deleted
  end.

End Operations.

End Catalog.

(** * Specification-side definitions

    Predicates, decoders and example worlds the theorems are stated
    with. *)

Module CodecAux.

Import Codec.
Local Open Scope Z_scope.

(** The number a little-endian byte list denotes. *)
Fixpoint le_value (l : list Z) : Z :=
  match l with
  | [] => 0
  | b :: t => b + 256 * le_value t
  end.

(** One step of undoing the zero-run encoding: [esc] holds right after
    a zero byte, when the next byte is a run length. *)
Definition dstep (st : list Z * bool) (b : Z) : list Z * bool :=
  let (out, esc) := st in
  if esc then (out ++ repeat 0 (Z.to_nat b), false)
  else if b =? 0 then (out, true)
  else (out ++ [b], false).

(** The bytes an encoded list stands for. *)
Definition expand (r : list Z) : list Z * bool :=
  fold_left dstep r ([], false).

(** A list of bytes. *)
Definition byte_list (l : list Z) : Prop := Forall (fun b => 0 <= b < 256) l.

(** The URL-safe alphabet and the character of a sextet in it. *)
Definition url_alphabet : list ascii := map urlsafe_translate b64_alphabet.

Definition url_char (v : Z) : ascii := urlsafe_translate (b64_char v).

(** The position of a character in an alphabet. *)
Fixpoint index_of (c : ascii) (l : list ascii) : Z :=
  match l with
  | [] => 0
  | d :: t => if Ascii.eqb c d then 0 else 1 + index_of c t
  end.

Definition url_index (c : ascii) : Z := index_of c url_alphabet.

(** A list of six-bit values. *)
Definition sextet_list (l : list Z) : Prop := Forall (fun v => 0 <= v < 64) l.

(** The bytes a list of sextets was cut from. *)
Fixpoint unsextets (l : list Z) : list Z :=
  match l with
  | s1 :: s2 :: s3 :: s4 :: t =>
      s1 * 4 + s2 / 16 :: (s2 mod 16) * 16 + s3 / 4 :: (s3 mod 4) * 64 + s4
        :: unsextets t
  | [s1; s2; s3] => [s1 * 4 + s2 / 16; (s2 mod 16) * 16 + s3 / 4]
  | [s1; s2] => [s1 * 4 + s2 / 16]
  | _ => []
  end.

(** A decoder for examples: two handles of the same file that differ in
    what surrounds the four fields. *)
Definition sample_decode (h : string) : option FileId :=
  if String.eqb h "handle-one"
  then Some (mkFileId 5 4 (-1) 1234567890123 [1; 2; 3])
  else if String.eqb h "handle-two"
  then Some (mkFileId 5 4 (-1) 1234567890123 [9; 9])
  else None.

End CodecAux.

Module QueryAux.

Import Regex Query.
Local Open Scope nat_scope.

(** Plain text: letters and digits only. *)
Definition plain (tok : list ascii) : Prop :=
  Forall (fun c => is_alnum c = true) tok.

(** The group [(\b|[\.\+\-_])]. *)
Definition edge : regex :=
  Group (Alt (Cat WordBoundary Eps)
             (Cat (CharSet false [CChar "."; CChar "+"; CChar "-"; CChar "_"])
                  Eps)).

(** The characters of [tok], one literal each, followed by [rest]. *)
Definition lits (tok : list ascii) (rest : regex) : regex :=
  fold_right (fun c acc => Cat (Chr c) acc) rest tok.

(** What [re.compile] makes of the single-token pattern. *)
Definition single_token_regex (tok : list ascii) : regex :=
  Cat edge (lits tok (Cat edge Eps)).

(** The four separator characters of the pattern. *)
Definition separators : list ascii := ["."; "+"; "-"; "_"]%char.

(** Position [i] of [s] holds a separator. *)
Definition separator_at (s : list ascii) (i : nat) : Prop :=
  exists c, nth_error s i = Some c /\ In c separators.

(** There is a word boundary at position [i] of [s]. *)
Definition boundary_at (s : list ascii) (i : nat) : Prop :=
  word_boundary s i = true.

(** [tok] stands at position [j] of [s], letter case aside. *)
Definition token_at (tok s : list ascii) (j : nat) : Prop :=
  map to_lower (firstn (List.length tok) (skipn j s)) = map to_lower tok.

(** A word boundary at [j], or a separator right before [j]. *)
Definition bounded_before (s : list ascii) (j : nat) : Prop :=
  boundary_at s j \/ exists p, j = S p /\ separator_at s p.

(** A word boundary at [k], or a separator at [k]. *)
Definition bounded_after (s : list ascii) (k : nat) : Prop :=
  boundary_at s k \/ separator_at s k.









(** No character of [t] is the space. *)
Definition no_space (t : list ascii) : Prop :=
  Forall (fun c => Ascii.eqb c " " = false) t.


(** [l] is not empty and [str.strip] would leave its first character. *)
Definition starts_nonspace (l : list ascii) : Prop :=
  match l with
  | c :: _ => is_whitespace c = false
  | [] => False
  end.


End QueryAux.

Module StoreAux.

Import Catalog.
Local Open Scope Z_scope.

(** The collection a collection object denotes in a given pair of
    databases; a collection of an absent second database counts as
    empty. *)
Definition coll_at (d1 : Database) (d2 : option Database) (c : Coll)
  : Collection :=
  match fst c with
  | FirstDb => slot_get d1 (snd c)
  | SecondDb =>
      match d2 with
      | Some d => slot_get d (snd c)
      | None => mkCollection [] false
      end
  end.

(** Its documents. *)
Definition stored (d1 : Database) (d2 : option Database) (c : Coll)
  : list Document :=
  docs (coll_at d1 d2 c).

(** Whether it refuses writes for capacity. *)
Definition full (d1 : Database) (d2 : option Database) (c : Coll) : bool :=
  quota_exceeded (coll_at d1 d2 c).

(** A collection object that can be used in world [w]. *)
Definition bound (w : World) (c : Coll) : Prop :=
  fst c = SecondDb -> second w <> None.

(** An empty collection that accepts writes. *)
Definition empty_collection : Collection := mkCollection [] false.

(** The world after a reading of the clock. *)
Definition tick (w : World) : World :=
  mkWorld (first w) (second w) (clock w + 1) (log w).

(** Equality of slots. *)
Definition slot_eqb (a b : Slot) : bool :=
  match a, b with
  | primary_files, primary_files
  | cloud_files, cloud_files
  | archive_files, archive_files => true
  | _, _ => false
  end.

End StoreAux.

Module SearchAux.

Import Catalog StoreAux.
Local Open Scope string_scope.
Local Open Scope list_scope.
Local Open Scope Z_scope.

Section Merged.

Variable USE_CAPTION_FILTER : bool.
Variables (d1 : Database) (d2 : option Database).

(** The hits of one partition: those of its collection in the first
    database, then those of its collection in the second database when
    there is one, every record tagged with the partition's name. *)
Definition partition_hits (f : query_filter) (name : string)
  : list Document :=
  map (tag_source name)
      (filter (matches_filter f) (stored d1 d2 (get_collection_by_name name)))
  ++ match d2, second_lookup name with
     | Some _, Some c =>
         map (tag_source name) (filter (matches_filter f) (stored d1 d2 c))
     | _, _ => []
     end.

(** The merged list a search cuts its page from. *)
Definition merged_results (query : string) (collection_name : option string)
  : list Document :=
  let f := search_filter USE_CAPTION_FILTER query in
  match truthy collection_name with
  | Some name => partition_hits f name
  | None =>
      partition_hits f "primary" ++ partition_hits f "clouds" ++
      partition_hits f "archive"
  end.

(** The per-partition counts returned with a search of every
    partition. *)
Definition partition_counts (query : string) (collection_name : option string)
  : option (list (string * Z)) :=
  let f := search_filter USE_CAPTION_FILTER query in
  match truthy collection_name with
  | Some _ => None
  | None =>
      Some [("primary", len (partition_hits f "primary"));
            ("clouds", len (partition_hits f "clouds"));
            ("archive", len (partition_hits f "archive"))]
  end.

End Merged.

(** The records the language filter keeps. *)
Definition language_filter (lang : option string) (results : list Document)
  : list Document :=
  match truthy lang with
  | Some l => filter (lang_in_name l) results
  | None => results
  end.

(** Two worlds hold the same databases. *)
Definition same_data (w' w : World) : Prop :=
  first w' = first w /\ second w' = second w.

(** A search of the collection [name] asks a collection of the second
    database for its truth value when that database is configured and
    [name] is one of the three names [dict.get] finds. *)
Definition tests_named (d2 : option Database) (name : string) : bool :=
  match d2, second_lookup name with
  | Some _, Some _ => true
  | _, _ => false
  end.

(** The same for the argument of a search: only a search of one named
    collection makes the test. *)
Definition tests_second_collection (d2 : option Database)
    (collection_name : option string) : bool :=
  match truthy collection_name with
  | Some name => tests_named d2 name
  | None => false
  end.

(** The counts after one turn of the loop over the partitions. *)
Definition step_counts (d1 : Database) (d2 : option Database)
    (f : query_filter) (name : string) (cnts : list (string * Z))
  : list (string * Z) :=
  dict_set name (len (partition_hits d1 d2 f name)) cnts.

(** A world for examples: seven files in the primary collection. *)
Definition named_doc (key name : string) : Document :=
  mkDocument key name 1 "None" "primary" "video/mp4" 0 None None None.

Definition seven_docs : list Document :=
  [named_doc "k1" "alpha one"; named_doc "k2" "alpha two";
   named_doc "k3" "alpha three"; named_doc "k4" "alpha four";
   named_doc "k5" "alpha five"; named_doc "k6" "alpha six";
   named_doc "k7" "alpha seven"].

Definition seven_world : World :=
  mkWorld (mkDatabase (mkCollection seven_docs false)
                      empty_collection empty_collection)
          None 0 [].

(** The same seven files, with an empty second database configured. *)
Definition seven_world_with_second : World :=
  mkWorld (mkDatabase (mkCollection seven_docs false)
                      empty_collection empty_collection)
          (Some (mkDatabase empty_collection empty_collection
                            empty_collection))
          0 [].

(** Some character of [s] is an upper-case letter. *)
Definition has_upper (s : string) : Prop :=
  exists c, In c (list_ascii_of_string s) /\ Regex.is_upper c = true.

(** Two files, one of them in Hindi. *)
Definition hindi_world : World :=
  mkWorld (mkDatabase
             (mkCollection [named_doc "k1" "Movie Hindi 2024";
                            named_doc "k2" "Movie English 2024"] false)
             empty_collection empty_collection)
          None 0 [].

End SearchAux.

Module SaveAux.

Import Catalog StoreAux.
Local Open Scope string_scope.
Local Open Scope list_scope.
Local Open Scope Z_scope.

(** The document [save_file] builds for [media] at clock reading [now]. *)
Definition document_of (file_id : string) (media : Media)
    (collection_name : string) (now : Z) : Document :=
  mkDocument file_id
             (clean_name (str (media_file_name media)))
             (media_file_size media)
             (clean_name (str (media_caption media)))
             collection_name
             (match media_mime_type media with
              | Some t => t
              | None => "unknown"
              end)
             now None None None.

(** The name returned for a record stored in the second database. *)
Definition second_name (collection_name : string) : string :=
  ("second_" ++ collection_name)%string.

(** The records of a partition: those of its collection in the first
    database and those of its collection in the second. *)
Definition partition_count (d1 : Database) (d2 : option Database)
    (collection_name : string) : Z :=
  len (stored d1 d2 (get_collection_by_name collection_name)) +
  len (stored d1 d2 (second_lookup_default collection_name)).

(** A decoder and a media object for examples. *)
Definition media_decode (h : string) : option Codec.FileId :=
  if String.eqb h "handle-one"
  then Some (Codec.mkFileId 5 4 (-1) 1234567890123 [1; 2; 3])
  else None.

Definition sample_media : Media :=
  mkMedia "handle-one" (Some "My_File.2024 @uploader.mkv") None 700
          (Some "video/x-matroska").

(** An empty collection over its quota. *)
Definition full_collection : Collection := mkCollection [] true.

Definition empty_database : Database :=
  mkDatabase empty_collection empty_collection empty_collection.

Definition empty_world : World := mkWorld empty_database None 0 [].

(** A world whose first database refuses writes to [primary_files]
    and whose second database does so too. *)
Definition both_full_world : World :=
  mkWorld (mkDatabase full_collection empty_collection empty_collection)
          (Some (mkDatabase full_collection empty_collection empty_collection))
          0 [].

End SaveAux.

Module ReorganizeAux.

Import Catalog StoreAux.
Local Open Scope string_scope.
Local Open Scope list_scope.
Local Open Scope Z_scope.

(** The filter [{'_id': key}]. *)
Definition by_id (key : string) (d : Document) : bool :=
  String.eqb (_id d) key.

(** The first record with key [key] met when the collections are
    scanned in order. *)
Fixpoint scan (d1 : Database) (d2 : option Database) (cols : list Coll)
    (key : string) : option Document :=
  match cols with
  | [] => None
  | c :: rest =>
      match List.find (by_id key) (stored d1 d2 c) with
      | Some d => Some d
      | None => scan d1 d2 rest key
      end
  end.

(** Worlds for examples. *)
(** A record of collection [place]. *)
Definition placed_doc (key name place : string) : Document :=
  mkDocument key name 1 "None" place "video/mp4" 0 None None None.

Definition one_in_primary : World :=
  mkWorld (mkDatabase
             (mkCollection [placed_doc "k1" "alpha one" "primary"] false)
             empty_collection empty_collection)
          None 10 [].


Definition one_in_both : World :=
  mkWorld (mkDatabase
             (mkCollection [placed_doc "k1" "alpha one" "primary"] false)
             (mkCollection [placed_doc "k1" "alpha one" "clouds"] false)
             empty_collection)
          None 10 [].

(** Two records in the primary collection, the second to be moved. *)
Definition two_in_primary : World :=
  mkWorld (mkDatabase
             (mkCollection [placed_doc "k0" "alpha zero" "primary";
                            placed_doc "k1" "alpha one" "primary"] false)
             empty_collection empty_collection)
          None 10 [].

(** The world after that move, and the record the move writes. *)
Definition two_after_move : World :=
  snd (move_file "k1" "primary" "clouds" two_in_primary).

Definition moved_one : Document :=
  set_moved "clouds" 10 (placed_doc "k1" "alpha one" "primary").


End ReorganizeAux.

Module BulkAux.

Import Catalog StoreAux ReorganizeAux.
Local Open Scope string_scope.
Local Open Scope list_scope.
Local Open Scope Z_scope.



Section LoopDefs.

Variables (fs ts : Slot) (to_collection : string).

(** The target already holds the key of [d]. *)
Definition collides (w : World) (d : Document) : bool :=
  has_id (_id d) (stored (first w) (second w) (FirstDb, ts)).

(** The world after one file has been inserted into the target and
    deleted from the source. *)
Definition after_move (w : World) (file : Document) : World :=
  let f : Coll := (FirstDb, fs) in
  let t : Coll := (FirstDb, ts) in
  let moved := set_moved to_collection (clock w) file in
  let w1 := record (EvInsertOne t moved) (tick w) in
  let w3 :=
    set_coll w1 t
      (mkCollection (stored (first w) (second w) t ++ [moved])
                    (full (first w) (second w) t)) in
  set_coll (record (EvDeleteOne f (_id file)) w3) f
    (mkCollection (remove_first (_id file) (stored (first w3) (second w3) f))
                  (full (first w3) (second w3) f)).

End LoopDefs.


End BulkAux.

Module CodecFactsAux.

Import Codec CodecAux.
Local Open Scope Z_scope.

(** The characters a key may hold. *)
Definition key_alphabet : list ascii :=
  list_ascii_of_string
    "ABCDEFGHIJKLMNOPQRSTUVWXYZabcdefghijklmnopqrstuvwxyz0123456789-_".

End CodecFactsAux.

Module QueryFactsAux.

Import Regex Query QueryAux.
Local Open Scope nat_scope.

(** The first character, if any, is not a word character. *)
Definition head_nonword (l : list ascii) : Prop :=
  match l with
  | d :: _ => is_word d = false
  | [] => True
  end.

(** Text on which the substitution of [save_file] has nothing to do: no
    separator, and no [@] in front of a word character. *)
Fixpoint tidy (l : list ascii) : Prop :=
  match l with
  | [] => True
  | c :: t =>
      Catalog.is_separator c = false /\
      (c = "@"%char -> head_nonword t) /\
      tidy t
  end.

End QueryFactsAux.

Module FramesAux.

Import Catalog StoreAux.
Local Open Scope string_scope.
Local Open Scope list_scope.
Local Open Scope Z_scope.

(** Every run of [m] takes a world to one related to it by [R]. *)
Definition keeps {A} (R : World -> World -> Prop) (m : M A) : Prop :=
  forall w, R w (snd (m w)).

(** Databases and clock are the same; only the log may differ. *)
Definition same_store (w w' : World) : Prop :=
  first w' = first w /\ second w' = second w /\ clock w' = clock w.

(** The second database is the same. *)
Definition same_second (w w' : World) : Prop := second w' = second w.

(** No collection holds two records with one key. *)
Definition unique_ids (w : World) : Prop :=
  forall c, NoDup (map _id (stored (first w) (second w) c)).

(** Going from [w] to [w'] does not break that. *)
Definition keeps_unique (w w' : World) : Prop :=
  unique_ids w -> unique_ids w'.

(** Every collection still starts with the records it held. *)
Definition only_appends (w w' : World) : Prop :=
  forall c, exists added,
    stored (first w') (second w') c = stored (first w) (second w) c ++ added.

(** Equality of collection objects. *)
Definition coll_eqb (a b : Coll) : bool :=
  match fst a, fst b with
  | FirstDb, FirstDb | SecondDb, SecondDb => slot_eqb (snd a) (snd b)
  | _, _ => false
  end.

End FramesAux.

Module SearchFactsAux.

Import Catalog StoreAux SearchAux FramesAux.
Local Open Scope string_scope.
Local Open Scope list_scope.
Local Open Scope Z_scope.

(** A caller that pages through a search: it asks for a page, keeps its
    files, and asks again from [next_offset] until none is returned.
    [fuel] bounds the number of requests. *)
Fixpoint follow_pages (fuel : nat) (USE : bool) (query : string)
    (collection_name : option string) (lang : option string)
    (max_results offset : Z) (w : World) : list Document :=
  match fuel with
  | O => []
  | S fuel' =>
      match get_search_results USE query collection_name max_results offset
                               lang w with
      | (Ok r, w') =>
          files r ++
          match next_offset r with
          | Some next =>
              follow_pages fuel' USE query collection_name lang
                           max_results next w'
          | None => []
          end
      | (Raise _, _) => []
      end
  end.

(** The sum of the three per-collection counts. *)
Definition counts_sum (cnts : list (string * Z)) : Z :=
  dict_get "primary" cnts + dict_get "clouds" cnts + dict_get "archive" cnts.

(** A store for examples: three matching records in the primary
    collection. *)
Definition three_world : World :=
  mkWorld
    (mkDatabase
       (mkCollection [named_doc "k1" "movie one"; named_doc "k2" "movie two";
                      named_doc "k3" "movie three"] false)
       empty_collection empty_collection)
    None 0 [].

End SearchFactsAux.

Module WriteInvariantsAux.

Import Catalog StoreAux ReorganizeAux BulkAux FramesAux.
Local Open Scope string_scope.
Local Open Scope list_scope.
Local Open Scope Z_scope.

(** Two worlds with the same first database and clock; the second
    database and the log may differ. *)
Definition agree (w1 w2 : World) : Prop :=
  first w1 = first w2 /\ clock w1 = clock w2.

(** [m] neither reads nor writes the second database: run in two
    worlds that agree, it gives the same outcome and worlds that
    agree. *)
Definition blind {A} (m : M A) : Prop :=
  forall w1 w2, agree w1 w2 ->
    fst (m w1) = fst (m w2) /\ agree (snd (m w1)) (snd (m w2)).

(** A store for examples: two records in the primary collection, and
    the key [k3] in the clouds collection of the second database only. *)
Definition split_world : World :=
  mkWorld
    (mkDatabase
       (mkCollection [placed_doc "k1" "movie one" "primary";
                      placed_doc "k2" "movie two" "primary"] false)
       empty_collection empty_collection)
    (Some (mkDatabase
             empty_collection
             (mkCollection [placed_doc "k3" "movie three" "clouds"] false)
             empty_collection))
    0 [].

End WriteInvariantsAux.

Module LookupFactsAux.

Import Catalog StoreAux SearchAux SaveAux ReorganizeAux BulkAux.
Import FramesAux.
Local Open Scope string_scope.
Local Open Scope list_scope.
Local Open Scope Z_scope.

(** The six collections in the order [get_file_details] visits them. *)
Definition lookup_order : list Coll :=
  [primary_collection; clouds_collection; archive_collection;
   second_primary; second_clouds; second_archive].

End LookupFactsAux.

Module ReorganizeFactsAux.

Import Catalog StoreAux SearchAux ReorganizeAux BulkAux FramesAux.
Local Open Scope string_scope.
Local Open Scope list_scope.
Local Open Scope Z_scope.

(** A store whose clouds collection is over its quota. *)
Definition clouds_full_world : World :=
  mkWorld
    (mkDatabase
       (mkCollection [placed_doc "k1" "movie one" "primary"] false)
       (mkCollection [] true) empty_collection)
    None 0 [].

End ReorganizeFactsAux.

Module DeleteFactsAux.

Import Catalog StoreAux SearchAux SaveAux ReorganizeAux BulkAux.
Import FramesAux SearchFactsAux LookupFactsAux ReorganizeFactsAux.
Local Open Scope string_scope.
Local Open Scope list_scope.
Local Open Scope Z_scope.

(** A collection without the records that match [f]. *)
Definition purged (f : query_filter) (col : Collection) : Collection :=
  mkCollection (filter (fun d => negb (matches_filter f d)) (docs col))
               (quota_exceeded col).

(** The number of records matching [f] in the listed collections. *)
Fixpoint matching_in (f : query_filter) (d1 : Database)
    (d2 : option Database) (cols : list Coll) : Z :=
  match cols with
  | [] => 0
  | c :: rest =>
      len (filter (matches_filter f) (stored d1 d2 c)) +
      matching_in f d1 d2 rest
  end.

(** The filter [delete_files] builds: the name alone, whatever
    [USE_CAPTION_FILTER] says. *)
Definition name_filter (query : string) : query_filter :=
  ByName (Query.build_regex query).

(** A store for examples: two matching records and one other, over
    both databases. *)
Definition shelf_world : World :=
  mkWorld
    (mkDatabase
       (mkCollection [placed_doc "k1" "movie one" "primary";
                      placed_doc "k2" "song two" "primary"] false)
       empty_collection empty_collection)
    (Some (mkDatabase
             empty_collection
             (mkCollection [placed_doc "k3" "movie three" "clouds"] false)
             empty_collection))
    0 [].

End DeleteFactsAux.

Module CountFactsAux.

Import Catalog StoreAux SearchAux SaveAux ReorganizeAux FramesAux.
Local Open Scope string_scope.
Local Open Scope list_scope.
Local Open Scope Z_scope.

(** The dictionary [get_all_counts] builds for a pair of databases. *)
Definition all_counts (d1 : Database) (d2 : option Database)
  : list (string * Z) :=
  [("primary", len (stored d1 d2 primary_collection));
   ("clouds", len (stored d1 d2 clouds_collection));
   ("archive", len (stored d1 d2 archive_collection))] ++
  match d2 with
  | Some _ =>
      [("second_primary", len (stored d1 d2 second_primary));
       ("second_clouds", len (stored d1 d2 second_clouds));
       ("second_archive", len (stored d1 d2 second_archive))]
  | None => []
  end.

End CountFactsAux.

Module FindFactsAux.

Import Regex Query QueryAux.
Import Catalog StoreAux SearchAux SaveAux FramesAux SearchFactsAux.
Local Open Scope string_scope.
Local Open Scope list_scope.
Local Open Scope Z_scope.

(** [tok] stands in [name] as a word of its own: letter case aside,
    with a word boundary or one of [. + - _] on each side. *)
Definition stands_as_word (tok name : string) : Prop :=
  exists j,
    bounded_before (list_ascii_of_string name) j /\
    token_at (list_ascii_of_string tok) (list_ascii_of_string name) j /\
    bounded_after (list_ascii_of_string name)
                  (j + List.length (list_ascii_of_string tok)).

End FindFactsAux.

(** * Theorems *)

Module CodecProofs.

Import Codec CodecAux.
Local Open Scope Z_scope.

(** ** Little-endian fields *)

Lemma le_bytes_length n x : List.length (le_bytes n x) = n.
Proof. revert x; induction n; intros; simpl; auto. Qed.

Lemma le_bytes_range n x : Forall (fun b => 0 <= b < 256) (le_bytes n x).
Proof.
  revert x; induction n; intros; simpl; constructor; auto.
  apply Z.mod_pos_bound; lia.
Qed.

Lemma le_value_bytes n x : le_value (le_bytes n x) = x mod 256 ^ Z.of_nat n.
Proof.
  revert x; induction n; intros x.
  - simpl. now rewrite Z.mod_1_r.
  - cbn [le_bytes le_value]. rewrite IHn.
    rewrite Nat2Z.inj_succ, Z.pow_succ_r by lia.
    rewrite Z.rem_mul_r by lia. reflexivity.
Qed.

Lemma mod_window_inj M x y :
  0 < M -> - M <= 2 * x < M -> - M <= 2 * y < M ->
  x mod M = y mod M -> x = y.
Proof.
  intros HM Hx Hy E.
  rewrite (Z.div_mod x M), (Z.div_mod y M), E by lia.
  assert (x / M = y / M); [|congruence].
  pose proof (Z.mod_pos_bound y M HM).
  pose proof (Z.div_mod x M). pose proof (Z.div_mod y M).
  rewrite E in *. nia.
Qed.

Lemma pack_signed_ok n x :
  - 2 ^ (8 * Z.of_nat n - 1) <= x < 2 ^ (8 * Z.of_nat n - 1) ->
  pack_signed n x = Ok (le_bytes n x).
Proof.
  intros [H1 H2]. unfold pack_signed.
  apply Z.leb_le in H1. apply Z.ltb_lt in H2.
  cbv zeta. now rewrite H1, H2.
Qed.

Lemma le_bytes_inj n x y :
  (0 < n)%nat ->
  - 2 ^ (8 * Z.of_nat n - 1) <= x < 2 ^ (8 * Z.of_nat n - 1) ->
  - 2 ^ (8 * Z.of_nat n - 1) <= y < 2 ^ (8 * Z.of_nat n - 1) ->
  le_bytes n x = le_bytes n y -> x = y.
Proof.
  intros Hn Hx Hy E.
  apply (f_equal le_value) in E. rewrite !le_value_bytes in E.
  assert (HM : 256 ^ Z.of_nat n = 2 * 2 ^ (8 * Z.of_nat n - 1)).
  { change 256 with (2 ^ 8). rewrite <- Z.pow_mul_r by lia.
    rewrite <- Z.pow_succ_r by lia. f_equal. lia. }
  assert (0 < 2 ^ (8 * Z.of_nat n - 1)) by (apply Z.pow_pos_nonneg; lia).
  apply (mod_window_inj (256 ^ Z.of_nat n)); lia.
Qed.

(** ** The zero-run loop can be undone *)

Lemma repeat_snoc {A} (a : A) k : repeat a (S k) = repeat a k ++ [a].
Proof. induction k; simpl; auto. f_equal. exact IHk. Qed.

Lemma bytes_of_singleton n bn :
  bytes_of [n] = Ok bn -> bn = [n] /\ 0 <= n < 256.
Proof.
  unfold bytes_of, is_byte. simpl.
  destruct (0 <=? n) eqn:E1; destruct (n <? 256) eqn:E2; simpl;
    intros H; inversion H; subst.
  apply Z.leb_le in E1. apply Z.ltb_lt in E2. split; auto.
Qed.

Lemma encode_loop_expand s : forall x r n pre out,
  x <> 0 -> 0 <= n ->
  expand r = (pre, false) ->
  encode_loop (s ++ [x]) r n = Ok out ->
  expand out = (pre ++ repeat 0 (Z.to_nat n) ++ s ++ [x], false).
Proof.
  assert (Hflush : forall i r n pre r1 n1, i <> 0 -> 0 <= n ->
    expand r = (pre, false) ->
    (if negb (n =? 0)
     then rbind (bytes_of [n]) (fun bn => Ok (r ++ [0] ++ bn, 0))
     else Ok (r, n)) = Ok (r1, n1) ->
    n1 = 0 /\
    expand (r1 ++ [i]) = (pre ++ repeat 0 (Z.to_nat n) ++ [i], false)).
  { intros i r n pre r1 n1 Hi Hn Hr H.
    apply Z.eqb_neq in Hi.
    destruct (n =? 0) eqn:En; simpl in H.
    - apply Z.eqb_eq in En. inversion H; subst. split; auto.
      unfold expand in *. rewrite fold_left_app, Hr. simpl. now rewrite Hi.
    - destruct (bytes_of [n]) as [bn|] eqn:Eb; simpl in H; [|discriminate].
      apply bytes_of_singleton in Eb as [-> _]. inversion H; subst.
      split; auto. unfold expand in *.
      rewrite !fold_left_app, Hr. simpl. rewrite Hi.
      now rewrite <- app_assoc. }
  induction s as [|i s IH]; intros x r n pre out Hx Hn Hr H.
  - simpl in H. simpl app.
    destruct (x =? 0) eqn:Ex; [apply Z.eqb_eq in Ex; contradiction|].
    destruct (if negb (n =? 0) then _ else _) as [[r1 n1]|] eqn:Ef;
      simpl in H; [|discriminate].
    destruct (Hflush x r n pre r1 n1 Hx Hn Hr Ef) as [-> Hex].
    inversion H; subst. exact Hex.
  - cbn [app encode_loop] in H.
    destruct (i =? 0) eqn:Ei.
    + apply Z.eqb_eq in Ei. subst i.
      apply (IH x r (n + 1) pre out Hx) in H; auto; [|lia].
      rewrite H. f_equal. f_equal.
      replace (Z.to_nat (n + 1)) with (S (Z.to_nat n)) by lia.
      rewrite repeat_snoc, <- app_assoc. reflexivity.
    + apply Z.eqb_neq in Ei.
      destruct (if negb (n =? 0) then _ else _) as [[r1 n1]|] eqn:Ef;
        simpl in H; [|discriminate].
      destruct (Hflush i r n pre r1 n1 Ei Hn Hr Ef) as [-> Hex].
      apply (IH x _ 0 _ out Hx (Z.le_refl 0) Hex) in H.
      rewrite H. f_equal. simpl. rewrite <- !app_assoc. reflexivity.
Qed.

Lemma encode_loop_inj s1 s2 out :
  encode_loop (s1 ++ [22] ++ [4]) [] 0 = Ok out ->
  encode_loop (s2 ++ [22] ++ [4]) [] 0 = Ok out ->
  s1 = s2.
Proof.
  intros H1 H2.
  rewrite app_assoc in H1, H2.
  apply (encode_loop_expand _ 4 [] 0 []) in H1; try lia; auto.
  apply (encode_loop_expand _ 4 [] 0 []) in H2; try lia; auto.
  rewrite H1 in H2. inversion H2 as [E].
  apply app_inv_tail in E. apply app_inv_tail in E. exact E.
Qed.

Lemma encode_loop_total s : forall r n,
  0 <= n -> n + Z.of_nat (List.length s) < 256 ->
  byte_list s -> byte_list r ->
  exists out, encode_loop s r n = Ok out /\ byte_list out.
Proof.
  induction s as [|i s IH]; intros r n Hn Hlen Hs Hr.
  - exists r. split; auto.
  - inversion Hs as [|? ? Hi Hs']; subst.
    cbn [encode_loop]. cbn [List.length] in Hlen.
    destruct (i =? 0) eqn:Ei.
    + apply IH; auto; lia.
    + destruct (n =? 0) eqn:En; simpl.
      * apply IH; auto; try lia.
        apply Forall_app; split; auto.
      * unfold bytes_of, is_byte. simpl.
        replace (0 <=? n) with true by (symmetry; apply Z.leb_le; lia).
        replace (n <? 256) with true by (symmetry; apply Z.ltb_lt; lia).
        simpl. apply IH; auto; try lia.
        apply Z.eqb_neq in En.
        repeat (apply Forall_app; split; auto); repeat constructor; lia.
Qed.

(** ** Base64 can be undone *)

Lemma url_char_facts v :
  0 <= v < 64 -> url_index (url_char v) = v /\ url_char v <> "="%char.
Proof.
  intros Hv.
  assert (H : forallb (fun n => (url_index (url_char (Z.of_nat n)) =? Z.of_nat n)
                                 && negb (Ascii.eqb (url_char (Z.of_nat n)) "="))
                      (seq 0 64) = true) by (vm_compute; reflexivity).
  rewrite forallb_forall in H.
  specialize (H (Z.to_nat v)). rewrite Z2Nat.id in H by lia.
  assert (Hin : In (Z.to_nat v) (seq 0 64)) by (apply in_seq; lia).
  apply H in Hin. apply andb_true_iff in Hin as [H1 H2].
  apply Z.eqb_eq in H1. split; auto.
  intros E. rewrite E in H2. discriminate.
Qed.

Lemma map_url_char_inj l1 l2 :
  sextet_list l1 -> sextet_list l2 ->
  map url_char l1 = map url_char l2 -> l1 = l2.
Proof.
  intros H1. revert l2. induction H1 as [|v l1 Hv _ IH]; intros l2 H2 E.
  - destruct l2; [reflexivity|discriminate].
  - destruct H2 as [|w l2 Hw H2]; [discriminate|].
    simpl in E. injection E as E1 E2.
    f_equal; auto.
    rewrite <- (proj1 (url_char_facts v Hv)), <- (proj1 (url_char_facts w Hw)).
    now rewrite E1.
Qed.

Lemma list_ind3 {A} (P : list A -> Prop) :
  P [] -> (forall a, P [a]) -> (forall a b, P [a; b]) ->
  (forall a b c t, P t -> P (a :: b :: c :: t)) ->
  forall l, P l.
Proof.
  intros H0 H1 H2 H3.
  fix IH 1. intros [|a [|b [|c t]]];
    [exact H0 | apply H1 | apply H2 | apply H3, IH].
Qed.

Ltac divmod := Z.div_mod_to_equations; lia.

Lemma sextets_range l : byte_list l -> sextet_list (sextets l).
Proof.
  induction l as [|a|a b|a b c t IH] using list_ind3; intros H.
  - constructor.
  - inversion H; subst. simpl. repeat constructor; divmod.
  - inversion H as [|? ? Ha H']; subst. inversion H'; subst.
    simpl. repeat constructor; divmod.
  - inversion H as [|? ? Ha H']; subst.
    inversion H' as [|? ? Hb H'']; subst.
    inversion H'' as [|? ? Hc Ht]; subst.
    cbn [sextets]. repeat (constructor; [divmod|]). now apply IH.
Qed.

Lemma unsextets_sextets l : byte_list l -> unsextets (sextets l) = l.
Proof.
  induction l as [|a|a b|a b c t IH] using list_ind3; intros H.
  - reflexivity.
  - inversion H; subst. simpl. f_equal. divmod.
  - inversion H as [|? ? Ha H']; subst. inversion H'; subst.
    simpl. f_equal; [divmod|]. f_equal. divmod.
  - inversion H as [|? ? Ha H']; subst.
    inversion H' as [|? ? Hb H'']; subst.
    inversion H'' as [|? ? Hc Ht]; subst.
    cbn [sextets unsextets]. rewrite (IH Ht).
    f_equal; [divmod|]. f_equal; [divmod|]. f_equal. divmod.
Qed.

Lemma rstrip_eq_cons c t :
  c <> "="%char -> rstrip_eq (c :: t) = c :: rstrip_eq t.
Proof.
  intros Hc. simpl. destruct (rstrip_eq t); auto.
  apply Ascii.eqb_neq in Hc. now rewrite Hc.
Qed.

Lemma rstrip_eq_body body k :
  Forall (fun c => c <> "="%char) body ->
  rstrip_eq (body ++ repeat "="%char k) = body.
Proof.
  induction 1 as [|c body Hc _ IH].
  - simpl app. induction k as [|k IHk]; [reflexivity|].
    cbn [repeat rstrip_eq]. now rewrite IHk.
  - simpl app. rewrite rstrip_eq_cons by assumption. now rewrite IH.
Qed.

Lemma b64_padding_repeat n : exists k, b64_padding n = repeat "="%char k.
Proof.
  unfold b64_padding. destruct (n mod 3)%nat as [|[|[|m]]].
  - now exists 0%nat.
  - now exists 2%nat.
  - now exists 1%nat.
  - now exists 0%nat.
Qed.

Lemma rstrip_urlsafe_b64encode l :
  byte_list l ->
  rstrip_eq (urlsafe_b64encode l) = map url_char (sextets l).
Proof.
  intros Hl. unfold urlsafe_b64encode, b64encode.
  rewrite map_app, map_map.
  destruct (b64_padding_repeat (List.length l)) as [k ->].
  replace (map urlsafe_translate (repeat "="%char k)) with (repeat "="%char k)
    by (induction k as [|k IHk]; [reflexivity|]; cbn [repeat map];
        rewrite <- IHk; reflexivity).
  apply rstrip_eq_body.
  apply Forall_map. eapply Forall_impl; [|apply sextets_range, Hl].
  intros v Hv. apply url_char_facts, Hv.
Qed.

Lemma string_of_list_ascii_inj a b :
  string_of_list_ascii a = string_of_list_ascii b -> a = b.
Proof.
  intros E. apply (f_equal list_ascii_of_string) in E.
  now rewrite !list_ascii_of_string_of_list_ascii in E.
Qed.

Lemma b64_key_inj r1 r2 :
  byte_list r1 -> byte_list r2 ->
  string_of_list_ascii (rstrip_eq (urlsafe_b64encode r1)) =
  string_of_list_ascii (rstrip_eq (urlsafe_b64encode r2)) ->
  r1 = r2.
Proof.
  intros H1 H2 E. apply string_of_list_ascii_inj in E.
  rewrite !rstrip_urlsafe_b64encode in E by assumption.
  apply map_url_char_inj in E; try now apply sextets_range.
  rewrite <- (unsextets_sextets r1 H1), <- (unsextets_sextets r2 H2).
  now rewrite E.
Qed.

(** ** The key determines the four fields *)

Lemma pack_iiqq_ok d :
  fields_in_range d ->
  pack_iiqq (file_type d) (dc_id d) (media_id d) (access_hash d) =
  Ok (le_bytes 4 (file_type d) ++ le_bytes 4 (dc_id d) ++
      le_bytes 8 (media_id d) ++ le_bytes 8 (access_hash d)).
Proof.
  intros (Ha & Hb & Hc & Hd). unfold pack_iiqq.
  rewrite !pack_signed_ok by (simpl; lia). reflexivity.
Qed.

Lemma app_inj_length {A} (a c b d : list A) :
  List.length a = List.length c -> a ++ b = c ++ d -> a = c /\ b = d.
Proof.
  revert c. induction a as [|x a IH]; intros [|y c] Hl E;
    try discriminate; simpl in *.
  - auto.
  - injection E as -> E. injection Hl as Hl.
    destruct (IH c Hl E) as [-> ->]. auto.
Qed.

Lemma packed_fields_inj d1 d2 :
  fields_in_range d1 -> fields_in_range d2 ->
  le_bytes 4 (file_type d1) ++ le_bytes 4 (dc_id d1) ++
    le_bytes 8 (media_id d1) ++ le_bytes 8 (access_hash d1) =
  le_bytes 4 (file_type d2) ++ le_bytes 4 (dc_id d2) ++
    le_bytes 8 (media_id d2) ++ le_bytes 8 (access_hash d2) ->
  key_fields d1 = key_fields d2.
Proof.
  intros (Ha & Hb & Hc & Hd) (Ha' & Hb' & Hc' & Hd') E.
  apply app_inj_length in E as [Ea E]; [|now rewrite !le_bytes_length].
  apply app_inj_length in E as [Eb E]; [|now rewrite !le_bytes_length].
  apply app_inj_length in E as [Ec Ed]; [|now rewrite !le_bytes_length].
  apply le_bytes_inj in Ea, Eb, Ec, Ed; try (simpl; lia).
  unfold key_fields. congruence.
Qed.

Lemma packed_fields_bytes d :
  byte_list (le_bytes 4 (file_type d) ++ le_bytes 4 (dc_id d) ++
             le_bytes 8 (media_id d) ++ le_bytes 8 (access_hash d)) /\
  List.length (le_bytes 4 (file_type d) ++ le_bytes 4 (dc_id d) ++
               le_bytes 8 (media_id d) ++ le_bytes 8 (access_hash d)) = 24%nat.
Proof.
  split.
  - unfold byte_list. repeat (apply Forall_app; split); apply le_bytes_range.
  - rewrite !length_app, !le_bytes_length. reflexivity.
Qed.

Lemma encode_file_id_packed s :
  byte_list s -> List.length s = 24%nat ->
  exists out, encode_loop (s ++ [22] ++ [4]) [] 0 = Ok out /\ byte_list out /\
    encode_file_id s =
    Ok (string_of_list_ascii (rstrip_eq (urlsafe_b64encode out))).
Proof.
  intros Hs Hl.
  destruct (encode_loop_total (s ++ [22] ++ [4]) [] 0) as (out & Hout & Hb).
  - lia.
  - rewrite !length_app, Hl. simpl. lia.
  - apply Forall_app; split; auto. repeat constructor; lia.
  - constructor.
  - exists out. repeat split; auto. unfold encode_file_id. now rewrite Hout.
Qed.

(** C1.  For two handles that decode, with fields in the decoder's
    range, [unpack_new_file_id] returns a key for each, and the two keys
    are equal if and only if the decoded (file_type, dc_id, media_id,
    access_hash) tuples are equal: the little-endian pack followed by
    [encode_file_id] is injective on those tuples, and nothing else of
    the handle reaches the key. *)
Theorem C1_derived_keys_equal_iff_fields_equal :
  forall (FileId_decode : string -> option FileId) (h1 h2 : string)
         (d1 d2 : FileId),
    FileId_decode h1 = Some d1 ->
    FileId_decode h2 = Some d2 ->
    fields_in_range d1 ->
    fields_in_range d2 ->
    exists k1 k2,
      unpack_new_file_id FileId_decode h1 = Ok k1 /\
      unpack_new_file_id FileId_decode h2 = Ok k2 /\
      (k1 = k2 <-> key_fields d1 = key_fields d2).
Proof.
  intros dec h1 h2 d1 d2 D1 D2 R1 R2.
  unfold unpack_new_file_id. rewrite D1, D2.
  rewrite (pack_iiqq_ok d1 R1), (pack_iiqq_ok d2 R2). cbn [rbind].
  destruct (packed_fields_bytes d1) as [B1 L1].
  destruct (packed_fields_bytes d2) as [B2 L2].
  destruct (encode_file_id_packed _ B1 L1) as (o1 & Ho1 & Bo1 & E1).
  destruct (encode_file_id_packed _ B2 L2) as (o2 & Ho2 & Bo2 & E2).
  rewrite E1, E2. eexists; eexists. split; [reflexivity|].
  split; [reflexivity|]. split.
  - intros E. apply b64_key_inj in E; auto. subst o2.
    apply packed_fields_inj; auto.
    eapply encode_loop_inj; eauto.
  - intros E. unfold key_fields in E. injection E as Ea Eb Ec Ed.
    rewrite Ea, Eb, Ec, Ed in Ho1. rewrite Ho1 in Ho2. congruence.
Qed.

Lemma C1_derived_keys_witness :
  exists k1 k2,
    unpack_new_file_id sample_decode "handle-one" = Ok k1 /\
    unpack_new_file_id sample_decode "handle-two" = Ok k2 /\
    (k1 = k2 <->
     key_fields (mkFileId 5 4 (-1) 1234567890123 [1; 2; 3]) =
     key_fields (mkFileId 5 4 (-1) 1234567890123 [9; 9])).
Proof.
  apply (C1_derived_keys_equal_iff_fields_equal sample_decode
           "handle-one" "handle-two").
  - reflexivity.
  - reflexivity.
  - unfold fields_in_range; simpl; lia.
  - unfold fields_in_range; simpl; lia.
Defined.

End CodecProofs.

Module QueryProofs.

Import Regex Query QueryAux.
Local Open Scope nat_scope.

(** ** Compiling the single-token pattern *)

Lemma list_ascii_of_string_app a b :
  list_ascii_of_string (a ++ b)%string =
  list_ascii_of_string a ++ list_ascii_of_string b.
Proof. induction a as [|c a IH]; simpl; [reflexivity|now rewrite IH]. Qed.

Lemma steps_app p q : forall st,
  steps st (p ++ q) =
  match steps st p with
  | Some st' => steps st' q
  | None => None
  end.
Proof.
  induction p as [|c p IH]; intros st; simpl; [reflexivity|].
  destruct (step st c); [apply IH|reflexivity].
Qed.

Lemma alnum_normal_step st c :
  is_alnum c = true -> normal_step st c = push_atom (Chr c) st.
Proof.
  destruct c as [b0 b1 b2 b3 b4 b5 b6 b7].
  destruct b0, b1, b2, b3, b4, b5, b6, b7;
    intros H; try discriminate H; reflexivity.
Qed.

Lemma steps_plain tok : forall alts0 atoms0 stack0,
  plain tok ->
  steps (mkPState (mkFrame alts0 atoms0) stack0 MNormal) tok =
  Some (mkPState (mkFrame alts0 (rev (map Chr tok) ++ atoms0)) stack0 MNormal).
Proof.
  induction tok as [|c tok IH]; intros alts0 atoms0 stack0 H.
  - reflexivity.
  - inversion H as [|? ? Hc Ht]; subst.
    cbn [steps step pmode]. rewrite (alnum_normal_step _ _ Hc).
    unfold push_atom. cbn [cur alts atoms stack].
    rewrite (IH _ _ _ Ht). cbn [map rev]. now rewrite <- app_assoc.
Qed.

Lemma mkseq_lits tok a b :
  mkseq (b :: rev (map Chr tok) ++ [a]) = Cat a (lits tok (Cat b Eps)).
Proof.
  unfold mkseq, lits. cbn [fold_left].
  rewrite fold_left_app. cbn [fold_left]. f_equal.
  generalize (Cat b Eps) as acc.
  induction tok as [|c tok IH]; intros acc; [reflexivity|].
  cbn [map rev fold_right]. rewrite fold_left_app. cbn [fold_left].
  now rewrite IH.
Qed.

Lemma steps_edge alts0 atoms0 stack0 :
  steps (mkPState (mkFrame alts0 atoms0) stack0 MNormal)
        (list_ascii_of_string "(\b|[\.\+\-_])") =
  Some (mkPState (mkFrame alts0 (edge :: atoms0)) stack0 MNormal).
Proof. reflexivity. Qed.

Lemma compile_single_token tok :
  plain (list_ascii_of_string tok) ->
  compile ("(\b|[\.\+\-_])" ++ tok ++ "(\b|[\.\+\-_])")%string =
  Some (single_token_regex (list_ascii_of_string tok)).
Proof.
  intros H. unfold compile.
  rewrite !list_ascii_of_string_app, steps_app.
  unfold initial. rewrite steps_edge, steps_app, (steps_plain _ _ _ _ H).
  rewrite steps_edge. cbn [pmode stack cur]. f_equal. unfold close_frame. cbn [atoms alts rev app mkalt].
  apply mkseq_lits.
Qed.

(** ** What the single-token pattern matches *)

Lemma nonempty_In {A} (l : list A) : nonempty l = true <-> exists e, In e l.
Proof.
  destruct l as [|a l]; simpl; split; try discriminate; auto.
  - intros [e []].
  - intros _. exists a. now left.
Qed.

Lemma search_list_iff ic r s :
  search_list ic r s = true <->
  exists i e, i <= List.length s /\ In e (ends ic r s i).
Proof.
  unfold search_list. rewrite existsb_exists. split.
  - intros (i & Hi & Hn). apply in_seq in Hi.
    apply nonempty_In in Hn as [e He]. exists i, e. split; [lia|auto].
  - intros (i & e & Hi & He). exists i. split.
    + apply in_seq. lia.
    + apply nonempty_In. now exists e.
Qed.

Lemma step_char_In p s i e :
  In e (step_char p s i) <->
  e = S i /\ exists d, nth_error s i = Some d /\ p d = true.
Proof.
  unfold step_char. destruct (nth_error s i) as [d|].
  - destruct (p d) eqn:E; simpl; split.
    + intros [<-|[]]. split; eauto.
    + intros [-> _]. now left.
    + intros [].
    + intros [_ (d' & [= <-] & H)]. congruence.
  - simpl. split; [intros []|]. intros [_ (d & H & _)]. discriminate.
Qed.

Lemma guard_In b i e : In e (guard b i) <-> e = i /\ b = true.
Proof.
  unfold guard. destruct b; simpl; split.
  - intros [<-|[]]. auto.
  - intros [-> _]. now left.
  - intros [].
  - intros [_ H]. discriminate.
Qed.

Lemma separator_set d :
  set_matches true false
    [CChar "."; CChar "+"; CChar "-"; CChar "_"]%char d =
  existsb (Ascii.eqb d) separators.
Proof.
  destruct d as [b0 b1 b2 b3 b4 b5 b6 b7].
  destruct b0, b1, b2, b3, b4, b5, b6, b7; reflexivity.
Qed.

Lemma separator_set_In d :
  set_matches true false
    [CChar "."; CChar "+"; CChar "-"; CChar "_"]%char d = true <->
  In d separators.
Proof.
  rewrite separator_set, existsb_exists. split.
  - intros (c & Hc & E). apply Ascii.eqb_eq in E. now subst.
  - intros H. exists d. split; auto. apply Ascii.eqb_refl.
Qed.

Lemma ends_edge s i e :
  In e (ends true edge s i) <->
  (e = i /\ boundary_at s i) \/ (e = S i /\ separator_at s i).
Proof.
  unfold edge. cbn [ends]. rewrite in_app_iff, !in_flat_map.
  unfold boundary_at, separator_at. split.
  - intros [(x & Hx & He)|(x & Hx & He)]; simpl in He;
      destruct He as [<-|[]].
    + apply guard_In in Hx. now left.
    + apply step_char_In in Hx as [-> (d & Hd & Hs)].
      right. split; auto. exists d. split; auto.
      now apply separator_set_In.
  - intros [[-> Hb]|[-> (d & Hd & Hs)]].
    + left. exists i. split; [now apply guard_In|now left].
    + right. exists (S i). split; [|now left].
      apply step_char_In. split; auto. exists d. split; auto.
      now apply separator_set_In.
Qed.

Lemma skipn_nth_error_Some {A} (s : list A) : forall j d,
  nth_error s j = Some d -> skipn j s = d :: skipn (S j) s.
Proof.
  induction s as [|a s IH]; intros [|j] d H; simpl in H; try discriminate.
  - now injection H as ->.
  - cbn [skipn]. rewrite (IH j d H). reflexivity.
Qed.

Lemma skipn_nth_error_None {A} (s : list A) : forall j,
  nth_error s j = None -> skipn j s = [].
Proof.
  intros j H. apply nth_error_None in H. now apply skipn_all2.
Qed.

Lemma token_at_cons c tok s j :
  token_at (c :: tok) s j <->
  exists d, nth_error s j = Some d /\ to_lower c = to_lower d /\
            token_at tok s (S j).
Proof.
  unfold token_at. cbn [List.length map].
  destruct (nth_error s j) as [d|] eqn:E.
  - rewrite (skipn_nth_error_Some s j d E). cbn [firstn map]. split.
    + intros H. injection H as H1 H2. exists d. auto.
    + intros (d' & [= <-] & H1 & H2). now rewrite H1, H2.
  - rewrite (skipn_nth_error_None s j E). cbn [firstn map]. split.
    + discriminate.
    + intros (d & Hd & _). discriminate.
Qed.

Lemma ends_lits rest s tok : forall j e,
  In e (ends true (lits tok rest) s j) <->
  token_at tok s j /\ In e (ends true rest s (j + List.length tok)).
Proof.
  induction tok as [|c tok IH]; intros j e.
  - cbn [lits fold_right List.length]. rewrite Nat.add_0_r.
    unfold token_at. simpl. tauto.
  - change (lits (c :: tok) rest) with (Cat (Chr c) (lits tok rest)).
    cbn [ends]. rewrite in_flat_map, token_at_cons. cbn [List.length].
    replace (j + S (List.length tok)) with (S j + List.length tok) by lia.
    split.
    + intros (x & Hx & He). apply step_char_In in Hx as [-> (d & Hd & Hm)].
      apply IH in He as [Ht He]. split; auto.
      exists d. repeat split; auto.
      unfold chr_matches in Hm. now apply Ascii.eqb_eq in Hm.
    + intros [(d & Hd & Hc & Ht) He]. exists (S j). split.
      * apply step_char_In. split; auto. exists d. split; auto.
        unfold chr_matches. now apply Ascii.eqb_eq.
      * apply IH. auto.
Qed.

Lemma boundary_at_le s i : boundary_at s i -> i <= List.length s.
Proof.
  unfold boundary_at, word_boundary, word_at. intros H.
  destruct (Nat.le_gt_cases i (List.length s)) as [|Hgt]; auto.
  exfalso.
  assert (E1 : nth_error s i = None) by (apply nth_error_None; lia).
  rewrite E1 in H. destruct i as [|p]; [lia|].
  assert (E2 : nth_error s p = None) by (apply nth_error_None; lia).
  rewrite E2 in H. discriminate.
Qed.

Lemma separator_at_lt s i : separator_at s i -> i < List.length s.
Proof.
  intros (c & Hc & _). apply nth_error_Some. congruence.
Qed.

Lemma search_single_token tok s :
  search_list true (single_token_regex tok) s = true <->
  exists j, bounded_before s j /\ token_at tok s j /\
            bounded_after s (j + List.length tok).
Proof.
  rewrite search_list_iff. unfold single_token_regex. split.
  - intros (i & e & Hi & He). cbn [ends] in He.
    apply in_flat_map in He as (j & Hj & He).
    apply ends_lits in He as [Ht He]. cbn [ends] in He.
    apply in_flat_map in He as (k & Hk & _).
    exists j. split; [|split; auto].
    + apply ends_edge in Hj as [[-> Hb]|[-> Hs]].
      * now left.
      * right. now exists i.
    + apply ends_edge in Hk as [[_ Hb]|[_ Hs]]; [now left|now right].
  - intros (j & Hb & Ht & Ha).
    assert (Hstart : exists i, i <= List.length s /\ In j (ends true edge s i)).
    { destruct Hb as [Hb|(p & -> & Hs)].
      - exists j. split; [now apply boundary_at_le|].
        apply ends_edge. now left.
      - exists p. split; [apply separator_at_lt in Hs; lia|].
        apply ends_edge. now right. }
    assert (Hend : exists e, In e (ends true edge s (j + List.length tok))).
    { destruct Ha as [Ha|Ha].
      - exists (j + List.length tok). apply ends_edge. now left.
      - exists (S (j + List.length tok)). apply ends_edge. now right. }
    destruct Hstart as (i & Hi & Hj). destruct Hend as (e & He).
    exists i, e. split; auto. cbn [ends].
    apply in_flat_map. exists j. split; auto.
    apply ends_lits. split; auto. cbn [ends].
    apply in_flat_map. exists e. split; auto. now left.
Qed.

(** ** What the multi-token pattern matches *)










(** ** Compiling the multi-token pattern *)


Lemma plain_no_space t : plain t -> no_space t.
Proof.
  apply Forall_impl. intros c.
  destruct c as [b0 b1 b2 b3 b4 b5 b6 b7].
  destruct b0, b1, b2, b3, b4, b5, b6, b7; intros H;
    try discriminate H; reflexivity.
Qed.

Lemma plain_not_space t :
  plain t -> Forall (fun c => is_whitespace c = false) t.
Proof.
  apply Forall_impl. intros c.
  destruct c as [b0 b1 b2 b3 b4 b5 b6 b7].
  destruct b0, b1, b2, b3, b4, b5, b6, b7; intros H;
    try discriminate H; reflexivity.
Qed.


Lemma string_of_list_ascii_app a b :
  string_of_list_ascii (a ++ b) =
  (string_of_list_ascii a ++ string_of_list_ascii b)%string.
Proof. induction a as [|c a IH]; simpl; [reflexivity|now rewrite IH]. Qed.




(** ** From the query text to the predicate *)

Lemma lstrip_starts_nonspace l : starts_nonspace l -> lstrip l = l.
Proof. destruct l as [|c l]; simpl; [tauto|]. now intros ->. Qed.


Lemma starts_nonspace_plain t : t <> [] -> plain t -> starts_nonspace t.
Proof.
  intros Hne H. apply plain_not_space in H.
  destruct t as [|c t]; [contradiction|]. now inversion H.
Qed.

Lemma plain_rev t : plain t -> plain (rev t).
Proof. apply Forall_rev. Qed.

Lemma strip_id l :
  starts_nonspace l -> starts_nonspace (rev l) ->
  strip (string_of_list_ascii l) = string_of_list_ascii l.
Proof.
  intros H1 H2. unfold strip.
  rewrite list_ascii_of_string_of_list_ascii.
  rewrite (lstrip_starts_nonspace _ H1), (lstrip_starts_nonspace _ H2).
  now rewrite rev_involutive.
Qed.

Lemma has_space_In s :
  has_space s = true <-> In " "%char (list_ascii_of_string s).
Proof.
  induction s as [|c s IH]; simpl.
  - split; [discriminate|tauto].
  - rewrite orb_true_iff, IH, Ascii.eqb_eq. tauto.
Qed.


Lemma raw_pattern_single tok :
  tok <> ""%string -> plain (list_ascii_of_string tok) ->
  strip tok = tok /\
  raw_pattern tok = ("(\b|[\.\+\-_])" ++ tok ++ "(\b|[\.\+\-_])")%string.
Proof.
  intros Hne Hp.
  assert (Hl : list_ascii_of_string tok <> []).
  { destruct tok; [contradiction|discriminate]. }
  split.
  - rewrite <- (string_of_list_ascii_of_string tok). apply strip_id.
    + now apply starts_nonspace_plain.
    + apply starts_nonspace_plain; [|now apply plain_rev].
      intros E. apply (f_equal (@rev ascii)) in E.
      rewrite rev_involutive in E. contradiction.
  - unfold raw_pattern.
    destruct (String.eqb tok "") eqn:E; [apply String.eqb_eq in E; contradiction|].
    destruct (has_space tok) eqn:Es; [|reflexivity].
    apply has_space_In in Es. apply plain_no_space in Hp.
    unfold no_space in Hp. rewrite Forall_forall in Hp.
    apply Hp in Es. discriminate.
Qed.




End QueryProofs.

(** ** Facts about the store primitives *)

Module StoreFacts.

Import Catalog StoreAux.
Local Open Scope Z_scope.

Lemma bind_ok {A B} (m : M A) (k : A -> M B) w a w' :
  m w = (Ok a, w') -> bind m k w = k a w'.
Proof. unfold bind. now intros ->. Qed.

Lemma bind_raise {A B} (m : M A) (k : A -> M B) w e w' :
  m w = (Raise e, w') -> bind m k w = (Raise e, w').
Proof. unfold bind. now intros ->. Qed.

Lemma try_ok {A} (m : M A) h w a w' :
  m w = (Ok a, w') -> try_except m h w = (Ok a, w').
Proof. unfold try_except. now intros ->. Qed.

Lemma try_raise {A} (m : M A) h w e w' :
  m w = (Raise e, w') ->
  try_except m h w =
  match h e with
  | Some handler => handler w'
  | None => (Raise e, w')
  end.
Proof. unfold try_except. now intros ->. Qed.

Lemma get_collection_by_name_first name :
  fst (get_collection_by_name name) = FirstDb.
Proof.
  unfold get_collection_by_name.
  repeat match goal with |- context [if ?b then _ else _] => destruct b end;
    reflexivity.
Qed.

Lemma second_lookup_second name c :
  second_lookup name = Some c -> fst c = SecondDb.
Proof.
  unfold second_lookup.
  repeat match goal with |- context [if ?b then _ else _] => destruct b end;
    intros H; inversion H; reflexivity.
Qed.

Lemma bound_first w name : bound w (get_collection_by_name name).
Proof.
  intros H. rewrite get_collection_by_name_first in H. discriminate.
Qed.

Lemma get_coll_bound w c :
  bound w c -> get_coll w c = Some (coll_at (first w) (second w) c).
Proof.
  unfold bound, get_coll, coll_at. destruct c as [[|] slot]; cbn [fst snd].
  - reflexivity.
  - intros H. destruct (second w) as [d|]; [reflexivity|now destruct H].
Qed.

Lemma find_bound c f w :
  bound w c ->
  find c f w =
  (Ok (filter (matches_filter f) (stored (first w) (second w) c)),
   record (EvFind c f) w).
Proof.
  intros H. unfold find, with_coll.
  rewrite (get_coll_bound (record (EvFind c f) w) c H). reflexivity.
Qed.

Lemma find_one_bound c key w :
  bound w c ->
  find_one c key w =
  (Ok (List.find (fun d => String.eqb (_id d) key)
                 (stored (first w) (second w) c)),
   record (EvFindOne c key) w).
Proof.
  intros H. unfold find_one, with_coll.
  rewrite (get_coll_bound (record (EvFindOne c key) w) c H). reflexivity.
Qed.

Lemma datetime_now_tick w : datetime_now w = (Ok (clock w), tick w).
Proof. reflexivity. Qed.

Lemma insert_one_bound c doc w :
  bound w c ->
  insert_one c doc w =
  (let w0 := record (EvInsertOne c doc) w in
   if full (first w) (second w) c then (Raise OperationFailure, w0)
   else if has_id (_id doc) (stored (first w) (second w) c)
   then (Raise DuplicateKeyError, w0)
   else (Ok tt,
         set_coll w0 c
           (mkCollection (stored (first w) (second w) c ++ [doc])
                         (full (first w) (second w) c)))).
Proof.
  intros H. unfold insert_one, with_coll.
  rewrite (get_coll_bound (record (EvInsertOne c doc) w) c H).
  reflexivity.
Qed.

Lemma delete_one_bound c key w :
  bound w c ->
  delete_one c key w =
  (Ok tt,
   set_coll (record (EvDeleteOne c key) w) c
     (mkCollection (remove_first key (stored (first w) (second w) c))
                   (full (first w) (second w) c))).
Proof.
  intros H. unfold delete_one, with_coll.
  rewrite (get_coll_bound (record (EvDeleteOne c key) w) c H).
  reflexivity.
Qed.

Lemma slot_get_set d s s' col :
  slot_get (slot_set d s col) s' = if slot_eqb s s' then col else slot_get d s'.
Proof. destruct s, s'; reflexivity. Qed.

Lemma slot_eqb_eq a b : slot_eqb a b = true <-> a = b.
Proof. destruct a, b; simpl; split; congruence. Qed.

(** Writing a collection of the first database. *)
Lemma coll_at_set_first w slot col c :
  coll_at (first (set_coll w (FirstDb, slot) col))
          (second (set_coll w (FirstDb, slot) col)) c =
  match c with
  | (FirstDb, slot') =>
      if slot_eqb slot slot' then col
      else coll_at (first w) (second w) c
  | (SecondDb, _) => coll_at (first w) (second w) c
  end.
Proof.
  destruct c as [[|] slot']; unfold coll_at, set_coll; cbn [fst snd first second].
  - apply slot_get_set.
  - reflexivity.
Qed.

(** Writing a collection of the second database. *)
Lemma coll_at_set_second w slot col c :
  second w <> None ->
  coll_at (first (set_coll w (SecondDb, slot) col))
          (second (set_coll w (SecondDb, slot) col)) c =
  match c with
  | (FirstDb, _) => coll_at (first w) (second w) c
  | (SecondDb, slot') =>
      if slot_eqb slot slot' then col
      else coll_at (first w) (second w) c
  end.
Proof.
  intros H. destruct c as [[|] slot']; unfold coll_at, set_coll;
    cbn [fst snd first second].
  - reflexivity.
  - destruct (second w) as [d|]; [|now destruct H]. simpl.
    apply slot_get_set.
Qed.

Lemma second_set_coll w c col :
  (second (set_coll w c col) = None) <-> (second w = None).
Proof.
  destruct c as [[|] slot]; unfold set_coll; cbn [fst snd second].
  - tauto.
  - destruct (second w); simpl; split; congruence.
Qed.

Lemma first_coll name :
  get_collection_by_name name = (FirstDb, snd (get_collection_by_name name)).
Proof.
  unfold get_collection_by_name.
  repeat match goal with |- context [if ?b then _ else _] => destruct b end;
    reflexivity.
Qed.

Lemma slot_eqb_refl s : slot_eqb s s = true.
Proof. now destruct s. Qed.

End StoreFacts.

(** ** Search: merging, language filter, pagination *)

Module SearchProofs.

Import Catalog StoreAux StoreFacts SearchAux.
Local Open Scope string_scope.
Local Open Scope list_scope.
Local Open Scope Z_scope.

Lemma len_app {A} (a b : list A) : len (a ++ b) = len a + len b.
Proof. unfold len. rewrite length_app. lia. Qed.

Lemma search_named_spec f name w :
  tests_named (second w) name = false ->
  exists w', same_data w' w /\
    search_named f name w =
    (Ok (partition_hits (first w) (second w) f name), w').
Proof.
  intros Ht. unfold tests_named in Ht.
  unfold search_named, partition_hits.
  rewrite (bind_ok _ _ _ _ _ (find_bound _ f w (bound_first w name))).
  unfold second_configured at 1. unfold bind at 1. cbn [second record].
  destruct (second w) as [d|] eqn:E2.
  - destruct (second_lookup name) as [c|] eqn:El; [discriminate Ht|].
    unfold bind, ret. rewrite app_nil_r.
    eexists. split; [|reflexivity]. split; simpl; auto.
  - unfold bind, ret. rewrite app_nil_r.
    eexists. split; [|reflexivity]. split; simpl; auto.
Qed.

(** With a second database, a search under one of the three names
    stops at [if second_col:]. *)
Lemma search_named_raises f name w :
  tests_named (second w) name = true ->
  exists w', same_data w' w /\
    search_named f name w = (Raise NotImplementedError, w').
Proof.
  intros Ht. unfold tests_named in Ht.
  unfold search_named.
  rewrite (bind_ok _ _ _ _ _ (find_bound _ f w (bound_first w name))).
  unfold second_configured at 1. unfold bind at 1. cbn [second record].
  destruct (second w) as [d|] eqn:E2; [|discriminate Ht].
  destruct (second_lookup name) as [c|] eqn:El; [|discriminate Ht].
  unfold bind, collection_bool, raise.
  eexists. split; [|reflexivity]. split; simpl; auto.
Qed.

Lemma dict_get_set k v d : dict_get k (dict_set k v d) = v.
Proof.
  unfold dict_get. induction d as [|[k' v'] d IH]; simpl.
  - now rewrite String.eqb_refl.
  - destruct (String.eqb k' k) eqn:E; simpl.
    + now rewrite String.eqb_refl.
    + now rewrite E.
Qed.

Lemma dict_set_set k v v' d : dict_set k v' (dict_set k v d) = dict_set k v' d.
Proof.
  induction d as [|[k' u] d IH]; simpl.
  - now rewrite String.eqb_refl.
  - destruct (String.eqb k' k) eqn:E; simpl.
    + now rewrite String.eqb_refl.
    + now rewrite E, IH.
Qed.

Lemma search_all_cons f name rest results cnts w :
  second_lookup name <> None ->
  exists w', same_data w' w /\
    search_all f (name :: rest) results cnts w =
    search_all f rest (results ++ partition_hits (first w) (second w) f name)
               (step_counts (first w) (second w) f name cnts) w'.
Proof.
  intros Hl. cbn [search_all]. unfold step_counts, partition_hits.
  rewrite (bind_ok _ _ _ _ _ (find_bound _ f w (bound_first w name))).
  unfold second_configured at 1. unfold bind at 1. cbn [second record].
  destruct (second_lookup name) as [c|] eqn:El; [|contradiction].
  destruct (second w) as [d|] eqn:E2.
  - assert (Hb : bound (record (EvFind (get_collection_by_name name) f) w) c).
    { intros _. cbn [second record]. rewrite E2. discriminate. }
    unfold bind at 1. unfold bind at 1. rewrite (find_bound _ f _ Hb).
    cbn [ret first second record fst snd]. rewrite E2.
    rewrite dict_get_set, dict_set_set, <- len_app, app_assoc.
    eexists. split; [|reflexivity]. split; simpl; auto.
  - unfold bind at 1. cbn [ret fst snd]. rewrite !app_nil_r.
    eexists. split; [|reflexivity]. split; simpl; auto.
Qed.

Lemma gather_spec USE query collection_name w :
  tests_second_collection (second w) collection_name = false ->
  exists w', same_data w' w /\
    gather USE query collection_name w =
    (Ok (merged_results USE (first w) (second w) query collection_name,
         partition_counts USE (first w) (second w) query collection_name),
     w').
Proof.
  unfold tests_second_collection, gather, merged_results, partition_counts.
  destruct (truthy collection_name) as [name|].
  - intros Ht.
    destruct (search_named_spec (search_filter USE query) name w Ht)
      as (w' & Hs & E).
    exists w'. split; auto. now rewrite (bind_ok _ _ _ _ _ E).
  - intros _. set (f := search_filter USE query).
    destruct (search_all_cons f "primary" ["clouds"; "archive"] [] [] w)
      as (w1 & [H1a H1b] & E1); [discriminate|].
    destruct (search_all_cons f "clouds" ["archive"]
                ([] ++ partition_hits (first w) (second w) f "primary")
                (step_counts (first w) (second w) f "primary" []) w1)
      as (w2 & [H2a H2b] & E2); [discriminate|].
    destruct (search_all_cons f "archive" []
                (([] ++ partition_hits (first w) (second w) f "primary") ++
                 partition_hits (first w1) (second w1) f "clouds")
                (step_counts (first w1) (second w1) f "clouds"
                   (step_counts (first w) (second w) f "primary" [])) w2)
      as (w3 & [H3a H3b] & E3); [discriminate|].
    exists w3. split; [split; congruence|].
    unfold bind. rewrite E1, E2, E3. cbn [search_all ret fst snd].
    rewrite H2a, H2b, H1a, H1b. cbn [app]. rewrite <- app_assoc.
    reflexivity.
Qed.

Lemma gather_raises USE query collection_name w :
  tests_second_collection (second w) collection_name = true ->
  exists w', same_data w' w /\
    gather USE query collection_name w = (Raise NotImplementedError, w').
Proof.
  unfold tests_second_collection, gather.
  destruct (truthy collection_name) as [name|]; [|discriminate].
  intros Ht.
  destruct (search_named_raises (search_filter USE query) name w Ht)
    as (w' & Hs & E).
  exists w'. split; auto. unfold bind. now rewrite E.
Qed.

Lemma page_window results lang max_results offset :
  0 <= offset -> 0 <= max_results ->
  page results lang max_results offset =
  (firstn (Z.to_nat max_results)
          (skipn (Z.to_nat offset) (language_filter lang results)),
   if offset + max_results >=? len (language_filter lang results)
   then None else Some (offset + max_results),
   len (language_filter lang results)).
Proof.
  intros Ho Hm. unfold page, language_filter, slice_to, slice_from.
  apply Z.leb_le in Ho. apply Z.leb_le in Hm. rewrite Ho, Hm.
  destruct (truthy lang); reflexivity.
Qed.

Lemma get_search_results_spec USE query collection_name max_results offset
      lang w :
  tests_second_collection (second w) collection_name = false ->
  0 <= offset -> 0 <= max_results ->
  exists w', same_data w' w /\
    get_search_results USE query collection_name max_results offset lang w =
    (let selected :=
       language_filter lang
         (merged_results USE (first w) (second w) query collection_name) in
     Ok (mkSearchResult
           (firstn (Z.to_nat max_results) (skipn (Z.to_nat offset) selected))
           (if offset + max_results >=? len selected
            then None else Some (offset + max_results))
           (len selected)
           (partition_counts USE (first w) (second w) query collection_name)),
     w').
Proof.
  intros Ht Ho Hm.
  destruct (gather_spec USE query collection_name w Ht) as (w' & Hs & E).
  exists w'. split; auto. unfold get_search_results.
  rewrite (bind_ok _ _ _ _ _ E). cbn [fst snd].
  rewrite (page_window _ _ _ _ Ho Hm). reflexivity.
Qed.

Lemma get_search_results_raises USE query collection_name max_results offset
      lang w :
  tests_second_collection (second w) collection_name = true ->
  exists w', same_data w' w /\
    get_search_results USE query collection_name max_results offset lang w =
    (Raise NotImplementedError, w').
Proof.
  intros Ht.
  destruct (gather_raises USE query collection_name w Ht) as (w' & Hs & E).
  exists w'. split; auto. unfold get_search_results, bind.
  now rewrite E.
Qed.

Lemma merged_same_data USE w' w query collection_name :
  same_data w' w ->
  merged_results USE (first w') (second w') query collection_name =
  merged_results USE (first w) (second w) query collection_name.
Proof. intros [-> ->]. reflexivity. Qed.

(** C5.  Pagination, and the searches that never reach it.  For a
    non-negative offset and limit, a search that does not ask a
    collection of the second database for its truth value returns a
    page: the total is the length of the whole merged (and
    language-filtered) list, the files are the window
    [offset, offset+limit) of that list, and the next offset is
    offset+limit unless that is at least the total, in which case the
    exhaustion marker is returned and nothing is raised.  With 7 results
    and limit 5, the first page holds 5 records with next offset 5, and
    the second page, asked for from there, holds the 2 remaining records
    with no next offset.  But a search of ['primary'], ['clouds'] or
    ['archive'] by name while a second database is configured returns no
    page at all: whatever the offset and limit, it raises
    [NotImplementedError] at [if second_col:], and leaves both databases
    as they were. *)
Theorem C5_pagination_window_and_exhaustion :
  (forall USE query collection_name lang max_results offset w,
      tests_second_collection (second w) collection_name = false ->
      0 <= offset -> 0 <= max_results ->
      let selected :=
        language_filter lang
          (merged_results USE (first w) (second w) query collection_name) in
      exists r w',
        get_search_results USE query collection_name max_results offset
                           lang w = (Ok r, w') /\
        total_results r = len selected /\
        files r =
          firstn (Z.to_nat max_results) (skipn (Z.to_nat offset) selected) /\
        next_offset r =
          (if offset + max_results >=? total_results r
           then None else Some (offset + max_results))) /\
  (forall USE query collection_name lang w,
      tests_second_collection (second w) collection_name = false ->
      let selected :=
        language_filter lang
          (merged_results USE (first w) (second w) query collection_name) in
      len selected = 7 ->
      exists r1 w1 r2 w2,
        get_search_results USE query collection_name 5 0 lang w =
          (Ok r1, w1) /\
        get_search_results USE query collection_name 5 5 lang w1 =
          (Ok r2, w2) /\
        total_results r1 = 7 /\ List.length (files r1) = 5%nat /\
        next_offset r1 = Some 5 /\
        total_results r2 = 7 /\ List.length (files r2) = 2%nat /\
        next_offset r2 = None /\
        files r1 ++ files r2 = selected) /\
  (forall USE query collection_name lang max_results offset w,
      tests_second_collection (second w) collection_name = true ->
      exists w',
        get_search_results USE query collection_name max_results offset
                           lang w = (Raise NotImplementedError, w') /\
        same_data w' w).
Proof.
  split; [|split].
  - intros USE query collection_name lang max_results offset w Ht Ho Hm
           selected.
    destruct (get_search_results_spec USE query collection_name max_results
                offset lang w Ht Ho Hm) as (w' & _ & E).
    eexists; exists w'. split; [exact E|]. cbn. auto.
  - intros USE query collection_name lang w Ht selected Hlen.
    destruct (get_search_results_spec USE query collection_name 5 0 lang w Ht)
      as (w1 & Hs1 & E1); try lia.
    assert (Ht1 : tests_second_collection (second w1) collection_name =
                  false).
    { destruct Hs1 as [_ ->]. exact Ht. }
    destruct (get_search_results_spec USE query collection_name 5 5 lang w1
                Ht1)
      as (w2 & Hs2 & E2); try lia.
    rewrite (merged_same_data _ _ _ _ _ Hs1) in E2.
    fold selected in E1, E2. cbv zeta in E1, E2.
    eexists; exists w1; eexists; exists w2.
    split; [exact E1|]. split; [exact E2|].
    cbn [total_results files next_offset]. rewrite Hlen.
    assert (Hl : List.length selected = 7%nat) by (unfold len in Hlen; lia).
    change (Z.to_nat 5) with 5%nat. change (Z.to_nat 0) with 0%nat.
    change (skipn 0 selected) with selected.
    rewrite !length_firstn, length_skipn, Hl.
    repeat split; try reflexivity.
    rewrite (firstn_all2 (skipn 5 selected))
      by (rewrite length_skipn, Hl; simpl; lia).
    apply firstn_skipn.
  - intros USE query collection_name lang max_results offset w Ht.
    destruct (get_search_results_raises USE query collection_name max_results
                offset lang w Ht) as (w' & Hs & E).
    exists w'. split; [exact E|exact Hs].
Qed.

Lemma C5_pagination_witness :
  (exists r w',
      get_search_results false "alpha" (Some "primary") 5 0 None seven_world =
        (Ok r, w') /\
      total_results r =
        len (language_filter None
               (merged_results false (first seven_world) (second seven_world)
                               "alpha" (Some "primary"))) /\
      files r =
        firstn (Z.to_nat 5)
          (skipn (Z.to_nat 0)
             (language_filter None
                (merged_results false (first seven_world)
                   (second seven_world) "alpha" (Some "primary")))) /\
      next_offset r =
        (if 0 + 5 >=? total_results r then None else Some (0 + 5))) /\
  (exists r1 w1 r2 w2,
      get_search_results false "alpha" None 5 0 None
        seven_world_with_second = (Ok r1, w1) /\
      get_search_results false "alpha" None 5 5 None w1 = (Ok r2, w2) /\
      total_results r1 = 7 /\ List.length (files r1) = 5%nat /\
      next_offset r1 = Some 5 /\
      total_results r2 = 7 /\ List.length (files r2) = 2%nat /\
      next_offset r2 = None /\
      files r1 ++ files r2 =
        language_filter None
          (merged_results false (first seven_world_with_second)
             (second seven_world_with_second) "alpha" None)) /\
  (exists w',
      get_search_results false "alpha" (Some "primary") 5 0 None
        seven_world_with_second = (Raise NotImplementedError, w') /\
      same_data w' seven_world_with_second).
Proof.
  split; [|split].
  - apply (proj1 C5_pagination_window_and_exhaustion
             false "alpha" (Some "primary") None 5 0 seven_world);
      [reflexivity|lia|lia].
  - apply (proj1 (proj2 C5_pagination_window_and_exhaustion)
             false "alpha" None None seven_world_with_second).
    + reflexivity.
    + vm_compute. reflexivity.
  - apply (proj2 (proj2 C5_pagination_window_and_exhaustion)
             false "alpha" (Some "primary") None 5 0 seven_world_with_second).
    reflexivity.
Defined.

(** ** The language filter *)

Lemma starts_with_In p : forall s c,
  starts_with p s = true -> In c p -> In c s.
Proof.
  induction p as [|a p IH]; intros [|b s] c H Hin; simpl in *;
    try contradiction; try discriminate.
  apply andb_true_iff in H as [Hab Hp]. apply Ascii.eqb_eq in Hab. subst b.
  destruct Hin as [->|Hin]; [now left|].
  right. eapply IH; eauto.
Qed.

Lemma contains_In p s c : contains p s = true -> In c p -> In c s.
Proof.
  intros H Hin. induction s as [|b s IH].
  - simpl in H. rewrite orb_false_r in H. eapply starts_with_In; eauto.
  - cbn [contains] in H. apply orb_true_iff in H as [H|H].
    + eapply starts_with_In; eauto.
    + right. auto.
Qed.

Lemma to_lower_not_upper c : Regex.is_upper (Regex.to_lower c) = false.
Proof.
  destruct c as [b0 b1 b2 b3 b4 b5 b6 b7].
  destruct b0, b1, b2, b3, b4, b5, b6, b7; reflexivity.
Qed.

Lemma lang_in_name_upper lang file :
  has_upper lang -> lang_in_name lang file = false.
Proof.
  intros (c & Hin & Hup). unfold lang_in_name.
  destruct (contains _ _) eqn:E; [|reflexivity].
  apply (contains_In _ _ c E) in Hin. unfold lower in Hin.
  apply in_map_iff in Hin as (d & <- & _).
  rewrite to_lower_not_upper in Hup. discriminate.
Qed.

Lemma filter_none {A} (p : A -> bool) l :
  (forall x, p x = false) -> filter p l = [].
Proof.
  intros H. induction l as [|a l IH]; simpl; [reflexivity|].
  now rewrite H.
Qed.

(** C6.  What the code does with a language token: the name is
    lower-cased, the token is not.  A token with an upper-case letter
    therefore selects no record at all, whatever the names are; searching
    "movie" with the token "Hindi" returns nothing and total 0 although
    the stored name "Movie Hindi 2024" contains the token when letter
    case is ignored, while the token "hindi" returns that record. *)
Theorem C6_language_token_case_is_kept :
  (forall lang results max_results offset,
      has_upper lang ->
      exists next, page results (Some lang) max_results offset = ([], next, 0)) /\
  contains (lower "Hindi") (lower "Movie Hindi 2024") = true /\
  fst (get_search_results false "movie" None 10 0 (Some "Hindi") hindi_world) =
    Ok (mkSearchResult [] None 0
          (Some [("primary", 2); ("clouds", 0); ("archive", 0)])) /\
  (exists r,
      fst (get_search_results false "movie" None 10 0 (Some "hindi")
             hindi_world) = Ok r /\
      map _id (files r) = ["k1"] /\ total_results r = 1).
Proof.
  split; [|split; [|split]].
  - intros lang results max_results offset Hup.
    assert (Ht : truthy (Some lang) = Some lang).
    { destruct Hup as (c & Hin & _). destruct lang; [destruct Hin|reflexivity]. }
    unfold page. rewrite Ht.
    rewrite (filter_none _ _ (fun f => lang_in_name_upper lang f Hup)).
    eexists. unfold slice_to, slice_from.
    destruct (0 <=? offset), (0 <=? max_results);
      rewrite ?skipn_nil, ?firstn_nil; reflexivity.
  - vm_compute. reflexivity.
  - vm_compute. reflexivity.
  - eexists. split; [vm_compute; reflexivity|]. split; reflexivity.
Qed.

End SearchProofs.

(** ** [save_file]: duplicates and the overflow database *)

Module SaveProofs.

Import Catalog StoreAux StoreFacts SaveAux.
Local Open Scope string_scope.
Local Open Scope list_scope.
Local Open Scope Z_scope.

Section Save.

Variable FileId_decode : string -> option Codec.FileId.

(** [save_file], one store decision at a time. *)
Lemma save_file_cases media collection_name w file_id :
  Codec.unpack_new_file_id FileId_decode (media_file_id media) = Ok file_id ->
  save_file FileId_decode media collection_name w =
  (let doc := document_of file_id media collection_name (clock w) in
   let t := get_collection_by_name collection_name in
   let s := second_lookup_default collection_name in
   let w1 := record (EvInsertOne t doc) (tick w) in
   let w2 := record (EvInsertOne s doc) w1 in
   let d1 := first w in
   let d2 := second w in
   if full d1 d2 t then
     match d2 with
     | None => (Ok (err, collection_name), w1)
     | Some _ =>
         if full d1 d2 s then (Raise OperationFailure, w2)
         else if has_id file_id (stored d1 d2 s)
         then (Ok (dup, second_name collection_name), w2)
         else (Ok (suc, second_name collection_name),
               set_coll w2 s (mkCollection (stored d1 d2 s ++ [doc])
                                           (full d1 d2 s)))
     end
   else if has_id file_id (stored d1 d2 t)
   then (Ok (dup, collection_name), w1)
   else (Ok (suc, collection_name),
         set_coll w1 t (mkCollection (stored d1 d2 t ++ [doc])
                                     (full d1 d2 t)))).
Proof.
  intros U. unfold save_file. rewrite U.
  unfold lift at 1. unfold bind at 1.
  unfold bind at 1. rewrite datetime_now_tick.
  fold (document_of file_id media collection_name (clock w)).
  set (doc := document_of file_id media collection_name (clock w)).
  cbv zeta.
  set (t := get_collection_by_name collection_name).
  set (s := second_lookup_default collection_name).
  unfold try_except at 1. unfold bind at 1.
  rewrite (insert_one_bound t doc (tick w) (bound_first _ _)).
  cbv zeta. cbn [first second tick].
  change (_id doc) with file_id.
  destruct (full (first w) (second w) t) eqn:Ft.
  - unfold bind at 1. unfold second_configured. cbn [second record tick].
    destruct (second w) as [d2|] eqn:E2; [|reflexivity].
    unfold try_except, bind.
    assert (Hb : bound (record (EvInsertOne t doc) (tick w)) s).
    { intros _. cbn [second record tick]. rewrite E2. discriminate. }
    rewrite (insert_one_bound s doc _ Hb).
    cbv zeta. cbn [first second record tick]. rewrite E2.
    change (_id doc) with file_id.
    destruct (full (first w) (Some d2) s); [reflexivity|].
    destruct (has_id file_id (stored (first w) (Some d2) s)); reflexivity.
  - destruct (has_id file_id (stored (first w) (second w) t)); reflexivity.
Qed.

Lemma save_file_needs_key media collection_name w r w' :
  save_file FileId_decode media collection_name w = (Ok r, w') ->
  exists file_id,
    Codec.unpack_new_file_id FileId_decode (media_file_id media) = Ok file_id.
Proof.
  unfold save_file.
  destruct (Codec.unpack_new_file_id _ _) as [file_id|e]; [eauto|].
  unfold lift, bind. discriminate.
Qed.

Lemma second_coll name :
  second_lookup_default name =
  (SecondDb, snd (second_lookup_default name)).
Proof.
  unfold second_lookup_default, second_lookup.
  repeat match goal with |- context [if ?b then _ else _] => destruct b end;
    reflexivity.
Qed.

Lemma has_id_snoc doc l : has_id (_id doc) (l ++ [doc]) = true.
Proof.
  unfold has_id. rewrite existsb_app. simpl.
  now rewrite String.eqb_refl, orb_true_r.
Qed.

Lemma len_snoc {A} (l : list A) a : len (l ++ [a]) = len l + 1.
Proof. unfold len. rewrite length_app. simpl. lia. Qed.

End Save.

Lemma save_twice :
  forall (FileId_decode : string -> option Codec.FileId) (media : Media)
         (collection_name place : string) (w w1 : World),
    save_file FileId_decode media collection_name w = (Ok (suc, place), w1) ->
    exists w2,
      save_file FileId_decode media collection_name w1 =
        (Ok (dup, place), w2) /\
      first w2 = first w1 /\ second w2 = second w1 /\
      partition_count (first w1) (second w1) collection_name =
        partition_count (first w) (second w) collection_name + 1.
Proof.
  intros dec media name place w w1 H.
  destruct (save_file_needs_key dec _ _ _ _ _ H) as (fid & U).
  rewrite (save_file_cases dec media name w fid U) in H. cbv zeta in H.
  rewrite (save_file_cases dec media name w1 fid U). cbv zeta.
  set (doc := document_of fid media name (clock w)) in *.
  set (doc' := document_of fid media name (clock w1)).
  unfold partition_count.
  rewrite (first_coll name), (second_coll name) in *.
  set (ts := snd (get_collection_by_name name)) in *.
  set (ss := snd (second_lookup_default name)) in *.
  destruct (full (first w) (second w) (FirstDb, ts)) eqn:Ft.
  - destruct (second w) as [d2|] eqn:E2; [|discriminate].
    destruct (full (first w) (Some d2) (SecondDb, ss)) eqn:Fs; [discriminate|].
    destruct (has_id fid (stored (first w) (Some d2) (SecondDb, ss))) eqn:Hs;
      [discriminate|].
    injection H as <- <-.
    set (w0 := record (EvInsertOne (SecondDb, ss) doc)
                 (record (EvInsertOne (FirstDb, ts) doc) (tick w))) in *.
    assert (N0 : second w0 <> None) by (cbn; rewrite E2; discriminate).
    unfold full, stored in *.
    rewrite !(coll_at_set_second w0 ss _ _ N0).
    rewrite slot_eqb_refl. cbn [docs quota_exceeded].
    change (first w0) with (first w). change (second w0) with (second w).
    rewrite E2, Ft.
    destruct (second (set_coll w0 (SecondDb, ss) _)) as [d3|] eqn:E3.
    + change fid with (_id doc) at 1. rewrite has_id_snoc.
      eexists. split; [reflexivity|]. cbn [first second record tick].
      rewrite ?E3. split; [reflexivity|]. split; [reflexivity|].
      rewrite len_snoc. lia.
    + apply second_set_coll in E3. contradiction.
  - destruct (has_id fid (stored (first w) (second w) (FirstDb, ts))) eqn:Hs;
      [discriminate|].
    injection H as <- <-.
    set (w0 := record (EvInsertOne (FirstDb, ts) doc) (tick w)) in *.
    unfold full, stored in *.
    rewrite !(coll_at_set_first w0 ts).
    rewrite slot_eqb_refl. cbn [docs quota_exceeded].
    change (first w0) with (first w). change (second w0) with (second w).
    rewrite ?Ft.
    change fid with (_id doc) at 1. rewrite has_id_snoc.
    eexists. split; [reflexivity|]. cbn [first second record tick].
    split; [reflexivity|]. split; [reflexivity|].
    rewrite len_snoc. lia.
Qed.

(** C2.  When [save_file] stores a record ([suc]), saving the same media
    again into the same partition reports [dup] for the same store,
    leaves every collection exactly as the first save left it, and the
    partition holds exactly one record more than before the first
    save. *)
Theorem C2_second_insert_is_duplicate :
  forall (FileId_decode : string -> option Codec.FileId) (media : Media)
         (collection_name place : string) (w w1 : World),
    save_file FileId_decode media collection_name w = (Ok (suc, place), w1) ->
    exists w2,
      save_file FileId_decode media collection_name w1 =
        (Ok (dup, place), w2) /\
      first w2 = first w1 /\ second w2 = second w1 /\
      partition_count (first w1) (second w1) collection_name =
        partition_count (first w) (second w) collection_name + 1 /\
      partition_count (first w2) (second w2) collection_name =
        partition_count (first w) (second w) collection_name + 1.
Proof.
  intros dec media name place w w1 H.
  destruct (save_twice dec media name place w w1 H) as (w2 & E & H1 & H2 & Hc).
  exists w2. repeat split; auto. now rewrite H1, H2.
Qed.

Lemma C2_second_insert_witness :
  exists w2,
    save_file media_decode sample_media "primary"
      (snd (save_file media_decode sample_media "primary" empty_world)) =
      (Ok (dup, "primary"), w2) /\
    first w2 =
      first (snd (save_file media_decode sample_media "primary" empty_world)) /\
    second w2 =
      second (snd (save_file media_decode sample_media "primary" empty_world)) /\
    partition_count
      (first (snd (save_file media_decode sample_media "primary" empty_world)))
      (second (snd (save_file media_decode sample_media "primary" empty_world)))
      "primary" =
      partition_count (first empty_world) (second empty_world) "primary" + 1 /\
    partition_count (first w2) (second w2) "primary" =
      partition_count (first empty_world) (second empty_world) "primary" + 1.
Proof.
  apply (C2_second_insert_is_duplicate media_decode sample_media
           "primary" "primary" empty_world).
  vm_compute. reflexivity.
Defined.

(** C3.  What [save_file] does when the first database refuses the
    insert for capacity.  Without a second database it returns [err] and
    changes no collection.  With a second database it offers the same
    document to the partition's collection there and returns [suc] or
    [dup] from that insert.  But when the second database refuses the
    insert for capacity as well, nothing catches the failure: the call
    raises [OperationFailure] instead of returning an outcome. *)
Theorem C3_capacity_failure_paths :
  forall (FileId_decode : string -> option Codec.FileId) (media : Media)
         (collection_name file_id : string) (w : World),
    Codec.unpack_new_file_id FileId_decode (media_file_id media) =
      Ok file_id ->
    full (first w) (second w) (get_collection_by_name collection_name) =
      true ->
    let doc := document_of file_id media collection_name (clock w) in
    let t := get_collection_by_name collection_name in
    let s := second_lookup_default collection_name in
    exists r w',
      save_file FileId_decode media collection_name w = (r, w') /\
      match second w with
      | None =>
          r = Ok (err, collection_name) /\
          first w' = first w /\ second w' = second w /\
          log w' = log w ++ [EvInsertOne t doc]
      | Some _ =>
          log w' = log w ++ [EvInsertOne t doc; EvInsertOne s doc] /\
          first w' = first w /\
          if full (first w) (second w) s then
            r = Raise OperationFailure /\ second w' = second w
          else if has_id file_id (stored (first w) (second w) s) then
            r = Ok (dup, second_name collection_name) /\
            second w' = second w
          else
            r = Ok (suc, second_name collection_name) /\
            stored (first w') (second w') s =
              stored (first w) (second w) s ++ [doc]
      end.
Proof.
  intros dec media name fid w U Ft doc t s.
  rewrite (save_file_cases dec media name w fid U). cbv zeta.
  rewrite Ft. fold doc t s.
  destruct (second w) as [d2|] eqn:E2.
  - destruct (full (first w) (Some d2) s) eqn:Fs.
    + eexists; eexists. split; [reflexivity|].
      cbn [log first second record tick]. rewrite <- app_assoc. auto.
    + destruct (has_id fid (stored (first w) (Some d2) s)) eqn:Hs.
      * eexists; eexists. split; [reflexivity|].
        cbn [log first second record tick]. rewrite <- app_assoc. auto.
      * eexists; eexists. split; [reflexivity|].
        unfold s. rewrite (second_coll name).
        split; [cbn; now rewrite <- app_assoc|].
        split; [reflexivity|]. split; [reflexivity|].
        unfold stored. rewrite coll_at_set_second.
        -- now rewrite slot_eqb_refl.
        -- cbn. rewrite E2. discriminate.
  - eexists; eexists. split; [reflexivity|].
    cbn [log first second record tick]. auto.
Qed.

Lemma C3_capacity_failure_witness :
  exists r w',
    save_file media_decode sample_media "primary" both_full_world = (r, w') /\
    log w' =
      log both_full_world ++
      [EvInsertOne (get_collection_by_name "primary")
         (document_of "BQADBAAD___________LBPtxHwEAAhYE" sample_media
            "primary" (clock both_full_world));
       EvInsertOne (second_lookup_default "primary")
         (document_of "BQADBAAD___________LBPtxHwEAAhYE" sample_media
            "primary" (clock both_full_world))] /\
    first w' = first both_full_world /\
    r = Raise OperationFailure /\ second w' = second both_full_world.
Proof.
  apply (C3_capacity_failure_paths media_decode sample_media "primary"
           "BQADBAAD___________LBPtxHwEAAhYE" both_full_world).
  - vm_compute. reflexivity.
  - reflexivity.
Defined.

End SaveProofs.

(** ** Moving and copying between collections *)

Module ReorganizeProofs.

Import Catalog StoreAux StoreFacts ReorganizeAux.
Local Open Scope string_scope.
Local Open Scope list_scope.
Local Open Scope Z_scope.

Lemma find_by_id key l d :
  List.find (by_id key) l = Some d -> _id d = key /\ In d l.
Proof.
  intros H. apply find_some in H as [Hin E].
  apply String.eqb_eq in E. auto.
Qed.

Lemma has_id_find key l :
  has_id key l = true <-> exists d, List.find (by_id key) l = Some d.
Proof.
  unfold has_id. induction l as [|a l IH]; simpl.
  - split; [discriminate|]. intros [d H]. discriminate.
  - unfold by_id at 1. destruct (String.eqb (_id a) key); simpl.
    + split; eauto.
    + exact IH.
Qed.

Lemma has_id_false_find key l :
  has_id key l = false -> List.find (by_id key) l = None.
Proof.
  intros H. destruct (List.find (by_id key) l) as [d|] eqn:E; [|reflexivity].
  assert (has_id key l = true) by (apply has_id_find; eauto). congruence.
Qed.

Lemma log_set_coll w c col : log (set_coll w c col) = log w.
Proof. destruct c as [[|] slot]; reflexivity. Qed.

(** [move_file], one store decision at a time. *)
Lemma move_file_cases file_id from_collection to_collection w :
  move_file file_id from_collection to_collection w =
  (let f := get_collection_by_name from_collection in
   let t := get_collection_by_name to_collection in
   let d1 := first w in
   let d2 := second w in
   let w1 := record (EvFindOne f file_id) w in
   match List.find (by_id file_id) (stored d1 d2 f) with
   | None => (Ok (false, Text "File not found in source collection"), w1)
   | Some file =>
       let moved := set_moved to_collection (clock w) file in
       let w2 := record (EvInsertOne t moved) (tick w1) in
       if full d1 d2 t then (Ok (false, StrOf OperationFailure), w2)
       else if has_id (_id file) (stored d1 d2 t)
       then (Ok (false, StrOf DuplicateKeyError), w2)
       else
         let w3 :=
           set_coll w2 t (mkCollection (stored d1 d2 t ++ [moved])
                                       (full d1 d2 t)) in
         let w4 := record (EvDeleteOne f file_id) w3 in
         (Ok (true, Text "File moved successfully"),
          set_coll w4 f
            (mkCollection
               (remove_first file_id (stored (first w3) (second w3) f))
               (full (first w3) (second w3) f)))
   end).
Proof.
  unfold move_file. cbv zeta.
  set (f := get_collection_by_name from_collection).
  set (t := get_collection_by_name to_collection).
  unfold bind at 1.
  rewrite (find_one_bound f file_id w (bound_first _ _)).
  fold (by_id file_id).
  destruct (List.find (by_id file_id) (stored (first w) (second w) f))
    as [file|]; [|reflexivity].
  unfold bind at 1. rewrite datetime_now_tick. cbn [clock record].
  unfold try_except, bind at 1.
  rewrite (insert_one_bound t _ _ (bound_first _ _)).
  cbv zeta. cbn [first second record tick].
  change (_id (set_moved to_collection (clock w) file)) with (_id file).
  destruct (full (first w) (second w) t); [reflexivity|].
  destruct (has_id (_id file) (stored (first w) (second w) t)); [reflexivity|].
  unfold bind at 1.
  rewrite (delete_one_bound f file_id _ (bound_first _ _)).
  reflexivity.
Qed.

(** [copy_file], one store decision at a time. *)
Lemma copy_file_cases file_id from_collection to_collection w :
  copy_file file_id from_collection to_collection w =
  (let f := get_collection_by_name from_collection in
   let t := get_collection_by_name to_collection in
   let d1 := first w in
   let d2 := second w in
   let w1 := record (EvFindOne f file_id) w in
   match List.find (by_id file_id) (stored d1 d2 f) with
   | None => (Ok (false, None, Text "File not found"), w1)
   | Some file =>
       let file_copy := set_copied to_collection (clock w) file in
       let w2 := record (EvFindOne t file_id) (tick w1) in
       match List.find (by_id file_id) (stored d1 d2 t) with
       | Some _ =>
           (Ok (false, None,
                Text "File already exists in target collection"), w2)
       | None =>
           let w3 := record (EvInsertOne t file_copy) w2 in
           if full d1 d2 t then (Ok (false, None, StrOf OperationFailure), w3)
           else if has_id (_id file) (stored d1 d2 t)
           then (Ok (false, None, StrOf DuplicateKeyError), w3)
           else
             (Ok (true, Some file_id, Text "File copied successfully"),
              set_coll w3 t (mkCollection (stored d1 d2 t ++ [file_copy])
                                          (full d1 d2 t)))
       end
   end).
Proof.
  unfold copy_file. cbv zeta.
  set (f := get_collection_by_name from_collection).
  set (t := get_collection_by_name to_collection).
  unfold bind at 1.
  rewrite (find_one_bound f file_id w (bound_first _ _)).
  fold (by_id file_id).
  destruct (List.find (by_id file_id) (stored (first w) (second w) f))
    as [file|]; [|reflexivity].
  unfold bind at 1. rewrite datetime_now_tick. cbn [clock record].
  unfold try_except, bind at 1.
  rewrite (find_one_bound t file_id _ (bound_first _ _)).
  fold (by_id file_id). cbn [first second record tick].
  destruct (List.find (by_id file_id) (stored (first w) (second w) t));
    [reflexivity|].
  unfold bind at 1.
  rewrite (insert_one_bound t _ _ (bound_first _ _)).
  cbv zeta. cbn [first second record tick].
  change (_id (set_copied to_collection (clock w) file)) with (_id file).
  destruct (full (first w) (second w) t); [reflexivity|].
  destruct (has_id (_id file) (stored (first w) (second w) t)); reflexivity.
Qed.

Lemma find_app {A} (p : A -> bool) a b :
  List.find p (a ++ b) =
  match List.find p a with
  | Some x => Some x
  | None => List.find p b
  end.
Proof.
  induction a as [|x a IH]; simpl; [reflexivity|].
  destruct (p x); [reflexivity|exact IH].
Qed.

Lemma first_hit_scan cols key : forall w,
  Forall (bound w) cols ->
  exists w', first w' = first w /\ second w' = second w /\
    first_hit cols key w = (Ok (scan (first w) (second w) cols key), w').
Proof.
  induction cols as [|c cols IH]; intros w Hb.
  - exists w. auto.
  - inversion Hb as [|? ? Hc Hrest]; subst.
    cbn [first_hit scan]. unfold bind at 1.
    rewrite (find_one_bound c key w Hc). fold (by_id key).
    destruct (List.find (by_id key) (stored (first w) (second w) c)) as [d|].
    + eexists. split; [|split; [|reflexivity]]; reflexivity.
    + destruct (IH (record (EvFindOne c key) w)) as (w' & H1 & H2 & E).
      { eapply Forall_impl; [|exact Hrest]. intros a Ha. exact Ha. }
      exists w'. auto.
Qed.

Lemma get_file_details_first key w d :
  scan (first w) (second w)
       [primary_collection; clouds_collection; archive_collection] key =
    Some d ->
  fst (get_file_details key w) = Ok (Some d).
Proof.
  intros H. unfold get_file_details.
  destruct (first_hit_scan
              [primary_collection; clouds_collection; archive_collection]
              key w) as (w' & _ & _ & E).
  { repeat constructor; intros Hc; discriminate Hc. }
  unfold bind. rewrite E, H. reflexivity.
Qed.

(** What [delete_one] leaves of a collection that holds the key: the
    records before the first holder of the key, then those after it. *)
Lemma remove_first_split key l file :
  List.find (by_id key) l = Some file ->
  exists before after,
    l = before ++ file :: after /\ has_id key before = false /\
    remove_first key l = before ++ after.
Proof.
  induction l as [|a l IH]; simpl; [discriminate|].
  unfold by_id at 1. destruct (String.eqb (_id a) key) eqn:E.
  - intros [= ->]. exists [], l. auto.
  - intros H. destruct (IH H) as (b & c & -> & Hb & Hr).
    exists (a :: b), c. split; [reflexivity|]. split.
    + unfold has_id in *. simpl. now rewrite E.
    + simpl. now rewrite Hr.
Qed.

(** Where keys are unique, taking a record out takes its key out. *)
Lemma unique_key_is_gone before file after :
  NoDup (map _id (before ++ file :: after)) ->
  has_id (_id file) (before ++ after) = false.
Proof.
  intros Hnd. rewrite map_app in Hnd. cbn [map] in Hnd.
  apply NoDup_remove_2 in Hnd. rewrite <- map_app in Hnd.
  destruct (has_id (_id file) (before ++ after)) eqn:E; [|reflexivity].
  apply has_id_find in E as [d Hd]. apply find_by_id in Hd as [Hk Hin].
  exfalso. apply Hnd. rewrite <- Hk. now apply in_map.
Qed.

(** Writing a collection of the first database leaves every other
    collection, of either database, as it was. *)
Lemma coll_at_set_other w name col c :
  c <> get_collection_by_name name ->
  coll_at (first (set_coll w (get_collection_by_name name) col))
          (second (set_coll w (get_collection_by_name name) col)) c =
  coll_at (first w) (second w) c.
Proof.
  pose proof (first_coll name) as Ef.
  destruct (get_collection_by_name name) as [df sf]. cbn [snd] in Ef.
  injection Ef as ->. intros Hne. rewrite coll_at_set_first.
  destruct c as [[|] s]; [|reflexivity].
  destruct (slot_eqb sf s) eqn:E; [|reflexivity].
  apply slot_eqb_eq in E. subst s. contradiction.
Qed.

Lemma coll_eq_dec (a b : Coll) : {a = b} + {a <> b}.
Proof. decide equality; decide equality. Qed.

(** C7.  A successful [move_file] found the record in the source,
    inserted it into the destination with [collection_type] set to the
    destination, [moved_date] stamped and [_id] unchanged, and only then
    deleted it from the source: the destination is what it was with the
    new record at its end, the source is what it was without the first
    record of that key, and no other collection has changed.  Afterwards
    a lookup of the key in the destination collection returns the new
    record.  Where the keys of the source were unique, the source no
    longer holds the key; and where besides no third collection held it
    before the move, [get_file_details] returns the new record, whose
    [collection_type] is the destination. *)
Theorem C7_move_writes_then_deletes :
  forall (file_id from_collection to_collection : string) (w w' : World)
         (msg : message),
    move_file file_id from_collection to_collection w =
      (Ok (true, msg), w') ->
    let f := get_collection_by_name from_collection in
    let t := get_collection_by_name to_collection in
    exists file,
      List.find (by_id file_id) (stored (first w) (second w) f) = Some file /\
      let moved := set_moved to_collection (clock w) file in
      _id moved = file_id /\
      collection_type moved = to_collection /\
      moved_date moved = Some (clock w) /\
      log w' = log w ++ [EvFindOne f file_id; EvInsertOne t moved;
                         EvDeleteOne f file_id] /\
      stored (first w') (second w') t =
        stored (first w) (second w) t ++ [moved] /\
      (exists before after,
          stored (first w) (second w) f = before ++ file :: after /\
          has_id file_id before = false /\
          stored (first w') (second w') f = before ++ after) /\
      (forall c, c <> f -> c <> t ->
                 stored (first w') (second w') c =
                 stored (first w) (second w) c) /\
      fst (find_one t file_id w') = Ok (Some moved) /\
      (NoDup (map _id (stored (first w) (second w) f)) ->
       has_id file_id (stored (first w') (second w') f) = false /\
       fst (find_one f file_id w') = Ok None /\
       ((forall c, In c [primary_collection; clouds_collection;
                         archive_collection] ->
                   c <> f -> c <> t ->
                   has_id file_id (stored (first w) (second w) c) = false) ->
        fst (get_file_details file_id w') = Ok (Some moved))).
Proof.
  intros k A B w w' msg H f t.
  rewrite move_file_cases in H. cbv zeta in H. fold f t in H.
  destruct (List.find (by_id k) (stored (first w) (second w) f))
    as [file|] eqn:Ef; [|discriminate].
  destruct (find_by_id _ _ _ Ef) as [Hid Hin].
  destruct (full (first w) (second w) t) eqn:Ft; [discriminate|].
  destruct (has_id (_id file) (stored (first w) (second w) t)) eqn:Ht;
    [discriminate|].
  injection H as _ <-.
  exists file. split; [reflexivity|]. cbv zeta.
  set (moved := set_moved B (clock w) file).
  assert (Hft : slot_eqb (snd t) (snd f) = false).
  { destruct (slot_eqb (snd t) (snd f)) eqn:E; [|reflexivity].
    apply slot_eqb_eq in E. exfalso.
    assert (Etf : t = f).
    { unfold t, f. rewrite (first_coll A), (first_coll B).
      unfold t, f in E. now rewrite E. }
    rewrite Etf in Ht.
    assert (has_id (_id file) (stored (first w) (second w) f) = true).
    { apply has_id_find. exists file. now rewrite Hid. }
    congruence. }
  assert (Htf : slot_eqb (snd f) (snd t) = false).
  { destruct (snd f), (snd t); simpl in *; congruence. }
  assert (St : forall w0 col1 col2,
             stored (first (set_coll (record (EvDeleteOne f k)
                                        (set_coll w0 t col1)) f col2))
                    (second (set_coll (record (EvDeleteOne f k)
                                         (set_coll w0 t col1)) f col2)) t =
             docs col1).
  { intros w0 col1 col2. unfold stored, f, t.
    rewrite (first_coll A), (first_coll B).
    rewrite coll_at_set_first. fold f t. rewrite Htf.
    cbn [first second record].
    rewrite coll_at_set_first. now rewrite slot_eqb_refl. }
  split; [exact Hid|]. split; [reflexivity|]. split; [reflexivity|].
  split.
  { rewrite !log_set_coll. cbn [log record tick].
    rewrite log_set_coll. cbn [log record tick].
    now rewrite <- !app_assoc. }
  split; [apply St|].
  match goal with
  | |- (exists before after, _ /\ _ /\ stored (first ?v) (second ?v) _ = _)
       /\ _ => set (w' := v)
  end.
  assert (Hsrc : stored (first w') (second w') f =
                 remove_first k (stored (first w) (second w) f)).
  { unfold w', stored, f, t. rewrite (first_coll A), (first_coll B).
    rewrite !coll_at_set_first. fold f t.
    rewrite slot_eqb_refl, Hft. reflexivity. }
  destruct (remove_first_split k _ file Ef) as (before & after & El & Hb & Er).
  rewrite Er in Hsrc.
  split; [exists before, after; auto|].
  assert (Hframe : forall c, c <> f -> c <> t ->
                     stored (first w') (second w') c =
                     stored (first w) (second w) c).
  { intros c Hcf Hct. unfold w', stored.
    rewrite (coll_at_set_other _ A _ c Hcf). cbn [first second record].
    rewrite (coll_at_set_other _ B _ c Hct). reflexivity. }
  split; [exact Hframe|].
  assert (Hfind : List.find (by_id k)
                    (stored (first w) (second w) t ++ [moved]) = Some moved).
  { rewrite find_app, has_id_false_find by (now rewrite <- Hid).
    simpl. unfold by_id. change (_id moved) with (_id file).
    now rewrite Hid, String.eqb_refl. }
  split.
  { rewrite find_one_bound by apply bound_first. cbn [fst].
    fold (by_id k). unfold w'. rewrite St. cbn [docs]. now rewrite Hfind. }
  intros Hnd.
  assert (Hgone : has_id k (stored (first w') (second w') f) = false).
  { rewrite Hsrc, <- Hid. apply unique_key_is_gone. now rewrite <- El. }
  split; [exact Hgone|]. split.
  { rewrite find_one_bound by apply bound_first. cbn [fst].
    fold (by_id k). now rewrite (has_id_false_find _ _ Hgone). }
  intros Hother. apply get_file_details_first.
  assert (Hnone : forall c, In c [primary_collection; clouds_collection;
                                  archive_collection] -> c <> t ->
            List.find (by_id k) (stored (first w') (second w') c) = None).
  { intros c Hc Hne. apply has_id_false_find.
    destruct (coll_eq_dec c f) as [->|Hcf]; [exact Hgone|].
    rewrite (Hframe c Hcf Hne). now apply Hother. }
  cbn [scan].
  assert (Et : t = (FirstDb, snd t)) by (unfold t; apply first_coll).
  destruct (snd t) eqn:Es.
  - change primary_collection with (FirstDb, primary_files).
    rewrite <- Et. unfold w'. rewrite St. cbn [docs]. now rewrite Hfind.
  - rewrite (Hnone primary_collection);
      [|now left|rewrite Et; discriminate].
    change clouds_collection with (FirstDb, cloud_files).
    rewrite <- Et. unfold w'. rewrite St. cbn [docs]. now rewrite Hfind.
  - rewrite (Hnone primary_collection);
      [|now left|rewrite Et; discriminate].
    rewrite (Hnone clouds_collection);
      [|right; now left|rewrite Et; discriminate].
    change archive_collection with (FirstDb, archive_files).
    rewrite <- Et. unfold w'. rewrite St. cbn [docs]. now rewrite Hfind.
Qed.

Lemma C7_move_witness :
  _id moved_one = "k1" /\
  collection_type moved_one = "clouds" /\
  moved_date moved_one = Some 10 /\
  log two_after_move =
    [EvFindOne primary_collection "k1";
     EvInsertOne clouds_collection moved_one;
     EvDeleteOne primary_collection "k1"] /\
  stored (first two_after_move) (second two_after_move) clouds_collection =
    [moved_one] /\
  stored (first two_after_move) (second two_after_move) primary_collection =
    [placed_doc "k0" "alpha zero" "primary"] /\
  stored (first two_after_move) (second two_after_move) archive_collection =
    [] /\
  fst (find_one clouds_collection "k1" two_after_move) =
    Ok (Some moved_one) /\
  has_id "k1"
    (stored (first two_after_move) (second two_after_move)
            primary_collection) = false /\
  fst (find_one primary_collection "k1" two_after_move) = Ok None /\
  fst (get_file_details "k1" two_after_move) = Ok (Some moved_one).
Proof.
  destruct (C7_move_writes_then_deletes "k1" "primary" "clouds"
              two_in_primary two_after_move (Text "File moved successfully"))
    as (file & Hfile & Hk & Hto & Hdate & Hlog & Ht & Hf & Hframe & Hone &
        Hunique).
  { vm_compute. reflexivity. }
  injection Hfile as <-.
  destruct Hunique as (Hgone & Hmiss & Hdetails).
  { vm_compute. repeat constructor; cbn; intuition discriminate. }
  destruct Hf as (before & after & Esplit & Hb & Hsrc).
  assert (before = [placed_doc "k0" "alpha zero" "primary"] /\ after = [])
    as [-> ->].
  { destruct before as [|a [|b before]].
    - vm_compute in Esplit. discriminate Esplit.
    - vm_compute in Esplit. injection Esplit as <- <-. auto.
    - vm_compute in Esplit. injection Esplit as _ _ E.
      destruct before; discriminate E. }
  split; [exact Hk|]. split; [exact Hto|]. split; [exact Hdate|].
  split; [exact Hlog|]. split; [exact Ht|]. split; [exact Hsrc|].
  split.
  { rewrite (Hframe archive_collection); [reflexivity| |]; discriminate. }
  split; [exact Hone|]. split; [exact Hgone|]. split; [exact Hmiss|].
  apply Hdetails. intros c [<-|[<-|[<-|[]]]] Hcf Hct;
    [now destruct Hcf|now destruct Hct|reflexivity].
Defined.




(** C10.  When the source holds the key and the insert into the
    destination fails, because the destination already holds the key or
    refuses the write, [move_file] returns [False] with the text of the
    error, and no collection has changed: the store calls made are the
    lookup and the failed insert, and no delete.  With a destination
    that accepts writes the error is the duplicate-key error. *)
Theorem C10_failed_insert_keeps_source :
  forall (file_id from_collection to_collection : string) (w : World)
         (file : Document),
    let f := get_collection_by_name from_collection in
    let t := get_collection_by_name to_collection in
    List.find (by_id file_id) (stored (first w) (second w) f) = Some file ->
    has_id file_id (stored (first w) (second w) t) = true \/
    full (first w) (second w) t = true ->
    exists e w',
      move_file file_id from_collection to_collection w =
        (Ok (false, StrOf e), w') /\
      (full (first w) (second w) t = false -> e = DuplicateKeyError) /\
      (full (first w) (second w) t = true -> e = OperationFailure) /\
      first w' = first w /\ second w' = second w /\
      List.find (by_id file_id) (stored (first w') (second w') f) =
        Some file /\
      log w' =
        log w ++
        [EvFindOne f file_id;
         EvInsertOne t (set_moved to_collection (clock w) file)].
Proof.
  intros k A B w file f t Ef Hfail.
  rewrite move_file_cases. cbv zeta. fold f t. rewrite Ef.
  destruct (find_by_id _ _ _ Ef) as [Hid _]. rewrite Hid.
  destruct (full (first w) (second w) t) eqn:Ft.
  - exists OperationFailure. eexists. split; [reflexivity|].
    cbn [first second log record tick]. rewrite <- app_assoc.
    repeat split; auto. discriminate.
  - destruct Hfail as [Hdup|Hfull]; [|discriminate].
    rewrite Hdup. exists DuplicateKeyError. eexists. split; [reflexivity|].
    cbn [first second log record tick]. rewrite <- app_assoc.
    repeat split; auto. discriminate.
Qed.

Lemma C10_failed_insert_witness :
  exists e w',
    move_file "k1" "primary" "clouds" one_in_both = (Ok (false, StrOf e), w') /\
    (full (first one_in_both) (second one_in_both)
          (get_collection_by_name "clouds") = false ->
     e = DuplicateKeyError) /\
    (full (first one_in_both) (second one_in_both)
          (get_collection_by_name "clouds") = true ->
     e = OperationFailure) /\
    first w' = first one_in_both /\ second w' = second one_in_both /\
    List.find (by_id "k1")
      (stored (first w') (second w') (get_collection_by_name "primary")) =
      Some (placed_doc "k1" "alpha one" "primary") /\
    log w' =
      log one_in_both ++
      [EvFindOne (get_collection_by_name "primary") "k1";
       EvInsertOne (get_collection_by_name "clouds")
         (set_moved "clouds" (clock one_in_both)
            (placed_doc "k1" "alpha one" "primary"))].
Proof.
  apply (C10_failed_insert_keeps_source "k1" "primary" "clouds" one_in_both
           (placed_doc "k1" "alpha one" "primary")).
  - reflexivity.
  - left. reflexivity.
Defined.

End ReorganizeProofs.

(** ** Bulk moves *)

Module BulkProofs.

Import Catalog StoreAux StoreFacts ReorganizeAux ReorganizeProofs BulkAux.
Local Open Scope string_scope.
Local Open Scope list_scope.
Local Open Scope Z_scope.



Lemma remove_first_subset key l d : In d (remove_first key l) -> In d l.
Proof.
  induction l as [|a l IH]; simpl; [tauto|].
  destruct (String.eqb (_id a) key); [now right|].
  intros [->|H]; [now left|right; auto].
Qed.

Lemma has_id_In key l :
  has_id key l = true <-> exists d, In d l /\ _id d = key.
Proof.
  unfold has_id. rewrite existsb_exists.
  split; intros (d & Hd & E); exists d; split; auto;
    now apply String.eqb_eq.
Qed.


Lemma has_id_remove_first key l :
  NoDup (map _id l) -> has_id key (remove_first key l) = false.
Proof.
  induction l as [|a l IH]; intros Hnd; simpl; [reflexivity|].
  inversion Hnd as [|? ? Hni Hnd']; subst.
  destruct (String.eqb (_id a) key) eqn:E.
  - apply String.eqb_eq in E. subst key.
    destruct (has_id (_id a) l) eqn:Eh; [|reflexivity].
    apply has_id_In in Eh as (d & Hd & Hk).
    exfalso. apply Hni. rewrite <- Hk. now apply in_map.
  - unfold has_id in *. simpl. rewrite E. simpl. now apply IH.
Qed.

Lemma NoDup_remove_first key l :
  NoDup (map _id l) -> NoDup (map _id (remove_first key l)).
Proof.
  induction l as [|a l IH]; intros Hnd; simpl; [constructor|].
  inversion Hnd as [|? ? Hni Hnd']; subst.
  destruct (String.eqb (_id a) key); [assumption|].
  simpl. constructor; [|auto].
  intros H. apply Hni. apply in_map_iff in H as (d & Hd & Hin).
  apply in_map_iff. exists d. split; auto.
  now apply remove_first_subset in Hin.
Qed.



Lemma NoDup_map_filter {A B} (g : A -> B) p l :
  NoDup (map g l) -> NoDup (map g (filter p l)).
Proof.
  induction l as [|a l IH]; intros H; simpl; [constructor|].
  inversion H as [|? ? Hni Hnd]; subst.
  destruct (p a); [|auto]. simpl. constructor; [|auto].
  intros Hin. apply Hni. apply in_map_iff in Hin as (d & Hd & Hf).
  apply in_map_iff. exists d. split; auto.
  now apply filter_In in Hf as [Hf _].
Qed.

Lemma has_id_app key a b : has_id key (a ++ b) = has_id key a || has_id key b.
Proof. unfold has_id. apply existsb_app. Qed.

Section Loop.

Variables (fs ts : Slot) (to_collection : string).

Let f : Coll := (FirstDb, fs).
Let t : Coll := (FirstDb, ts).

Lemma bulk_move_loop_step file rest count w :
  full (first w) (second w) t = false ->
  bulk_move_loop (file :: rest) f t to_collection count w =
  if collides ts w file then
    bulk_move_loop rest f t to_collection count
      (record (EvInsertOne t (set_moved to_collection (clock w) file))
              (tick w))
  else
    bulk_move_loop rest f t to_collection (count + 1) (after_move fs ts to_collection w file).
Proof.
  intros Ft. cbn [bulk_move_loop]. unfold bind at 1.
  rewrite datetime_now_tick. unfold bind at 1.
  unfold try_except, bind at 1.
  assert (Hb : forall w0 slot, bound w0 (FirstDb, slot))
    by (intros w0 slot H; discriminate H).
  rewrite (insert_one_bound t _ _ (Hb _ ts)).
  cbv zeta. cbn [first second record tick]. rewrite Ft.
  change (_id (set_moved to_collection (clock w) file)) with (_id file).
  unfold collides. fold t.
  destruct (has_id (_id file) (stored (first w) (second w) t)); [reflexivity|].
  unfold bind at 1. rewrite (delete_one_bound f _ _ (Hb _ fs)).
  unfold after_move. cbv zeta. fold f t. rewrite Ft. reflexivity.
Qed.



Lemma after_move_second w file :
  second (after_move fs ts to_collection w file) = second w.
Proof. reflexivity. Qed.


End Loop.





End BulkProofs.

(** ** More on the codec *)

Module CodecFacts.

Import Codec CodecAux CodecProofs CodecFactsAux.
Local Open Scope Z_scope.

Lemma bytes_of_ok l out : bytes_of l = Ok out -> out = l /\ byte_list l.
Proof.
  unfold bytes_of. destruct (forallb is_byte l) eqn:E; [|discriminate].
  intros [= <-]. split; [reflexivity|].
  unfold byte_list. rewrite Forall_forall. rewrite forallb_forall in E.
  intros b Hb. apply E in Hb. unfold is_byte in Hb.
  apply andb_true_iff in Hb as [H1 H2].
  apply Z.leb_le in H1. apply Z.ltb_lt in H2. lia.
Qed.

(** What the loop returns is a byte string, and at most half as long
    again as what it read. *)
Lemma encode_loop_bytes s : forall r n out,
  byte_list s -> byte_list r ->
  encode_loop s r n = Ok out ->
  byte_list out /\
  2 * Z.of_nat (List.length out) <=
    2 * Z.of_nat (List.length r) + 3 * Z.of_nat (List.length s) +
    (if n =? 0 then 0 else 3).
Proof.
  induction s as [|i s IH]; intros r n out Hs Hr H.
  - simpl in H. injection H as <-. split; [assumption|].
    simpl. destruct (n =? 0); lia.
  - inversion Hs as [|? ? Hi Hs']; subst.
    cbn [encode_loop] in H. cbn [List.length].
    destruct (i =? 0) eqn:Ei.
    + apply IH in H as [Hb Hl]; auto. split; [assumption|].
      revert Hl. destruct (n + 1 =? 0), (n =? 0); intros; lia.
    + destruct (n =? 0) eqn:En; cbn [negb rbind] in H.
      * apply IH in H as [Hb Hl]; auto.
        -- split; [assumption|]. rewrite length_app in Hl.
           cbn [List.length] in Hl. rewrite ?En in Hl.
           change (0 =? 0) with true in Hl. cbv iota in *. lia.
        -- apply Forall_app; split; auto.
      * destruct (bytes_of [n]) as [bn|] eqn:Eb; cbn [rbind] in H;
          [|discriminate].
        apply bytes_of_ok in Eb as [-> Hn].
        apply IH in H as [Hb Hl]; auto.
        -- split; [assumption|]. rewrite !length_app in Hl.
           cbn [List.length] in Hl. rewrite ?En in Hl.
           change (0 =? 0) with true in Hl. cbv iota in *. lia.
        -- repeat (apply Forall_app; split; auto). repeat constructor; lia.
Qed.

Lemma encode_loop_raises s : forall r n e,
  encode_loop s r n = Raise e -> e = ValueError.
Proof.
  induction s as [|i s IH]; intros r n e H; [discriminate|].
  cbn [encode_loop] in H. destruct (i =? 0); [eauto|].
  destruct (n =? 0); cbn [negb rbind] in H; [eauto|].
  unfold bytes_of in H. destruct (forallb is_byte [n]); cbn [rbind] in H.
  - eauto.
  - now injection H as <-.
Qed.

(** A pending run of 256 or more zeros cannot be written. *)
Lemma encode_loop_overlong s : forall x r n,
  x <> 0 -> 256 <= n -> encode_loop (s ++ [x]) r n = Raise ValueError.
Proof.
  induction s as [|i s IH]; intros x r n Hx Hn; cbn [app encode_loop].
  - apply Z.eqb_neq in Hx. rewrite Hx.
    replace (n =? 0) with false by (symmetry; apply Z.eqb_neq; lia).
    cbn [negb]. unfold bytes_of, is_byte. cbn [forallb].
    replace (n <? 256) with false by (symmetry; apply Z.ltb_ge; lia).
    rewrite andb_false_r. reflexivity.
  - destruct (i =? 0).
    + apply IH; [assumption|lia].
    + replace (n =? 0) with false by (symmetry; apply Z.eqb_neq; lia).
      cbn [negb]. unfold bytes_of, is_byte. cbn [forallb].
      replace (n <? 256) with false by (symmetry; apply Z.ltb_ge; lia).
      rewrite andb_false_r. reflexivity.
Qed.

Lemma encode_loop_zeros k : forall s r n,
  encode_loop (repeat 0 k ++ s) r n = encode_loop s r (n + Z.of_nat k).
Proof.
  induction k as [|k IH]; intros s r n.
  - simpl. now rewrite Z.add_0_r.
  - cbn [repeat app encode_loop]. change (0 =? 0) with true. cbv iota.
    rewrite IH. f_equal. lia.
Qed.

Lemma encode_loop_run a : forall b r n,
  0 <= n ->
  encode_loop (a ++ repeat 0 256 ++ b ++ [22] ++ [4]) r n = Raise ValueError.
Proof.
  induction a as [|i a IH]; intros b r n Hn.
  - cbn [app]. rewrite encode_loop_zeros.
    change (b ++ [22; 4]) with (b ++ [22] ++ [4]).
    rewrite app_assoc. apply encode_loop_overlong; lia.
  - cbn [app encode_loop]. destruct (i =? 0).
    + apply IH. lia.
    + destruct (n =? 0); cbn [negb rbind].
      * apply IH. lia.
      * unfold bytes_of. destruct (forallb is_byte [n]); cbn [rbind].
        -- apply IH. lia.
        -- reflexivity.
Qed.

Lemma bytes_of_one n : 0 <= n < 256 -> bytes_of [n] = Ok [n].
Proof.
  intros H. unfold bytes_of, is_byte. cbn [forallb].
  replace (0 <=? n) with true by (symmetry; apply Z.leb_le; lia).
  replace (n <? 256) with true by (symmetry; apply Z.ltb_lt; lia).
  reflexivity.
Qed.

Lemma encode_loop_short s : forall r n,
  byte_list s -> 0 <= n -> n + Z.of_nat (List.length s) <= 255 ->
  exists out, encode_loop (s ++ [22] ++ [4]) r n = Ok out.
Proof.
  induction s as [|i s IH]; intros r n Hs Hn Hl.
  - cbn [app encode_loop]. change (22 =? 0) with false.
    change (4 =? 0) with false. cbv iota.
    destruct (n =? 0) eqn:En; cbn [negb rbind].
    + rewrite En. cbn [negb rbind]. eexists. reflexivity.
    + rewrite bytes_of_one by (simpl in Hl; lia). cbn [rbind].
      change (0 =? 0) with true. cbn [negb rbind]. eexists. reflexivity.
  - inversion Hs as [|? ? Hi Hs']; subst.
    cbn [app encode_loop]. cbn [List.length] in Hl.
    destruct (i =? 0).
    + apply IH; auto; lia.
    + destruct (n =? 0) eqn:En; cbn [negb rbind].
      * apply IH; auto; lia.
      * rewrite bytes_of_one by lia. cbn [rbind]. apply IH; auto; lia.
Qed.

(** X1.  [encode_file_id] is injective on byte strings: two byte
    strings with the same encoding are the same string. *)
Theorem X1_encode_file_id_injective :
  forall (s1 s2 : list Z) (k : string),
    byte_list s1 -> byte_list s2 ->
    encode_file_id s1 = Ok k -> encode_file_id s2 = Ok k ->
    s1 = s2.
Proof.
  intros s1 s2 k B1 B2 E1 E2. unfold encode_file_id in *.
  destruct (encode_loop (s1 ++ [22] ++ [4]) [] 0) as [o1|] eqn:L1;
    [|discriminate].
  destruct (encode_loop (s2 ++ [22] ++ [4]) [] 0) as [o2|] eqn:L2;
    [|discriminate].
  cbn [rbind] in E1, E2.
  assert (Hb : forall s o, byte_list s ->
             encode_loop (s ++ [22] ++ [4]) [] 0 = Ok o -> byte_list o).
  { intros s o Hs Ho. apply encode_loop_bytes in Ho as [Hb _]; auto.
    - apply Forall_app; split; auto. repeat constructor; lia.
    - constructor. }
  assert (o1 = o2).
  { apply b64_key_inj; eauto. congruence. }
  subst o2. eapply encode_loop_inj; eauto.
Qed.

Lemma X1_encode_file_id_witness : [1; 0; 0; 2] = [1; 0; 0; 2].
Proof.
  apply (X1_encode_file_id_injective [1; 0; 0; 2] [1; 0; 0; 2] "AQACAhYE").
  - repeat constructor; lia.
  - repeat constructor; lia.
  - reflexivity.
  - reflexivity.
Defined.

(** X2.  When [encode_file_id] fails.  It returns a key for every byte
    string of at most 255 bytes, and it raises [ValueError], from
    [bytes([n])], for every string that holds 256 zero bytes in a row;
    it raises nothing else. *)
Theorem X2_encode_file_id_zero_runs :
  (forall s, byte_list s -> (List.length s <= 255)%nat ->
             exists k, encode_file_id s = Ok k) /\
  (forall a b, encode_file_id (a ++ repeat 0 256 ++ b) = Raise ValueError) /\
  (forall s e, encode_file_id s = Raise e -> e = ValueError).
Proof.
  split; [|split].
  - intros s Hs Hl. unfold encode_file_id.
    destruct (encode_loop_short s [] 0 Hs) as (o & ->); [lia|lia|].
    eexists. reflexivity.
  - intros a b. unfold encode_file_id.
    rewrite <- !app_assoc. rewrite encode_loop_run by lia. reflexivity.
  - intros s e H. unfold encode_file_id in H.
    destruct (encode_loop (s ++ [22] ++ [4]) [] 0) eqn:E; [discriminate|].
    cbn in H. injection H as <-. eapply encode_loop_raises; eauto.
Qed.

Lemma X2_encode_file_id_witness :
  exists k, encode_file_id [1; 0; 0; 2] = Ok k.
Proof.
  apply (proj1 X2_encode_file_id_zero_runs [1; 0; 0; 2]).
  - repeat constructor; lia.
  - simpl. lia.
Defined.

Lemma pack_signed_inv n x b :
  pack_signed n x = Ok b ->
  b = le_bytes n x /\
  - 2 ^ (8 * Z.of_nat n - 1) <= x < 2 ^ (8 * Z.of_nat n - 1).
Proof.
  unfold pack_signed. cbv zeta.
  destruct (- 2 ^ (8 * Z.of_nat n - 1) <=? x) eqn:E1;
    destruct (x <? 2 ^ (8 * Z.of_nat n - 1)) eqn:E2;
    cbn [andb]; intros H; inversion H; subst.
  apply Z.leb_le in E1. apply Z.ltb_lt in E2. auto.
Qed.

Lemma pack_signed_raises n x e : pack_signed n x = Raise e -> e = StructError.
Proof.
  unfold pack_signed. cbv zeta.
  destruct (_ && _); intros H; inversion H; reflexivity.
Qed.

Lemma pack_iiqq_inv a b c d bytes :
  pack_iiqq a b c d = Ok bytes ->
  byte_list bytes /\ List.length bytes = 24%nat /\
  fields_in_range (mkFileId a b c d []).
Proof.
  unfold pack_iiqq.
  destruct (pack_signed 4 a) as [ba|] eqn:Ea; [|discriminate].
  destruct (pack_signed 4 b) as [bb|] eqn:Eb; [|discriminate].
  destruct (pack_signed 8 c) as [bc|] eqn:Ec; [|discriminate].
  destruct (pack_signed 8 d) as [bd|] eqn:Ed; [|discriminate].
  cbn [rbind]. intros [= <-].
  apply pack_signed_inv in Ea as [-> Ra], Eb as [-> Rb],
    Ec as [-> Rc], Ed as [-> Rd].
  split; [|split].
  - unfold byte_list. repeat (apply Forall_app; split); apply le_bytes_range.
  - rewrite !length_app, !le_bytes_length. reflexivity.
  - unfold fields_in_range. cbn [file_type dc_id media_id access_hash].
    simpl in Ra, Rb, Rc, Rd. lia.
Qed.

Lemma sextets_length l :
  3 * Z.of_nat (List.length (sextets l)) <= 4 * Z.of_nat (List.length l) + 2.
Proof.
  induction l as [|a|a b|a b c t IH] using list_ind3;
    cbn [sextets List.length]; lia.
Qed.

Lemma url_char_in_alphabet v : 0 <= v < 64 -> In (url_char v) key_alphabet.
Proof.
  intros Hv.
  assert (H : forallb (fun n => existsb (Ascii.eqb (url_char (Z.of_nat n)))
                                        key_alphabet)
                      (seq 0 64) = true) by (vm_compute; reflexivity).
  rewrite forallb_forall in H.
  specialize (H (Z.to_nat v)). rewrite Z2Nat.id in H by lia.
  assert (Hin : In (Z.to_nat v) (seq 0 64)) by (apply in_seq; lia).
  apply H in Hin. apply existsb_exists in Hin as (c & Hc & E).
  apply Ascii.eqb_eq in E. now subst.
Qed.

Lemma string_length_of_list l :
  String.length (string_of_list_ascii l) = List.length l.
Proof. induction l; simpl; congruence. Qed.

(** X3.  Every key [unpack_new_file_id] returns is made of letters,
    digits, [-] and [_] only, without padding, and is at most 52
    characters long. *)
Theorem X3_key_is_short_and_url_safe :
  forall (FileId_decode : string -> option FileId) (h k : string),
    unpack_new_file_id FileId_decode h = Ok k ->
    (String.length k <= 52)%nat /\
    Forall (fun c => In c key_alphabet) (list_ascii_of_string k).
Proof.
  intros dec h k H. unfold unpack_new_file_id in H.
  destruct (dec h) as [d|]; [|discriminate].
  destruct (pack_iiqq _ _ _ _) as [bytes|] eqn:Ep; [|discriminate].
  cbn [rbind] in H. apply pack_iiqq_inv in Ep as (Hb & Hl & _).
  unfold encode_file_id in H.
  destruct (encode_loop (bytes ++ [22] ++ [4]) [] 0) as [out|] eqn:El;
    [|discriminate].
  cbn [rbind] in H. injection H as <-.
  apply encode_loop_bytes in El as [Ho Hlen].
  - rewrite rstrip_urlsafe_b64encode by assumption.
    rewrite string_length_of_list, list_ascii_of_string_of_list_ascii.
    rewrite length_map. split.
    + pose proof (sextets_length out) as Hs.
      rewrite !length_app, Hl in Hlen. cbn [List.length] in Hlen.
      change (0 =? 0) with true in Hlen. cbv iota in Hlen. lia.
    + apply Forall_map. eapply Forall_impl; [|apply sextets_range, Ho].
      intros v Hv. now apply url_char_in_alphabet.
  - apply Forall_app; split; auto. repeat constructor; lia.
  - constructor.
Qed.

Lemma X3_key_witness :
  (String.length "BQADBAAD___________LBPtxHwEAAhYE" <= 52)%nat /\
  Forall (fun c => In c key_alphabet)
         (list_ascii_of_string "BQADBAAD___________LBPtxHwEAAhYE").
Proof.
  apply (X3_key_is_short_and_url_safe sample_decode "handle-one").
  vm_compute. reflexivity.
Defined.

(** X4.  When [unpack_new_file_id] fails: with [DecodeError] when the
    handle does not decode, with [struct.error] when a decoded field is
    outside its 32-bit or 64-bit range, and in no other case. *)
Theorem X4_unpack_failures :
  forall (FileId_decode : string -> option FileId) (h : string),
    match FileId_decode h with
    | None => unpack_new_file_id FileId_decode h = Raise DecodeError
    | Some d =>
        (fields_in_range d ->
         exists k, unpack_new_file_id FileId_decode h = Ok k) /\
        (~ fields_in_range d ->
         unpack_new_file_id FileId_decode h = Raise StructError)
    end.
Proof.
  intros dec h. unfold unpack_new_file_id.
  destruct (dec h) as [d|]; [|reflexivity]. split.
  - intros R. rewrite (pack_iiqq_ok d R). cbn [rbind].
    destruct (packed_fields_bytes d) as [B L].
    destruct (encode_file_id_packed _ B L) as (o & _ & _ & E).
    rewrite E. eexists. reflexivity.
  - intros NR.
    destruct (pack_iiqq (file_type d) (dc_id d) (media_id d) (access_hash d))
      as [bytes|e] eqn:Ep.
    + exfalso. apply NR. apply pack_iiqq_inv in Ep as (_ & _ & R). exact R.
    + cbn [rbind]. f_equal. unfold pack_iiqq in Ep.
      destruct (pack_signed 4 (file_type d)) eqn:E1; cbn [rbind] in Ep;
        [|injection Ep as <-; eapply pack_signed_raises; eauto].
      destruct (pack_signed 4 (dc_id d)) eqn:E2; cbn [rbind] in Ep;
        [|injection Ep as <-; eapply pack_signed_raises; eauto].
      destruct (pack_signed 8 (media_id d)) eqn:E3; cbn [rbind] in Ep;
        [|injection Ep as <-; eapply pack_signed_raises; eauto].
      destruct (pack_signed 8 (access_hash d)) eqn:E4; cbn [rbind] in Ep;
        [discriminate|injection Ep as <-; eapply pack_signed_raises; eauto].
Qed.

Lemma X4_unpack_failures_witness :
  exists k, unpack_new_file_id sample_decode "handle-one" = Ok k.
Proof.
  apply (proj1 (X4_unpack_failures sample_decode "handle-one")).
  vm_compute. repeat split; discriminate.
Defined.

End CodecFacts.

(** ** More on names and queries *)

Module QueryFacts.

Import Regex Query QueryAux QueryProofs QueryFactsAux.
Local Open Scope nat_scope.

Lemma sub_mentions_head t :
  head_nonword t -> head_nonword (Catalog.sub_mentions false t).
Proof.
  destruct t as [|d t]; [trivial|]. cbn [head_nonword Catalog.sub_mentions].
  intros Hd. cbn [andb].
  destruct (Ascii.eqb d "@" && _); [reflexivity|].
  destruct (Catalog.is_separator d); [reflexivity|exact Hd].
Qed.

Lemma sub_mentions_tidy s : forall b, tidy (Catalog.sub_mentions b s).
Proof.
  induction s as [|c t IH]; intros b; [exact I|].
  cbn [Catalog.sub_mentions].
  destruct (b && is_word c); [apply IH|].
  destruct (Ascii.eqb c "@" &&
            match t with d :: _ => is_word d | [] => false end) eqn:Em.
  - cbn [tidy]. repeat split; [discriminate|apply IH].
  - destruct (Catalog.is_separator c) eqn:Es.
    + cbn [tidy]. repeat split; [discriminate|apply IH].
    + cbn [tidy]. split; [exact Es|]. split; [|apply IH].
      intros ->. apply sub_mentions_head.
      rewrite Ascii.eqb_refl in Em. cbn [andb] in Em.
      destruct t as [|d t]; [exact I|exact Em].
Qed.

Lemma sub_mentions_fixed l : tidy l -> Catalog.sub_mentions false l = l.
Proof.
  induction l as [|c t IH]; [reflexivity|].
  intros (Hs & Hat & Ht). cbn [Catalog.sub_mentions andb].
  destruct (Ascii.eqb c "@") eqn:Ec.
  - apply Ascii.eqb_eq in Ec. specialize (Hat Ec).
    destruct t as [|d t'].
    + cbn [andb]. rewrite Hs. now rewrite IH.
    + cbn [head_nonword] in Hat. rewrite Hat. cbn [andb]. rewrite Hs.
      now rewrite IH.
  - cbn [andb]. rewrite Hs. now rewrite IH.
Qed.

Lemma sub_mentions_length s : forall b,
  List.length (Catalog.sub_mentions b s) <= List.length s.
Proof.
  induction s as [|c t IH]; intros b; [reflexivity|].
  cbn [Catalog.sub_mentions List.length].
  destruct (b && is_word c); [specialize (IH true); lia|].
  destruct (Ascii.eqb c "@" && _); [cbn [List.length]; specialize (IH true); lia|].
  destruct (Catalog.is_separator c); cbn [List.length];
    specialize (IH false); lia.
Qed.

Lemma tidy_no_separator l :
  tidy l -> Forall (fun c => Catalog.is_separator c = false) l.
Proof.
  induction l as [|c t IH]; intros H; constructor.
  - apply H.
  - apply IH, H.
Qed.

(** X5.  The name [save_file] stores: it holds none of the separators
    [_ - . +], it is no longer than the name given, and cleaning it
    again changes nothing. *)
Theorem X5_clean_name_is_stable :
  forall s : string,
    Forall (fun c => Catalog.is_separator c = false)
           (list_ascii_of_string (Catalog.clean_name s)) /\
    String.length (Catalog.clean_name s) <= String.length s /\
    Catalog.clean_name (Catalog.clean_name s) = Catalog.clean_name s.
Proof.
  intros s. unfold Catalog.clean_name.
  rewrite !list_ascii_of_string_of_list_ascii.
  pose proof (sub_mentions_tidy (list_ascii_of_string s) false) as Ht.
  split; [now apply tidy_no_separator|]. split.
  - assert (L : forall l, String.length (string_of_list_ascii l) =
                          List.length l)
      by (induction l; simpl; congruence).
    rewrite L. rewrite <- (string_of_list_ascii_of_string s) at 2.
    rewrite L. apply sub_mentions_length.
  - now rewrite sub_mentions_fixed.
Qed.

Lemma lstrip_blank l :
  Forall (fun c => is_whitespace c = true) l -> lstrip l = [].
Proof.
  induction 1 as [|c l Hc _ IH]; [reflexivity|].
  cbn [lstrip]. now rewrite Hc.
Qed.

Lemma search_any_char s :
  search_list true (Cat AnyChar Eps) s = true <->
  exists c, In c s /\ c <> newline.
Proof.
  rewrite search_list_iff. cbn [ends]. split.
  - intros (i & e & _ & He). apply in_flat_map in He as (j & Hj & _).
    apply step_char_In in Hj as (_ & d & Hd & Hn).
    exists d. split; [eapply nth_error_In; eauto|].
    intros ->. rewrite Ascii.eqb_refl in Hn. discriminate.
  - intros (c & Hin & Hne). apply In_nth_error in Hin as (i & Hi).
    exists i, (S i). split.
    + assert (i < List.length s) by (apply nth_error_Some; congruence). lia.
    + apply in_flat_map. exists (S i). split; [|now left].
      apply step_char_In. split; auto. exists c. split; auto.
      apply negb_true_iff. now apply Ascii.eqb_neq.
Qed.

(** X6.  An empty or all-blank query matches exactly the names that
    hold some character other than a line feed; a record whose name is
    empty is not matched. *)
Theorem X6_blank_query_matches_nonempty_names :
  forall q name : string,
    Forall (fun c => is_whitespace c = true) (list_ascii_of_string q) ->
    field_matches (build_regex q) name = true <->
    exists c, In c (list_ascii_of_string name) /\ c <> newline.
Proof.
  intros q name Hq.
  assert (Es : strip q = ""%string).
  { unfold strip. rewrite (lstrip_blank _ Hq). reflexivity. }
  unfold build_regex. rewrite Es.
  change (compile (raw_pattern "")) with (Some (Cat AnyChar Eps)).
  cbn [field_matches]. unfold search. apply search_any_char.
Qed.

Lemma X6_blank_query_witness :
  field_matches (build_regex "  ") "a" = true <->
  exists c, In c (list_ascii_of_string "a") /\ c <> newline.
Proof.
  apply (X6_blank_query_matches_nonempty_names "  " "a").
  repeat constructor.
Defined.

Lemma step_group_open alts0 atoms0 stack0 c :
  Ascii.eqb c "?" = false ->
  step (mkPState (mkFrame alts0 atoms0) stack0 MGroupOpen) c =
  step (mkPState (mkFrame alts0 atoms0) stack0 MNormal) c.
Proof. intros H. cbn [step pmode]. now rewrite H. Qed.

Lemma alnum_not_question c : is_alnum c = true -> Ascii.eqb c "?" = false.
Proof.
  destruct c as [b0 b1 b2 b3 b4 b5 b6 b7].
  destruct b0, b1, b2, b3, b4, b5, b6, b7; intros H;
    try discriminate H; reflexivity.
Qed.

Lemma steps_group_open_plain tok : forall alts0 atoms0 stack0,
  plain tok ->
  exists m,
    (m = MNormal \/ m = MGroupOpen) /\
    steps (mkPState (mkFrame alts0 atoms0) stack0 MGroupOpen) tok =
    Some (mkPState (mkFrame alts0 (rev (map Chr tok) ++ atoms0)) stack0 m).
Proof.
  intros alts0 atoms0 stack0 H. destruct tok as [|c tok].
  - exists MGroupOpen. auto.
  - inversion H as [|? ? Hc Ht]; subst. exists MNormal. split; [now left|].
    cbn [steps]. rewrite step_group_open by now apply alnum_not_question.
    change (match step (mkPState (mkFrame alts0 atoms0) stack0 MNormal) c with
            | Some st' => steps st' tok
            | None => None
            end)
      with (steps (mkPState (mkFrame alts0 atoms0) stack0 MNormal) (c :: tok)).
    now apply steps_plain.
Qed.

Lemma steps_edge_from m alts0 atoms0 stack0 :
  m = MNormal \/ m = MGroupOpen ->
  steps (mkPState (mkFrame alts0 atoms0) stack0 m)
        (list_ascii_of_string "(\b|[\.\+\-_])") =
  Some (mkPState (mkFrame alts0 (edge :: atoms0)) stack0 MNormal).
Proof. intros [-> | ->]; reflexivity. Qed.

Lemma normal_step_open f st0 :
  normal_step (mkPState f st0 MNormal) "(" =
  Some (mkPState (mkFrame [] []) (f :: st0) MGroupOpen).
Proof. reflexivity. Qed.

Lemma compile_open_paren t1 t2 :
  plain t1 -> plain t2 ->
  compile ("(\b|[\.\+\-_])" ++
           string_of_list_ascii (t1 ++ "("%char :: t2) ++
           "(\b|[\.\+\-_])")%string = None.
Proof.
  intros H1 H2. unfold compile.
  rewrite !list_ascii_of_string_app, list_ascii_of_string_of_list_ascii.
  rewrite steps_app. unfold initial. rewrite steps_edge.
  rewrite <- app_assoc, steps_app, (steps_plain _ _ _ _ H1).
  cbn [app steps step pmode]. rewrite normal_step_open.
  rewrite steps_app.
  destruct (steps_group_open_plain t2 [] [] 
              [mkFrame [] (rev (map Chr t1) ++ [edge])] H2) as (m & Hm & ->).
  rewrite (steps_edge_from m _ _ _ Hm). reflexivity.
Qed.

Lemma lstrip_solid l :
  Forall (fun c => is_whitespace c = false) l -> lstrip l = l.
Proof. destruct 1 as [|c l Hc _]; [reflexivity|]. cbn [lstrip]. now rewrite Hc. Qed.

(** X7.  A one-word query with an unclosed parenthesis does not compile,
    and the search falls back to the query text itself: it matches only
    a name equal to the whole query, not a name that contains it. *)
Theorem X7_unclosed_parenthesis_means_equality :
  forall (t1 t2 : list ascii) (name : string),
    plain t1 -> plain t2 ->
    let q := string_of_list_ascii (t1 ++ "("%char :: t2) in
    build_regex q = PString q /\
    field_matches (build_regex q) name = String.eqb q name.
Proof.
  intros t1 t2 name H1 H2 q.
  assert (Hsolid : Forall (fun c => is_whitespace c = false)
                          (t1 ++ "("%char :: t2)).
  { apply Forall_app. split; [now apply plain_not_space|].
    constructor; [reflexivity|now apply plain_not_space]. }
  assert (Es : strip q = q).
  { unfold strip, q. rewrite list_ascii_of_string_of_list_ascii.
    rewrite (lstrip_solid _ Hsolid).
    rewrite (lstrip_solid _ (Forall_rev Hsolid)).
    now rewrite rev_involutive. }
  assert (Er : raw_pattern q =
               ("(\b|[\.\+\-_])" ++ q ++ "(\b|[\.\+\-_])")%string).
  { unfold raw_pattern.
    destruct (String.eqb q "") eqn:E.
    - apply String.eqb_eq in E. apply (f_equal list_ascii_of_string) in E.
      unfold q in E. rewrite list_ascii_of_string_of_list_ascii in E.
      destruct t1; discriminate.
    - destruct (has_space q) eqn:Hsp; [|reflexivity].
      apply has_space_In in Hsp. unfold q in Hsp.
      rewrite list_ascii_of_string_of_list_ascii in Hsp.
      rewrite Forall_forall in Hsolid. apply Hsolid in Hsp. discriminate. }
  assert (Eb : build_regex q = PString q).
  { unfold build_regex. rewrite Es, Er. unfold q.
    now rewrite (compile_open_paren t1 t2 H1 H2). }
  split; [exact Eb|]. rewrite Eb. reflexivity.
Qed.

Lemma X7_unclosed_parenthesis_witness :
  build_regex "movie(2020" = PString "movie(2020" /\
  field_matches (build_regex "movie(2020") "movie(2020 hd" =
    String.eqb "movie(2020" "movie(2020 hd".
Proof.
  apply (X7_unclosed_parenthesis_means_equality
           (list_ascii_of_string "movie") (list_ascii_of_string "2020")
           "movie(2020 hd").
  - repeat constructor.
  - repeat constructor.
Defined.

End QueryFacts.

(** ** What an operation leaves as it was *)

Module Frames.

Import Catalog StoreAux StoreFacts FramesAux.
Local Open Scope string_scope.
Local Open Scope list_scope.
Local Open Scope Z_scope.

Lemma coll_eqb_eq a b : coll_eqb a b = true <-> a = b.
Proof.
  destruct a as [[|] s], b as [[|] s']; unfold coll_eqb; cbn [fst snd];
    rewrite ?slot_eqb_eq; split; intros H; try discriminate H;
    try (inversion H; reflexivity); now subst.
Qed.

Lemma coll_eqb_refl a : coll_eqb a a = true.
Proof. now apply coll_eqb_eq. Qed.

Lemma get_coll_some w c col :
  get_coll w c = Some col ->
  bound w c /\ col = coll_at (first w) (second w) c.
Proof.
  unfold get_coll, bound, coll_at. destruct c as [[|] s]; cbn [fst snd].
  - intros H. inversion H. split; [discriminate|reflexivity].
  - destruct (second w) as [d|]; cbn [option_map]; intros H; inversion H.
    split; [discriminate|reflexivity].
Qed.

(** What a collection holds after one collection has been rewritten. *)
Lemma coll_at_set_coll w c col c' :
  bound w c ->
  coll_at (first (set_coll w c col)) (second (set_coll w c col)) c' =
  if coll_eqb c c' then col else coll_at (first w) (second w) c'.
Proof.
  intros Hb. destruct c as [[|] s].
  - rewrite coll_at_set_first. destruct c' as [[|] s']; reflexivity.
  - rewrite coll_at_set_second by (apply Hb; reflexivity).
    destruct c' as [[|] s']; reflexivity.
Qed.

Lemma clock_set_coll w c col : clock (set_coll w c col) = clock w.
Proof. destruct c as [[|] s]; reflexivity. Qed.

Section Preserved.

Variable R : World -> World -> Prop.
Hypothesis R_refl : forall w, R w w.
Hypothesis R_trans : forall a b c, R a b -> R b c -> R a c.

Lemma keeps_ret {A} (a : A) : keeps R (ret a).
Proof. intros w. apply R_refl. Qed.

Lemma keeps_raise {A} e : keeps R (@raise A e).
Proof. intros w. apply R_refl. Qed.

Lemma keeps_lift {A} (r : result A) : keeps R (lift r).
Proof. intros w. apply R_refl. Qed.

Lemma keeps_bind {A B} (m : M A) (k : A -> M B) :
  keeps R m -> (forall a, keeps R (k a)) -> keeps R (bind m k).
Proof.
  intros Hm Hk w. unfold bind. specialize (Hm w).
  destruct (m w) as [[a|e] w1]; cbn [snd] in *; [|assumption].
  eapply R_trans; [exact Hm|apply Hk].
Qed.

Lemma keeps_try {A} (m : M A) handler :
  keeps R m ->
  (forall e h, handler e = Some h -> keeps R h) ->
  keeps R (try_except m handler).
Proof.
  intros Hm Hh w. unfold try_except. specialize (Hm w).
  destruct (m w) as [[a|e] w1]; cbn [snd] in *; [assumption|].
  destruct (handler e) as [h|] eqn:E; [|assumption].
  eapply R_trans; [exact Hm|exact (Hh e h E w1)].
Qed.

Lemma keeps_second_configured : keeps R second_configured.
Proof. intros w. apply R_refl. Qed.

Lemma keeps_count_documents c : keeps R (count_documents c).
Proof.
  intros w. unfold count_documents, with_coll.
  destruct (get_coll w c); apply R_refl.
Qed.

Lemma keeps_count_matching c f : keeps R (count_matching c f).
Proof.
  intros w. unfold count_matching, with_coll.
  destruct (get_coll w c); apply R_refl.
Qed.

Hypothesis R_record : forall e w, R w (record e w).

Lemma keeps_find c f : keeps R (find c f).
Proof.
  intros w. unfold find, with_coll.
  destruct (get_coll _ c); apply R_record.
Qed.

Lemma keeps_find_one c key : keeps R (find_one c key).
Proof.
  intros w. unfold find_one, with_coll.
  destruct (get_coll _ c); apply R_record.
Qed.

Lemma keeps_first_hit cols key : keeps R (first_hit cols key).
Proof.
  induction cols as [|c cols IH]; cbn [first_hit].
  - apply keeps_ret.
  - apply keeps_bind; [apply keeps_find_one|].
    intros [d|]; [apply keeps_ret|exact IH].
Qed.

Lemma keeps_get_file_details key : keeps R (get_file_details key).
Proof.
  unfold get_file_details. apply keeps_bind; [apply keeps_first_hit|].
  intros [d|]; [apply keeps_ret|].
  apply keeps_bind; [apply keeps_second_configured|].
  intros [|]; [apply keeps_first_hit|apply keeps_ret].
Qed.

Lemma keeps_search_named f name : keeps R (search_named f name).
Proof.
  unfold search_named. apply keeps_bind; [apply keeps_find|].
  intros results. apply keeps_bind; [apply keeps_second_configured|].
  intros configured. apply keeps_bind; [|intros; apply keeps_ret].
  destruct configured; [|apply keeps_ret].
  destruct (second_lookup name); [|apply keeps_ret].
  apply keeps_bind; [apply keeps_raise|].
  intros [|]; [|apply keeps_ret].
  apply keeps_bind; [apply keeps_find|intros; apply keeps_ret].
Qed.

Lemma keeps_search_all f names : forall results cnts,
  keeps R (search_all f names results cnts).
Proof.
  induction names as [|name names IH]; intros results cnts;
    cbn [search_all]; [apply keeps_ret|].
  apply keeps_bind; [apply keeps_find|]. intros col_results.
  apply keeps_bind; [apply keeps_second_configured|]. intros configured.
  apply keeps_bind; [|intros; apply IH].
  destruct configured; [|apply keeps_ret].
  destruct (second_lookup name); [|apply keeps_raise].
  apply keeps_bind; [apply keeps_find|intros; apply keeps_ret].
Qed.

Lemma keeps_get_search_results USE query collection_name max_results offset
      lang :
  keeps R (get_search_results USE query collection_name max_results offset
                              lang).
Proof.
  unfold get_search_results. apply keeps_bind.
  - unfold gather. destruct (truthy collection_name).
    + apply keeps_bind; [apply keeps_search_named|intros; apply keeps_ret].
    + apply keeps_bind; [apply keeps_search_all|intros; apply keeps_ret].
  - intros rc. destruct (page (fst rc) lang max_results offset) as [[a b] c].
    apply keeps_ret.
Qed.

Lemma keeps_search_counts_loop f names : forall cnts,
  keeps R (search_counts_loop f names cnts).
Proof.
  induction names as [|name names IH]; intros cnts;
    cbn [search_counts_loop]; [apply keeps_ret|].
  apply keeps_bind; [apply keeps_count_matching|]. intros n.
  apply keeps_bind; [apply keeps_second_configured|]. intros configured.
  apply keeps_bind; [|intros; apply IH].
  destruct configured; [|apply keeps_ret].
  destruct (second_lookup name); [|apply keeps_raise].
  apply keeps_bind; [apply keeps_count_matching|intros; apply keeps_ret].
Qed.

Lemma keeps_get_all_counts : keeps R get_all_counts.
Proof.
  unfold get_all_counts.
  repeat (apply keeps_bind; [apply keeps_count_documents|intros ?]).
  apply keeps_bind; [apply keeps_second_configured|]. intros [|].
  - repeat (apply keeps_bind; [apply keeps_count_documents|intros ?]).
    apply keeps_ret.
  - apply keeps_ret.
Qed.

Lemma keeps_get_all_collections : keeps R get_all_collections.
Proof.
  unfold get_all_collections.
  apply keeps_bind; [apply keeps_second_configured|].
  intros [|]; apply keeps_ret.
Qed.

(** The writing operations, from what [R] allows of the three writing
    primitives and of a reading of the clock. *)
Hypothesis R_tick : forall w, R w (tick w).
Hypothesis R_insert : forall c doc, keeps R (insert_one c doc).
Hypothesis R_delete_many : forall c f, keeps R (delete_many c f).

(** [move_file], [copy_file] and [bulk_move_files] write only to
    collections of the first database. *)
Hypothesis R_insert_first :
  forall slot doc, keeps R (insert_one (FirstDb, slot) doc).
Hypothesis R_delete_first :
  forall slot key, keeps R (delete_one (FirstDb, slot) key).

Lemma keeps_datetime_now : keeps R datetime_now.
Proof. intros w. apply R_tick. Qed.

Lemma keeps_save_file decode media collection_name :
  keeps R (save_file decode media collection_name).
Proof.
  unfold save_file. apply keeps_bind; [apply keeps_lift|]. intros file_id.
  apply keeps_bind; [apply keeps_datetime_now|]. intros now.
  apply keeps_try.
  - apply keeps_bind; [apply R_insert|intros; apply keeps_ret].
  - intros e h E. destruct e; inversion E; subst h; clear E.
    + apply keeps_ret.
    + apply keeps_bind; [apply keeps_second_configured|]. intros [|].
      * apply keeps_try.
        -- apply keeps_bind; [apply R_insert|intros; apply keeps_ret].
        -- intros e2 h2 E2. destruct e2; inversion E2. apply keeps_ret.
      * apply keeps_ret.
Qed.

Lemma keeps_move_file file_id from_collection to_collection :
  keeps R (move_file file_id from_collection to_collection).
Proof.
  unfold move_file.
  rewrite (first_coll from_collection), (first_coll to_collection).
  apply keeps_bind; [apply keeps_find_one|].
  intros [file|]; [|apply keeps_ret].
  apply keeps_bind; [apply keeps_datetime_now|]. intros now.
  apply keeps_try.
  - apply keeps_bind; [apply R_insert_first|]. intros _.
    apply keeps_bind; [apply R_delete_first|intros; apply keeps_ret].
  - intros e h E. inversion E. apply keeps_ret.
Qed.

Lemma keeps_bulk_move_loop fs ts to_collection files :
  forall moved_count,
    keeps R (bulk_move_loop files (FirstDb, fs) (FirstDb, ts) to_collection
                            moved_count).
Proof.
  induction files as [|file files IH]; intros moved_count;
    cbn [bulk_move_loop]; [apply keeps_ret|].
  apply keeps_bind; [apply keeps_datetime_now|]. intros now.
  apply keeps_bind; [|intros; apply IH].
  apply keeps_try.
  - apply keeps_bind; [apply R_insert_first|]. intros _.
    apply keeps_bind; [apply R_delete_first|intros; apply keeps_ret].
  - intros e h E. destruct e; inversion E. apply keeps_ret.
Qed.

Lemma keeps_bulk_move_files query from_collection to_collection :
  keeps R (bulk_move_files query from_collection to_collection).
Proof.
  unfold bulk_move_files.
  rewrite (first_coll from_collection), (first_coll to_collection).
  apply keeps_bind; [apply keeps_find|].
  intros files. apply keeps_bulk_move_loop.
Qed.

Lemma keeps_delete_each f cols : forall total,
  keeps R (delete_each cols f total).
Proof.
  induction cols as [|c cols IH]; intros total; cbn [delete_each];
    [apply keeps_ret|].
  apply keeps_bind; [apply R_delete_many|intros; apply IH].
Qed.

Lemma keeps_delete_files query collection_name :
  keeps R (delete_files query collection_name).
Proof.
  unfold delete_files. destruct (truthy collection_name) as [name|].
  - apply keeps_bind; [apply R_delete_many|]. intros total.
    apply keeps_bind; [apply keeps_second_configured|]. intros [|].
    + destruct (second_lookup name); [|apply keeps_raise].
      apply keeps_bind; [apply R_delete_many|intros; apply keeps_ret].
    + apply keeps_ret.
  - apply keeps_bind; [apply keeps_delete_each|]. intros total.
    apply keeps_bind; [apply keeps_second_configured|]. intros [|].
    + apply keeps_delete_each.
    + apply keeps_ret.
Qed.

Lemma keeps_copy_file file_id from_collection to_collection :
  keeps R (copy_file file_id from_collection to_collection).
Proof.
  unfold copy_file.
  rewrite (first_coll from_collection), (first_coll to_collection).
  apply keeps_bind; [apply keeps_find_one|].
  intros [file|]; [|apply keeps_ret].
  apply keeps_bind; [apply keeps_datetime_now|]. intros now.
  apply keeps_try.
  - apply keeps_bind; [apply keeps_find_one|].
    intros [d|]; [apply keeps_ret|].
    apply keeps_bind; [apply R_insert_first|intros; apply keeps_ret].
  - intros e h E. inversion E. apply keeps_ret.
Qed.

End Preserved.

End Frames.

(** ** Further properties of the search *)

Module SearchFacts.

Import Catalog StoreAux StoreFacts SearchAux SearchProofs FramesAux Frames.
Import SearchFactsAux.
Local Open Scope string_scope.
Local Open Scope list_scope.
Local Open Scope Z_scope.

Lemma same_store_refl w : same_store w w.
Proof. repeat split. Qed.

Lemma same_store_trans a b c :
  same_store a b -> same_store b c -> same_store a c.
Proof. unfold same_store. intros (?&?&?) (?&?&?). repeat split; congruence. Qed.

Lemma same_store_record e w : same_store w (record e w).
Proof. repeat split. Qed.

Lemma count_matching_bound c f w :
  bound w c ->
  count_matching c f w =
  (Ok (len (filter (matches_filter f) (stored (first w) (second w) c))), w).
Proof.
  intros H. unfold count_matching, with_coll.
  rewrite (get_coll_bound w c H). reflexivity.
Qed.

Lemma len_map {A B} (g : A -> B) l : len (map g l) = len l.
Proof. unfold len. now rewrite length_map. Qed.

Lemma search_counts_loop_cons f name rest cnts w :
  second_lookup name <> None ->
  search_counts_loop f (name :: rest) cnts w =
  search_counts_loop f rest (step_counts (first w) (second w) f name cnts) w.
Proof.
  intros Hl. cbn [search_counts_loop]. unfold step_counts, partition_hits.
  rewrite (bind_ok _ _ _ _ _ (count_matching_bound _ f w (bound_first w name))).
  unfold second_configured at 1. unfold bind at 1.
  destruct (second_lookup name) as [c|] eqn:El; [|contradiction].
  destruct (second w) as [d|] eqn:E2.
  - assert (Hb : bound w c) by (intros _; rewrite E2; discriminate).
    unfold bind at 1. unfold bind at 1. rewrite (count_matching_bound _ f _ Hb).
    cbn [ret]. rewrite E2.
    now rewrite dict_get_set, dict_set_set, len_app, !len_map.
  - unfold bind at 1. cbn [ret]. now rewrite app_nil_r, len_map.
Qed.

Lemma get_search_counts_spec USE query w :
  get_search_counts USE query w =
  (Ok [("primary",
        len (partition_hits (first w) (second w)
                            (search_filter USE query) "primary"));
       ("clouds",
        len (partition_hits (first w) (second w)
                            (search_filter USE query) "clouds"));
       ("archive",
        len (partition_hits (first w) (second w)
                            (search_filter USE query) "archive"))], w).
Proof.
  unfold get_search_counts.
  rewrite !search_counts_loop_cons by discriminate. reflexivity.
Qed.

(** The result of a search in terms of the merged list and [page]. *)
Lemma get_search_results_page USE query collection_name max_results offset
      lang w :
  tests_second_collection (second w) collection_name = false ->
  exists w', same_data w' w /\
    get_search_results USE query collection_name max_results offset lang w =
    (let p := page (merged_results USE (first w) (second w) query
                                   collection_name)
                   lang max_results offset in
     Ok (mkSearchResult (fst (fst p)) (snd (fst p)) (snd p)
           (partition_counts USE (first w) (second w) query collection_name)),
     w').
Proof.
  intros Ht.
  destruct (gather_spec USE query collection_name w Ht) as (w' & Hs & E).
  exists w'. split; auto. unfold get_search_results.
  rewrite (bind_ok _ _ _ _ _ E). cbn [fst snd].
  destruct (page _ lang max_results offset) as [[a b] c]. reflexivity.
Qed.

(** X8.  [get_search_counts] never fails, changes nothing, and returns
    for each of the three names the number of matching records of its
    collection in the first database plus those of its collection in
    the second; these are the very counts a search of every collection
    returns with its page. *)
Theorem X8_search_counts_agree_with_search :
  forall USE query max_results offset lang w,
  exists cnts r w',
    get_search_counts USE query w = (Ok cnts, w) /\
    get_search_results USE query None max_results offset lang w = (Ok r, w') /\
    counts r = Some cnts /\
    forall name, In name ["primary"; "clouds"; "archive"] ->
      dict_get name cnts =
      len (filter (matches_filter (search_filter USE query))
                  (stored (first w) (second w) (get_collection_by_name name)))
      + len (filter (matches_filter (search_filter USE query))
                    (stored (first w) (second w)
                            (second_lookup_default name))).
Proof.
  intros USE query max_results offset lang w.
  destruct (get_search_results_page USE query None max_results offset lang w
              eq_refl)
    as (w' & _ & E).
  eexists; eexists; exists w'.
  split; [apply get_search_counts_spec|]. split; [exact E|].
  split; [reflexivity|].
  intros name Hn. unfold partition_hits, stored.
  destruct Hn as [<-|[<-|[<-|[]]]];
    (cbn [dict_get List.find fst snd String.eqb Ascii.eqb Bool.eqb];
     rewrite len_app, len_map;
     unfold second_lookup_default;
     cbn [second_lookup String.eqb Ascii.eqb Bool.eqb];
     destruct (second w) as [d|] eqn:E2;
     [now rewrite len_map|reflexivity]).
Qed.

Lemma len_filter_le {A} (p : A -> bool) l : len (filter p l) <= len l.
Proof. unfold len. pose proof (filter_length_le p l). lia. Qed.

Lemma page_total results lang max_results offset :
  snd (page results lang max_results offset) =
  len (language_filter lang results).
Proof.
  unfold page, language_filter. destruct (truthy lang); reflexivity.
Qed.

(** X9.  In a search of every collection the three counts add up to the
    number of matching records, whatever the page asked for.  Without a
    language the total returned is that sum; with a language the counts
    still include the records the language filter dropped, so the total
    can only be smaller. *)
Theorem X9_counts_add_up_to_total :
  forall USE query max_results offset lang w,
  exists r cnts w',
    get_search_results USE query None max_results offset lang w = (Ok r, w') /\
    counts r = Some cnts /\
    counts_sum cnts =
      len (merged_results USE (first w) (second w) query None) /\
    total_results r <= counts_sum cnts /\
    (truthy lang = None -> total_results r = counts_sum cnts).
Proof.
  intros USE query max_results offset lang w.
  destruct (get_search_results_page USE query None max_results offset lang w
              eq_refl)
    as (w' & _ & E).
  eexists; eexists; exists w'. split; [exact E|].
  split; [reflexivity|]. cbv zeta. cbn [total_results].
  rewrite page_total.
  assert (Hs : counts_sum
                 [("primary",
                   len (partition_hits (first w) (second w)
                          (search_filter USE query) "primary"));
                  ("clouds",
                   len (partition_hits (first w) (second w)
                          (search_filter USE query) "clouds"));
                  ("archive",
                   len (partition_hits (first w) (second w)
                          (search_filter USE query) "archive"))] =
               len (merged_results USE (first w) (second w) query None)).
  { unfold merged_results. cbn [truthy]. rewrite !len_app.
    unfold counts_sum. cbn. lia. }
  split; [exact Hs|]. rewrite Hs. unfold language_filter.
  destruct (truthy lang) as [l|].
  - split; [apply len_filter_le|discriminate].
  - split; [lia|reflexivity].
Qed.

Lemma matches_tag f name d :
  matches_filter f (tag_source name d) = matches_filter f d.
Proof. destruct f; reflexivity. Qed.

(** Where a record of a partition's hits comes from. *)
Lemma partition_hits_In d1 d2 f name d :
  In d (partition_hits d1 d2 f name) ->
  exists c d0,
    d = tag_source name d0 /\
    In d0 (stored d1 d2 c) /\
    matches_filter f d0 = true /\
    (c = get_collection_by_name name \/ second_lookup name = Some c).
Proof.
  unfold partition_hits. intros H. apply in_app_or in H as [H|H].
  - apply in_map_iff in H as (d0 & <- & H). apply filter_In in H as [Hin Hm].
    exists (get_collection_by_name name), d0. auto.
  - destruct d2 as [db|]; [|destruct H].
    destruct (second_lookup name) as [c|]; [|destruct H].
    apply in_map_iff in H as (d0 & <- & H). apply filter_In in H as [Hin Hm].
    exists c, d0. auto.
Qed.

Lemma In_of_skipn {A} n (l : list A) x : In x (skipn n l) -> In x l.
Proof.
  intros H. rewrite <- (firstn_skipn n l). apply in_or_app. now right.
Qed.

Lemma In_of_firstn {A} n (l : list A) x : In x (firstn n l) -> In x l.
Proof.
  intros H. rewrite <- (firstn_skipn n l). apply in_or_app. now left.
Qed.

Lemma slice_from_In {A} (l : list A) o x : In x (slice_from l o) -> In x l.
Proof. unfold slice_from. destruct (0 <=? o); apply In_of_skipn. Qed.

Lemma slice_to_In {A} (l : list A) m x : In x (slice_to l m) -> In x l.
Proof. unfold slice_to. destruct (0 <=? m); apply In_of_firstn. Qed.

Lemma page_files_In results lang max_results offset d :
  In d (fst (fst (page results lang max_results offset))) ->
  In d (language_filter lang results).
Proof.
  unfold page, language_filter. destruct (truthy lang); cbn [fst];
    intros H; apply slice_to_In, slice_from_In in H; exact H.
Qed.

(** X10.  What a search returns, for every offset and limit, negative
    ones included.  A search of ['primary'], ['clouds'] or ['archive']
    by name while a second database is configured raises
    [NotImplementedError], at the truth test of a collection in
    [if second_col:].  Every other search returns a page, and every
    file of the page is a stored record that matches the query, tagged
    in [source_collection] with the name it was searched under: the
    name passed, even one that is no collection, or one of the three
    names when every collection is searched.  With a language, every
    file of the page has it in its lowercased name. *)
Theorem X10_page_holds_tagged_matches :
  forall USE query collection_name max_results offset lang w,
  exists res w',
    get_search_results USE query collection_name max_results offset lang w =
      (res, w') /\
    if tests_second_collection (second w) collection_name then
      res = Raise NotImplementedError
    else
      exists r,
        res = Ok r /\
        forall d, In d (files r) ->
          matches_filter (search_filter USE query) d = true /\
          (forall l, truthy lang = Some l -> lang_in_name l d = true) /\
          exists name c d0,
            source_collection d = Some name /\
            match truthy collection_name with
            | Some n => name = n
            | None => In name ["primary"; "clouds"; "archive"]
            end /\
            d = tag_source name d0 /\
            In d0 (stored (first w) (second w) c) /\
            (c = get_collection_by_name name \/ second_lookup name = Some c).
Proof.
  intros USE query collection_name max_results offset lang w.
  destruct (tests_second_collection (second w) collection_name) eqn:Ht.
  { destruct (get_search_results_raises USE query collection_name max_results
                offset lang w Ht) as (w' & _ & E).
    eexists; exists w'. split; [exact E|reflexivity]. }
  destruct (get_search_results_page USE query collection_name max_results
              offset lang w Ht) as (w' & _ & E).
  eexists; exists w'. split; [exact E|]. eexists. split; [reflexivity|].
  cbv zeta. cbn [files].
  intros d Hd. apply page_files_In in Hd.
  assert (Hm : In d (merged_results USE (first w) (second w) query
                                    collection_name)).
  { unfold language_filter in Hd. destruct (truthy lang);
      [now apply filter_In in Hd|exact Hd]. }
  assert (Hl : forall l, truthy lang = Some l -> lang_in_name l d = true).
  { intros l El. unfold language_filter in Hd. rewrite El in Hd.
    now apply filter_In in Hd. }
  assert (Hp : exists name,
             match truthy collection_name with
             | Some n => name = n
             | None => In name ["primary"; "clouds"; "archive"]
             end /\
             In d (partition_hits (first w) (second w)
                                  (search_filter USE query) name)).
  { unfold merged_results in Hm. destruct (truthy collection_name) as [n|].
    - exists n. auto.
    - apply in_app_or in Hm as [Hm|Hm]; [exists "primary"; simpl; auto|].
      apply in_app_or in Hm as [Hm|Hm]; [exists "clouds"; simpl; auto|].
      exists "archive". simpl. auto. }
  destruct Hp as (name & Hname & Hin).
  apply partition_hits_In in Hin as (c & d0 & -> & Hin & Hmatch & Hc).
  split; [now rewrite matches_tag|]. split; [exact Hl|].
  exists name, c, d0. repeat split; auto.
Qed.

(** X11.  The reading operations change neither database nor the
    clock, whether they return or raise: the search, the search counts,
    the lookup by key, and the three counting helpers. *)
Theorem X11_reads_change_nothing :
  (forall USE query collection_name max_results offset lang,
      keeps same_store
        (get_search_results USE query collection_name max_results offset
                            lang)) /\
  (forall USE query, keeps same_store (get_search_counts USE query)) /\
  (forall key, keeps same_store (get_file_details key)) /\
  (forall name, keeps same_store (db_count_documents name)) /\
  keeps same_store get_all_counts /\
  keeps same_store get_all_collections.
Proof.
  pose proof same_store_refl as Hr.
  pose proof same_store_trans as Ht.
  pose proof same_store_record as He.
  split; [|split; [|split; [|split; [|split]]]].
  - intros. now apply keeps_get_search_results.
  - intros. unfold get_search_counts. now apply keeps_search_counts_loop.
  - intros. now apply keeps_get_file_details.
  - intros. unfold db_count_documents. now apply keeps_count_documents.
  - now apply keeps_get_all_counts.
  - now apply keeps_get_all_collections.
Qed.

Lemma skipn_all_nil {A} (l : list A) n :
  (List.length l <= n)%nat -> skipn n l = [].
Proof. intros H. now apply skipn_all2. Qed.

Lemma follow_pages_from USE query collection_name lang max_results sel :
  0 < max_results ->
  forall fuel offset w,
    tests_second_collection (second w) collection_name = false ->
    language_filter lang
      (merged_results USE (first w) (second w) query collection_name) = sel ->
    0 <= offset ->
    len sel <= offset + Z.of_nat fuel * max_results ->
    follow_pages fuel USE query collection_name lang max_results offset w =
    skipn (Z.to_nat offset) sel.
Proof.
  intros Hpos. induction fuel as [|fuel IH];
    intros offset w Ht Hsel Ho Hfuel.
  - cbn [follow_pages]. symmetry. apply skipn_all_nil.
    unfold len in Hfuel. lia.
  - cbn [follow_pages].
    destruct (get_search_results_spec USE query collection_name max_results
                offset lang w Ht Ho) as (w' & [Hs1 Hs2] & E); [lia|].
    rewrite E. cbv zeta. cbn [files next_offset]. rewrite Hsel.
    destruct (offset + max_results >=? len sel) eqn:Ege.
    + rewrite app_nil_r. apply firstn_all2.
      rewrite length_skipn. unfold len in Ege.
      apply Z.geb_le in Ege. lia.
    + rewrite (IH (offset + max_results) w').
      * replace (Z.to_nat (offset + max_results))
          with (Z.to_nat max_results + Z.to_nat offset)%nat by lia.
        rewrite <- skipn_skipn. apply firstn_skipn.
      * now rewrite Hs2.
      * now rewrite Hs1, Hs2.
      * lia.
      * lia.
Qed.

(** X12.  Paging with a positive limit is complete and without
    repetition, for every search that returns pages (every search but
    one of ['primary'], ['clouds'] or ['archive'] by name with a second
    database configured, which raises): a caller that starts at offset
    0 and follows [next_offset] until the search returns none has
    collected, in order, exactly the merged (and language-filtered)
    result list.  With limit 0 and an offset below the total the page
    is empty and [next_offset] is the offset asked for, so such a
    caller makes no progress. *)
Theorem X12_following_next_offset_lists_everything :
  (forall USE query collection_name lang max_results fuel w,
      tests_second_collection (second w) collection_name = false ->
      0 < max_results ->
      let selected :=
        language_filter lang
          (merged_results USE (first w) (second w) query collection_name) in
      len selected <= Z.of_nat fuel ->
      follow_pages fuel USE query collection_name lang max_results 0 w =
      selected) /\
  (forall USE query collection_name lang offset w,
      tests_second_collection (second w) collection_name = false ->
      let selected :=
        language_filter lang
          (merged_results USE (first w) (second w) query collection_name) in
      0 <= offset < len selected ->
      exists r w',
        get_search_results USE query collection_name 0 offset lang w =
          (Ok r, w') /\
        files r = [] /\ next_offset r = Some offset).
Proof.
  split.
  - intros USE query collection_name lang max_results fuel w Ht Hpos selected
           Hfuel.
    rewrite (follow_pages_from USE query collection_name lang max_results
               selected Hpos fuel 0 w Ht eq_refl); [reflexivity|lia|].
    unfold len in *. nia.
  - intros USE query collection_name lang offset w Ht selected Ho.
    destruct (get_search_results_spec USE query collection_name 0 offset
                lang w Ht) as (w' & _ & E); try lia.
    eexists; exists w'. split; [exact E|]. cbv zeta. cbn [files next_offset].
    fold selected. split; [reflexivity|].
    rewrite Z.add_0_r.
    destruct (offset >=? len selected) eqn:Ege; [|reflexivity].
    apply Z.geb_le in Ege. lia.
Qed.

Lemma X12_following_next_offset_witness :
  follow_pages 3 false "movie" (Some "primary") None 2 0 three_world =
  [tag_source "primary" (named_doc "k1" "movie one");
   tag_source "primary" (named_doc "k2" "movie two");
   tag_source "primary" (named_doc "k3" "movie three")].
Proof.
  rewrite (proj1 X12_following_next_offset_lists_everything
             false "movie" (Some "primary") None 2 3%nat three_world).
  - vm_compute. reflexivity.
  - reflexivity.
  - lia.
  - vm_compute. discriminate.
Defined.

End SearchFacts.

(** ** Invariants of the writing operations *)

Module WriteInvariants.

Import Catalog StoreAux StoreFacts ReorganizeAux ReorganizeProofs BulkAux.
Import BulkProofs FramesAux Frames WriteInvariantsAux.
Local Open Scope string_scope.
Local Open Scope list_scope.
Local Open Scope Z_scope.

(** *** The three writing primitives, collection by collection *)

Lemma insert_one_stored c doc w c' :
  let w' := snd (insert_one c doc w) in
  coll_at (first w') (second w') c' = coll_at (first w) (second w) c' \/
  (c' = c /\
   has_id (_id doc) (stored (first w) (second w) c) = false /\
   coll_at (first w') (second w') c' =
     mkCollection (stored (first w) (second w) c ++ [doc])
                  (full (first w) (second w) c)).
Proof.
  unfold insert_one, with_coll.
  destruct (get_coll (record (EvInsertOne c doc) w) c) as [col|] eqn:G;
    [|now left].
  apply get_coll_some in G as [Hb ->]. cbn [first second record] in *.
  fold (full (first w) (second w) c) (stored (first w) (second w) c).
  destruct (full (first w) (second w) c); [now left|].
  destruct (has_id (_id doc) (stored (first w) (second w) c)) eqn:Eh;
    [now left|].
  cbn [snd]. rewrite (coll_at_set_coll _ _ _ _ Hb). cbn [first second record].
  destruct (coll_eqb c c') eqn:Ec; [|now left].
  apply coll_eqb_eq in Ec. subst c'. right. auto.
Qed.

Lemma delete_one_stored c key w c' :
  let w' := snd (delete_one c key w) in
  coll_at (first w') (second w') c' = coll_at (first w) (second w) c' \/
  (c' = c /\
   coll_at (first w') (second w') c' =
     mkCollection (remove_first key (stored (first w) (second w) c))
                  (full (first w) (second w) c)).
Proof.
  unfold delete_one, with_coll.
  destruct (get_coll (record (EvDeleteOne c key) w) c) as [col|] eqn:G;
    [|now left].
  apply get_coll_some in G as [Hb ->]. cbn [first second record] in *.
  cbn [snd]. rewrite (coll_at_set_coll _ _ _ _ Hb). cbn [first second record].
  destruct (coll_eqb c c') eqn:Ec; [|now left].
  apply coll_eqb_eq in Ec. subst c'. right. auto.
Qed.

Lemma delete_many_stored c f w c' :
  let w' := snd (delete_many c f w) in
  coll_at (first w') (second w') c' = coll_at (first w) (second w) c' \/
  (c' = c /\
   coll_at (first w') (second w') c' =
     mkCollection (filter (fun d => negb (matches_filter f d))
                          (stored (first w) (second w) c))
                  (full (first w) (second w) c)).
Proof.
  unfold delete_many, with_coll.
  destruct (get_coll w c) as [col|] eqn:G; [|now left].
  apply get_coll_some in G as [Hb ->].
  cbn [snd]. rewrite (coll_at_set_coll _ _ _ _ Hb).
  destruct (coll_eqb c c') eqn:Ec; [|now left].
  apply coll_eqb_eq in Ec. subst c'. right. auto.
Qed.

(** *** Keys stay unique *)

Lemma keeps_unique_refl w : keeps_unique w w.
Proof. intros H. exact H. Qed.

Lemma keeps_unique_trans a b c :
  keeps_unique a b -> keeps_unique b c -> keeps_unique a c.
Proof. unfold keeps_unique. auto. Qed.

Lemma keeps_unique_record e w : keeps_unique w (record e w).
Proof. intros H. exact H. Qed.

Lemma keeps_unique_tick w : keeps_unique w (tick w).
Proof. intros H. exact H. Qed.

Lemma NoDup_ids_snoc l doc :
  NoDup (map _id l) -> has_id (_id doc) l = false ->
  NoDup (map _id (l ++ [doc])).
Proof.
  intros Hnd Hh. rewrite map_app. cbn [map].
  apply NoDup_app; [exact Hnd|repeat constructor; intros []|].
  intros k Hk [<-|[]]. apply in_map_iff in Hk as (d & E & Hd).
  assert (has_id (_id doc) l = true) by (apply has_id_In; eauto).
  congruence.
Qed.

Lemma keeps_unique_insert c doc : keeps keeps_unique (insert_one c doc).
Proof.
  intros w Hu c'. unfold stored.
  destruct (insert_one_stored c doc w c') as [->|(-> & Hh & ->)];
    [apply Hu|]. cbn [docs].
  apply NoDup_ids_snoc; [apply Hu|exact Hh].
Qed.

Lemma keeps_unique_delete c key : keeps keeps_unique (delete_one c key).
Proof.
  intros w Hu c'. unfold stored.
  destruct (delete_one_stored c key w c') as [->|(-> & ->)]; [apply Hu|].
  cbn [docs]. apply NoDup_remove_first, Hu.
Qed.

Lemma keeps_unique_delete_many c f : keeps keeps_unique (delete_many c f).
Proof.
  intros w Hu c'. unfold stored.
  destruct (delete_many_stored c f w c') as [->|(-> & ->)]; [apply Hu|].
  cbn [docs]. apply NoDup_map_filter, Hu.
Qed.

(** X13.  Uniqueness of [_id] within every collection is an invariant
    of the writing operations: if no collection holds two records with
    one key, none does after [save_file], [move_file], [copy_file],
    [bulk_move_files] or [delete_files], whatever they return or raise. *)
Theorem X13_keys_stay_unique :
  (forall decode media collection_name w,
      unique_ids w ->
      unique_ids (snd (save_file decode media collection_name w))) /\
  (forall file_id from_collection to_collection w,
      unique_ids w ->
      unique_ids (snd (move_file file_id from_collection to_collection w))) /\
  (forall file_id from_collection to_collection w,
      unique_ids w ->
      unique_ids (snd (copy_file file_id from_collection to_collection w))) /\
  (forall query from_collection to_collection w,
      unique_ids w ->
      unique_ids
        (snd (bulk_move_files query from_collection to_collection w))) /\
  (forall query collection_name w,
      unique_ids w ->
      unique_ids (snd (delete_files query collection_name w))).
Proof.
  pose proof keeps_unique_refl as Hr.
  pose proof keeps_unique_trans as Ht.
  pose proof keeps_unique_record as He.
  pose proof keeps_unique_tick as Hk.
  pose proof keeps_unique_insert as Hi.
  pose proof keeps_unique_delete as Hd.
  pose proof keeps_unique_delete_many as Hm.
  split; [|split; [|split; [|split]]].
  - intros decode media name w.
    now apply (keeps_save_file keeps_unique).
  - intros file_id A B w.
    apply (keeps_move_file keeps_unique); auto.
  - intros file_id A B w.
    apply (keeps_copy_file keeps_unique); auto.
  - intros query A B w.
    apply (keeps_bulk_move_files keeps_unique); auto.
  - intros query name w.
    now apply (keeps_delete_files keeps_unique).
Qed.

Lemma unique_split_world : unique_ids split_world.
Proof.
  intros [[|] [| |]]; cbn; repeat constructor; cbn; intuition discriminate.
Qed.

Lemma X13_keys_stay_unique_witness :
  unique_ids (snd (move_file "k1" "primary" "clouds" split_world)).
Proof.
  apply (proj1 (proj2 X13_keys_stay_unique)). exact unique_split_world.
Defined.

(** *** Appending only *)

Lemma only_appends_refl w : only_appends w w.
Proof. intros c. exists []. now rewrite app_nil_r. Qed.

Lemma only_appends_trans a b c :
  only_appends a b -> only_appends b c -> only_appends a c.
Proof.
  intros H1 H2 col. destruct (H1 col) as [x Hx]. destruct (H2 col) as [y Hy].
  exists (x ++ y). now rewrite Hy, Hx, app_assoc.
Qed.

Lemma only_appends_record e w : only_appends w (record e w).
Proof. exact (only_appends_refl w). Qed.

Lemma only_appends_tick w : only_appends w (tick w).
Proof. exact (only_appends_refl w). Qed.

Lemma only_appends_insert c doc : keeps only_appends (insert_one c doc).
Proof.
  intros w c'. unfold stored.
  destruct (insert_one_stored c doc w c') as [->|(-> & Hh & ->)].
  - exists []. now rewrite app_nil_r.
  - cbn [docs]. now exists [doc].
Qed.

(** X14.  [save_file] and [copy_file] only ever append: after either,
    whatever it returned or raised, every collection of both databases
    still starts with the records it held, unchanged and in the same
    order. *)
Theorem X14_save_and_copy_only_append :
  (forall decode media collection_name w,
      only_appends w (snd (save_file decode media collection_name w))) /\
  (forall file_id from_collection to_collection w,
      only_appends w
        (snd (copy_file file_id from_collection to_collection w))).
Proof.
  pose proof only_appends_refl as Hr.
  pose proof only_appends_trans as Ht.
  pose proof only_appends_record as He.
  pose proof only_appends_tick as Hk.
  pose proof only_appends_insert as Hi.
  split.
  - intros decode media name. now apply (keeps_save_file only_appends).
  - intros file_id A B. apply (keeps_copy_file only_appends); auto.
Qed.

(** *** The second database is out of reach of move and copy *)

Lemma same_second_refl w : same_second w w.
Proof. reflexivity. Qed.

Lemma same_second_trans a b c :
  same_second a b -> same_second b c -> same_second a c.
Proof. unfold same_second. congruence. Qed.

Lemma same_second_record e w : same_second w (record e w).
Proof. reflexivity. Qed.

Lemma same_second_tick w : same_second w (tick w).
Proof. reflexivity. Qed.

Lemma same_second_insert slot doc :
  keeps same_second (insert_one (FirstDb, slot) doc).
Proof.
  intros w. unfold same_second, insert_one, with_coll, get_coll.
  cbn [fst snd].
  destruct (quota_exceeded _); [reflexivity|].
  destruct (has_id _ _); reflexivity.
Qed.

Lemma same_second_delete slot key :
  keeps same_second (delete_one (FirstDb, slot) key).
Proof. intros w. reflexivity. Qed.

Lemma blind_ret {A} (a : A) : blind (ret a).
Proof. intros w1 w2 H. split; [reflexivity|exact H]. Qed.

Lemma blind_bind {A B} (m : M A) (k : A -> M B) :
  blind m -> (forall a, blind (k a)) -> blind (bind m k).
Proof.
  intros Hm Hk w1 w2 H. unfold bind. destruct (Hm w1 w2 H) as [E Ha].
  destruct (m w1) as [[a1|e1] u1], (m w2) as [[a2|e2] u2];
    cbn [fst snd] in *; try discriminate E.
  - inversion E. subst a2. now apply Hk.
  - inversion E. split; [reflexivity|assumption].
Qed.

Lemma blind_try {A} (m : M A) handler :
  blind m -> (forall e h, handler e = Some h -> blind h) ->
  blind (try_except m handler).
Proof.
  intros Hm Hh w1 w2 H. unfold try_except. destruct (Hm w1 w2 H) as [E Ha].
  destruct (m w1) as [[a1|e1] u1], (m w2) as [[a2|e2] u2];
    cbn [fst snd] in *; try discriminate E.
  - split; assumption.
  - inversion E. subst e2.
    destruct (handler e1) as [h|] eqn:Eh; [|split; assumption].
    now apply (Hh e1 h Eh).
Qed.

Lemma blind_datetime_now : blind datetime_now.
Proof.
  intros w1 w2 [H1 H2]. unfold datetime_now, agree. cbn. rewrite H1, H2.
  auto.
Qed.

Lemma blind_find slot f : blind (find (FirstDb, slot) f).
Proof.
  intros w1 w2 [H1 H2]. unfold find, with_coll, get_coll, agree. cbn.
  rewrite H1, H2. auto.
Qed.

Lemma blind_find_one slot key : blind (find_one (FirstDb, slot) key).
Proof.
  intros w1 w2 [H1 H2]. unfold find_one, with_coll, get_coll, agree. cbn.
  rewrite H1, H2. auto.
Qed.

Lemma blind_insert_one slot doc : blind (insert_one (FirstDb, slot) doc).
Proof.
  intros w1 w2 [H1 H2]. unfold insert_one, with_coll, get_coll, agree.
  cbn [fst snd first record]. rewrite H1.
  destruct (quota_exceeded _); [cbn; auto|].
  destruct (has_id _ _); cbn; rewrite ?H1; auto.
Qed.

Lemma blind_delete_one slot key : blind (delete_one (FirstDb, slot) key).
Proof.
  intros w1 w2 [H1 H2]. unfold delete_one, with_coll, get_coll, agree.
  cbn. rewrite H1. auto.
Qed.

Lemma blind_move_file file_id from_collection to_collection :
  blind (move_file file_id from_collection to_collection).
Proof.
  unfold move_file.
  rewrite (first_coll from_collection), (first_coll to_collection).
  apply blind_bind; [apply blind_find_one|].
  intros [file|]; [|apply blind_ret].
  apply blind_bind; [apply blind_datetime_now|]. intros now.
  apply blind_try.
  - apply blind_bind; [apply blind_insert_one|]. intros _.
    apply blind_bind; [apply blind_delete_one|intros; apply blind_ret].
  - intros e h E. inversion E. apply blind_ret.
Qed.

Lemma blind_copy_file file_id from_collection to_collection :
  blind (copy_file file_id from_collection to_collection).
Proof.
  unfold copy_file.
  rewrite (first_coll from_collection), (first_coll to_collection).
  apply blind_bind; [apply blind_find_one|].
  intros [file|]; [|apply blind_ret].
  apply blind_bind; [apply blind_datetime_now|]. intros now.
  apply blind_try.
  - apply blind_bind; [apply blind_find_one|].
    intros [d|]; [apply blind_ret|].
    apply blind_bind; [apply blind_insert_one|intros; apply blind_ret].
  - intros e h E. inversion E. apply blind_ret.
Qed.

Lemma blind_bulk_move_loop fs ts to_collection files : forall moved_count,
  blind (bulk_move_loop files (FirstDb, fs) (FirstDb, ts) to_collection
                        moved_count).
Proof.
  induction files as [|file files IH]; intros moved_count;
    cbn [bulk_move_loop]; [apply blind_ret|].
  apply blind_bind; [apply blind_datetime_now|]. intros now.
  apply blind_bind; [|intros; apply IH].
  apply blind_try.
  - apply blind_bind; [apply blind_insert_one|]. intros _.
    apply blind_bind; [apply blind_delete_one|intros; apply blind_ret].
  - intros e h E. destruct e; inversion E. apply blind_ret.
Qed.

Lemma blind_bulk_move_files query from_collection to_collection :
  blind (bulk_move_files query from_collection to_collection).
Proof.
  unfold bulk_move_files.
  rewrite (first_coll from_collection), (first_coll to_collection).
  apply blind_bind; [apply blind_find|].
  intros files. apply blind_bulk_move_loop.
Qed.

(** X15.  [move_file], [copy_file] and [bulk_move_files] work on the
    first database only.  They never change the second database, and
    what they return, and leave in the first database, does not depend
    on the second: a record that lives only there is neither found nor
    moved, whatever name is passed. *)
Theorem X15_second_database_is_out_of_reach :
  (forall file_id from_collection to_collection w,
      second (snd (move_file file_id from_collection to_collection w)) =
      second w) /\
  (forall file_id from_collection to_collection w,
      second (snd (copy_file file_id from_collection to_collection w)) =
      second w) /\
  (forall query from_collection to_collection w,
      second (snd (bulk_move_files query from_collection to_collection w)) =
      second w) /\
  (forall file_id from_collection to_collection w1 w2,
      first w1 = first w2 -> clock w1 = clock w2 ->
      fst (move_file file_id from_collection to_collection w1) =
      fst (move_file file_id from_collection to_collection w2) /\
      first (snd (move_file file_id from_collection to_collection w1)) =
      first (snd (move_file file_id from_collection to_collection w2))) /\
  (forall file_id from_collection to_collection w1 w2,
      first w1 = first w2 -> clock w1 = clock w2 ->
      fst (copy_file file_id from_collection to_collection w1) =
      fst (copy_file file_id from_collection to_collection w2) /\
      first (snd (copy_file file_id from_collection to_collection w1)) =
      first (snd (copy_file file_id from_collection to_collection w2))) /\
  (forall query from_collection to_collection w1 w2,
      first w1 = first w2 -> clock w1 = clock w2 ->
      fst (bulk_move_files query from_collection to_collection w1) =
      fst (bulk_move_files query from_collection to_collection w2) /\
      first (snd (bulk_move_files query from_collection to_collection w1)) =
      first (snd (bulk_move_files query from_collection to_collection w2))).
Proof.
  pose proof same_second_refl as Hr.
  pose proof same_second_trans as Ht.
  pose proof same_second_record as He.
  pose proof same_second_tick as Hk.
  pose proof same_second_insert as Hi.
  pose proof same_second_delete as Hd.
  split; [|split; [|split; [|split; [|split]]]].
  - intros file_id A B w. apply (keeps_move_file same_second); auto.
  - intros file_id A B w. apply (keeps_copy_file same_second); auto.
  - intros query A B w. apply (keeps_bulk_move_files same_second); auto.
  - intros file_id A B w1 w2 H1 H2.
    destruct (blind_move_file file_id A B w1 w2 (conj H1 H2)) as [E [F _]].
    auto.
  - intros file_id A B w1 w2 H1 H2.
    destruct (blind_copy_file file_id A B w1 w2 (conj H1 H2)) as [E [F _]].
    auto.
  - intros query A B w1 w2 H1 H2.
    destruct (blind_bulk_move_files query A B w1 w2 (conj H1 H2))
      as [E [F _]].
    auto.
Qed.

Lemma X15_second_database_witness :
  fst (move_file "k3" "clouds" "primary" split_world) =
  fst (move_file "k3" "clouds" "primary"
         (mkWorld (first split_world) None 0 [])) /\
  first (snd (move_file "k3" "clouds" "primary" split_world)) =
  first (snd (move_file "k3" "clouds" "primary"
                (mkWorld (first split_world) None 0 []))).
Proof.
  apply (proj1 (proj2 (proj2 (proj2 X15_second_database_is_out_of_reach)))
           "k3" "clouds" "primary" split_world
           (mkWorld (first split_world) None 0 []));
    reflexivity.
Defined.

End WriteInvariants.

(** ** Looking a record up by key *)

Module LookupFacts.

Import Catalog StoreAux StoreFacts SearchAux SearchProofs SaveAux SaveProofs.
Import ReorganizeAux ReorganizeProofs BulkAux BulkProofs LookupFactsAux.
Import FramesAux Frames LookupFactsAux.
Local Open Scope string_scope.
Local Open Scope list_scope.
Local Open Scope Z_scope.

Lemma scan_app d1 d2 a b key :
  scan d1 d2 (a ++ b) key =
  match scan d1 d2 a key with
  | Some d => Some d
  | None => scan d1 d2 b key
  end.
Proof.
  induction a as [|c a IH]; cbn [app scan]; [reflexivity|].
  destruct (List.find (by_id key) (stored d1 d2 c)); [reflexivity|exact IH].
Qed.

Lemma scan_some d1 d2 cols key d :
  scan d1 d2 cols key = Some d ->
  _id d = key /\ exists c, In c cols /\ In d (stored d1 d2 c).
Proof.
  induction cols as [|c cols IH]; cbn [scan]; [discriminate|].
  destruct (List.find (by_id key) (stored d1 d2 c)) as [x|] eqn:E.
  - intros H. inversion H. subst x. apply find_by_id in E as [Hk Hin].
    split; [exact Hk|]. exists c. split; [now left|exact Hin].
  - intros H. destruct (IH H) as (Hk & c' & Hc & Hin).
    split; [exact Hk|]. exists c'. split; [now right|exact Hin].
Qed.

Lemma scan_none d1 d2 cols key :
  scan d1 d2 cols key = None <->
  forall c, In c cols -> has_id key (stored d1 d2 c) = false.
Proof.
  induction cols as [|c cols IH]; cbn [scan].
  - split; [intros _ c []|reflexivity].
  - destruct (List.find (by_id key) (stored d1 d2 c)) as [x|] eqn:E.
    + split; [discriminate|]. intros H.
      assert (Ht : has_id key (stored d1 d2 c) = true)
        by (apply has_id_find; eauto).
      rewrite (H c) in Ht by now left. discriminate.
    + rewrite IH. split.
      * intros H c' [<-|Hc]; [|now apply H].
        destruct (has_id key (stored d1 d2 c)) eqn:Eh; [|reflexivity].
        apply has_id_find in Eh as [x Hx]. congruence.
      * intros H c' Hc. apply H. now right.
Qed.

Lemma every_collection_is_visited c : In c lookup_order.
Proof. destruct c as [[|] [| |]]; cbn; auto 7. Qed.

(** [get_file_details] is the scan of the six collections. *)
Lemma get_file_details_scan key w :
  exists w', same_data w' w /\
    get_file_details key w =
    (Ok (scan (first w) (second w) lookup_order key), w').
Proof.
  unfold get_file_details, lookup_order.
  change [primary_collection; clouds_collection; archive_collection;
          second_primary; second_clouds; second_archive]
    with ([primary_collection; clouds_collection; archive_collection] ++
          [second_primary; second_clouds; second_archive]).
  rewrite scan_app.
  destruct (first_hit_scan
              [primary_collection; clouds_collection; archive_collection]
              key w) as (w1 & H1 & H2 & E).
  { repeat constructor; intros Hc; discriminate Hc. }
  unfold bind at 1. rewrite E.
  destruct (scan (first w) (second w)
              [primary_collection; clouds_collection; archive_collection]
              key) as [d|].
  - exists w1. split; [split; assumption|reflexivity].
  - unfold bind, second_configured. rewrite H2.
    destruct (second w) as [db|] eqn:E2.
    + destruct (first_hit_scan [second_primary; second_clouds; second_archive]
                  key w1) as (w2 & H3 & H4 & E').
      { repeat constructor; intros _; rewrite H2; discriminate. }
      exists w2. split; [split; congruence|].
      rewrite E', H1, H2. reflexivity.
    + exists w1. split; [split; congruence|]. reflexivity.
Qed.

(** X16.  [get_file_details] never fails.  It returns nothing exactly
    when no collection of either database holds the key; what it
    returns is a stored record with that key; and a record of the
    primary collection is preferred to every other. *)
Theorem X16_lookup_finds_exactly_the_stored_keys :
  forall key w,
  exists r w',
    get_file_details key w = (Ok r, w') /\
    match r with
    | Some d =>
        _id d = key /\ exists c, In d (stored (first w) (second w) c)
    | None =>
        forall c, has_id key (stored (first w) (second w) c) = false
    end /\
    (forall d,
        List.find (by_id key)
                  (stored (first w) (second w) primary_collection) = Some d ->
        r = Some d).
Proof.
  intros key w. destruct (get_file_details_scan key w) as (w' & _ & E).
  eexists; exists w'. split; [exact E|]. split.
  - destruct (scan (first w) (second w) lookup_order key) as [d|] eqn:Es.
    + apply scan_some in Es as (Hk & c & _ & Hin). split; [exact Hk|eauto].
    + intros c. apply (proj1 (scan_none _ _ _ _) Es).
      apply every_collection_is_visited.
  - intros d Hd. unfold lookup_order. cbn [scan]. now rewrite Hd.
Qed.

Lemma lookup_of_held_key key w c :
  has_id key (stored (first w) (second w) c) = true ->
  exists d w', get_file_details key w = (Ok (Some d), w') /\ _id d = key.
Proof.
  intros Hh. destruct (get_file_details_scan key w) as (w' & _ & E).
  destruct (scan (first w) (second w) lookup_order key) as [d|] eqn:Es.
  - exists d, w'. split; [exact E|]. now apply scan_some in Es.
  - rewrite (proj1 (scan_none _ _ _ _) Es c (every_collection_is_visited c))
      in Hh. discriminate.
Qed.

(** X17.  A file that has been saved can be looked up: when [save_file]
    returns [suc] or [dup], in the first or in the second database,
    [get_file_details] of the key it derived returns a record with
    that key.  When it returns [err], nothing was stored and both
    databases are as before. *)
Theorem X17_saved_file_can_be_looked_up :
  forall decode media collection_name w st place w',
    save_file decode media collection_name w = (Ok (st, place), w') ->
    exists key,
      Codec.unpack_new_file_id decode (media_file_id media) = Ok key /\
      match st with
      | err => first w' = first w /\ second w' = second w
      | _ =>
          exists d w'',
            get_file_details key w' = (Ok (Some d), w'') /\ _id d = key
      end.
Proof.
  intros decode media name w st place w' Hs.
  destruct (save_file_needs_key decode _ _ _ _ _ Hs) as [key U].
  exists key. split; [exact U|].
  rewrite (save_file_cases decode media name w key U) in Hs.
  cbv zeta in Hs.
  set (doc := document_of key media name (clock w)) in *.
  set (t := get_collection_by_name name) in *.
  set (s := second_lookup_default name) in *.
  assert (Hbt : forall w0, bound w0 t) by (intros w0; apply bound_first).
  assert (Hgoal : forall c,
             has_id key (stored (first w') (second w') c) = true ->
             st <> err ->
             match st with
             | err => first w' = first w /\ second w' = second w
             | _ => exists d w'',
                 get_file_details key w' = (Ok (Some d), w'') /\ _id d = key
             end).
  { intros c Hh Hne. destruct st; [| |congruence];
      exact (lookup_of_held_key key w' c Hh). }
  destruct (full (first w) (second w) t) eqn:Ft.
  - destruct (second w) as [db|] eqn:E2.
    + destruct (full (first w) (Some db) s) eqn:Fs; [discriminate|].
      destruct (has_id key (stored (first w) (Some db) s)) eqn:Hh.
      * inversion Hs; subst st place w'. apply (Hgoal s); [|discriminate].
        cbn [first second record tick]. now rewrite E2.
      * inversion Hs; subst st place w'. apply (Hgoal s); [|discriminate].
        unfold stored. rewrite coll_at_set_coll, coll_eqb_refl.
        -- cbn [docs]. apply (has_id_snoc doc).
        -- intros _. cbn [second record tick]. rewrite E2. discriminate.
    + inversion Hs; subst st place w'. cbn [first second record tick].
      auto.
  - destruct (has_id key (stored (first w) (second w) t)) eqn:Hh.
    + inversion Hs; subst st place w'. apply (Hgoal t); [|discriminate].
      exact Hh.
    + inversion Hs; subst st place w'. apply (Hgoal t); [|discriminate].
      unfold stored. rewrite coll_at_set_coll, coll_eqb_refl by apply Hbt.
      cbn [docs]. apply (has_id_snoc doc).
Qed.

Lemma X17_saved_file_witness :
  exists key,
    Codec.unpack_new_file_id media_decode (media_file_id sample_media) =
      Ok key /\
    exists d w'',
      get_file_details key
        (snd (save_file media_decode sample_media "clouds" empty_world)) =
        (Ok (Some d), w'') /\
      _id d = key.
Proof.
  exact (X17_saved_file_can_be_looked_up media_decode sample_media "clouds"
           empty_world suc "clouds"
           (snd (save_file media_decode sample_media "clouds" empty_world))
           eq_refl).
Defined.

End LookupFacts.

(** ** Moving and copying, composed *)

Module ReorganizeFacts.

Import Catalog StoreAux StoreFacts SearchAux SearchProofs ReorganizeAux.
Import ReorganizeProofs BulkAux BulkProofs FramesAux Frames.
Import ReorganizeFactsAux.
Local Open Scope string_scope.
Local Open Scope list_scope.
Local Open Scope Z_scope.

Lemma coll_eqb_neq a b : a <> b -> coll_eqb a b = false.
Proof.
  intros H. destruct (coll_eqb a b) eqn:E; [|reflexivity].
  apply coll_eqb_eq in E. contradiction.
Qed.

Lemma find_snoc_absent key l d :
  has_id key l = false -> _id d = key ->
  List.find (by_id key) (l ++ [d]) = Some d.
Proof.
  intros Hh Hk. rewrite find_app, (has_id_false_find _ _ Hh). cbn [List.find].
  unfold by_id. now rewrite Hk, String.eqb_refl.
Qed.

Lemma remove_first_snoc_absent key l d :
  has_id key l = false -> _id d = key -> remove_first key (l ++ [d]) = l.
Proof.
  unfold has_id. induction l as [|a l IH]; cbn [remove_first existsb app].
  - intros _ Hk. now rewrite Hk, String.eqb_refl.
  - destruct (String.eqb (_id a) key); [discriminate|].
    cbn [orb]. intros H Hk. now rewrite IH.
Qed.

(** A successful move, collection by collection. *)
Lemma move_file_success file_id from_collection to_collection w d :
  let f := get_collection_by_name from_collection in
  let t := get_collection_by_name to_collection in
  f <> t ->
  List.find (by_id file_id) (stored (first w) (second w) f) = Some d ->
  full (first w) (second w) t = false ->
  has_id file_id (stored (first w) (second w) t) = false ->
  exists w',
    move_file file_id from_collection to_collection w =
      (Ok (true, Text "File moved successfully"), w') /\
    clock w' = clock w + 1 /\
    (forall c,
        coll_at (first w') (second w') c =
        if coll_eqb f c then
          mkCollection (remove_first file_id (stored (first w) (second w) f))
                       (full (first w) (second w) f)
        else if coll_eqb t c then
          mkCollection (stored (first w) (second w) t ++
                        [set_moved to_collection (clock w) d]) false
        else coll_at (first w) (second w) c).
Proof.
  intros f t Hne Hfind Hfull Hid.
  pose proof (find_by_id _ _ _ Hfind) as [Hk _].
  rewrite move_file_cases. cbv zeta. fold f t.
  rewrite Hfind, Hfull, Hk, Hid.
  eexists. split; [reflexivity|].
  split.
  { rewrite clock_set_coll. cbn [clock record]. now rewrite clock_set_coll. }
  intros c. unfold stored, full.
  rewrite !coll_at_set_coll by apply bound_first.
  cbn [first second record tick].
  rewrite !coll_at_set_coll by apply bound_first.
  cbn [first second record tick].
  fold f t. rewrite (coll_eqb_neq t f) by congruence.
  reflexivity.
Qed.

(** X18.  A move and the move back.  When the source holds the key
    once, the target accepts writes and does not hold it, and the two
    names are different collections, [move_file] there and then back
    both succeed; the target ends exactly as it was, and the source
    holds its other records in their order followed by the record,
    which is now last, restamped, and marked with its own collection. *)
Theorem X18_move_there_and_back :
  forall file_id A B w d,
    let f := get_collection_by_name A in
    let t := get_collection_by_name B in
    f <> t ->
    List.find (by_id file_id) (stored (first w) (second w) f) = Some d ->
    NoDup (map _id (stored (first w) (second w) f)) ->
    full (first w) (second w) f = false ->
    full (first w) (second w) t = false ->
    has_id file_id (stored (first w) (second w) t) = false ->
    exists w1 w2,
      move_file file_id A B w =
        (Ok (true, Text "File moved successfully"), w1) /\
      move_file file_id B A w1 =
        (Ok (true, Text "File moved successfully"), w2) /\
      stored (first w2) (second w2) t = stored (first w) (second w) t /\
      stored (first w2) (second w2) f =
        remove_first file_id (stored (first w) (second w) f) ++
        [set_moved A (clock w + 1) (set_moved B (clock w) d)] /\
      forall c, c <> f -> c <> t ->
                coll_at (first w2) (second w2) c =
                coll_at (first w) (second w) c.
Proof.
  intros file_id A B w d f t Hne Hfind Hnd Hff Hft Hid.
  pose proof (find_by_id _ _ _ Hfind) as [Hk _].
  destruct (move_file_success file_id A B w d Hne Hfind Hft Hid)
    as (w1 & E1 & Hc1 & H1).
  fold f t in H1.
  assert (Hs1t : stored (first w1) (second w1) t =
                 stored (first w) (second w) t ++ [set_moved B (clock w) d]).
  { unfold stored at 1. rewrite H1, (coll_eqb_neq f t Hne), coll_eqb_refl.
    reflexivity. }
  assert (Hs1f : coll_at (first w1) (second w1) f =
                 mkCollection
                   (remove_first file_id (stored (first w) (second w) f))
                   (full (first w) (second w) f)).
  { rewrite H1, coll_eqb_refl. reflexivity. }
  destruct (move_file_success file_id B A w1 (set_moved B (clock w) d))
    as (w2 & E2 & Hc2 & H2).
  - fold f t. congruence.
  - fold t. rewrite Hs1t. apply find_snoc_absent; [exact Hid|exact Hk].
  - fold f. unfold full. now rewrite Hs1f.
  - fold f. unfold stored. rewrite Hs1f. cbn [docs].
    now apply has_id_remove_first.
  - fold f t in H2. exists w1, w2.
    split; [exact E1|]. split; [exact E2|].
    split; [|split].
    + unfold stored at 1. rewrite H2, coll_eqb_refl. cbn [docs].
      rewrite Hs1t. apply remove_first_snoc_absent; [exact Hid|exact Hk].
    + unfold stored at 1.
      rewrite H2, (coll_eqb_neq t f) by congruence.
      rewrite coll_eqb_refl. cbn [docs]. unfold stored at 1.
      rewrite Hs1f, Hc1. reflexivity.
    + intros c Hcf Hct.
      rewrite H2, (coll_eqb_neq t c), (coll_eqb_neq f c) by congruence.
      now rewrite H1, (coll_eqb_neq t c), (coll_eqb_neq f c) by congruence.
Qed.

Lemma X18_move_there_and_back_witness :
  exists w1 w2,
    move_file "k1" "primary" "clouds" one_in_primary =
      (Ok (true, Text "File moved successfully"), w1) /\
    move_file "k1" "clouds" "primary" w1 =
      (Ok (true, Text "File moved successfully"), w2) /\
    stored (first w2) (second w2) clouds_collection = [] /\
    stored (first w2) (second w2) primary_collection =
      [set_moved "primary" 11
         (set_moved "clouds" 10 (placed_doc "k1" "alpha one" "primary"))] /\
    forall c, c <> primary_collection -> c <> clouds_collection ->
              coll_at (first w2) (second w2) c =
              coll_at (first one_in_primary) (second one_in_primary) c.
Proof.
  apply (X18_move_there_and_back "k1" "primary" "clouds" one_in_primary
           (placed_doc "k1" "alpha one" "primary")).
  - discriminate.
  - reflexivity.
  - repeat constructor. intros [].
  - reflexivity.
  - reflexivity.
  - reflexivity.
Defined.

(** X19.  A copy stays in the way.  After [copy_file] has succeeded, a
    second copy of the same key to the same target reports that the
    file already exists, and a move of it to that target is refused by
    the store as a duplicate key; neither changes a database, so the
    record is still in the source and the one copy in the target. *)
Theorem X19_copy_blocks_later_copy_and_move :
  forall file_id A B w k m w1,
    copy_file file_id A B w = (Ok (true, k, m), w1) ->
    (exists w2,
        copy_file file_id A B w1 =
          (Ok (false, None,
               Text "File already exists in target collection"), w2) /\
        first w2 = first w1 /\ second w2 = second w1) /\
    (exists w3,
        move_file file_id A B w1 = (Ok (false, StrOf DuplicateKeyError), w3) /\
        first w3 = first w1 /\ second w3 = second w1).
Proof.
  intros file_id A B w k m w1 Hc.
  rewrite copy_file_cases in Hc. cbv zeta in Hc.
  set (f := get_collection_by_name A) in *.
  set (t := get_collection_by_name B) in *.
  destruct (List.find (by_id file_id) (stored (first w) (second w) f))
    as [d|] eqn:Hfind; [|discriminate].
  destruct (List.find (by_id file_id) (stored (first w) (second w) t))
    as [x|] eqn:Htfind; [discriminate|].
  destruct (full (first w) (second w) t) eqn:Hfull; [discriminate|].
  destruct (has_id (_id d) (stored (first w) (second w) t)) eqn:Hid;
    [discriminate|].
  pose proof (find_by_id _ _ _ Hfind) as [Hk _].
  assert (Hne : t <> f) by (intros E; rewrite E in Htfind; congruence).
  injection Hc as Hk' Hm Hw.
  set (copy := set_copied B (clock w) d) in *.
  assert (Hat : forall c,
             coll_at (first w1) (second w1) c =
             if coll_eqb t c
             then mkCollection (stored (first w) (second w) t ++ [copy]) false
             else coll_at (first w) (second w) c).
  { intros c. rewrite <- Hw. rewrite coll_at_set_coll by apply bound_first.
    reflexivity. }
  assert (Hsf : stored (first w1) (second w1) f =
                stored (first w) (second w) f).
  { unfold stored. now rewrite Hat, (coll_eqb_neq t f Hne). }
  assert (Hst : stored (first w1) (second w1) t =
                stored (first w) (second w) t ++ [copy]).
  { unfold stored at 1. now rewrite Hat, coll_eqb_refl. }
  assert (Hft : full (first w1) (second w1) t = false).
  { unfold full. now rewrite Hat, coll_eqb_refl. }
  rewrite Hk in Hid.
  split.
  - rewrite copy_file_cases. cbv zeta. fold f t.
    rewrite Hsf, Hfind, Hst.
    rewrite (find_snoc_absent file_id _ copy Hid Hk).
    eexists. split; [reflexivity|]. split; reflexivity.
  - rewrite move_file_cases. cbv zeta. fold f t.
    rewrite Hsf, Hfind, Hft, Hst, Hk, has_id_app, Hid.
    replace (has_id file_id [copy]) with true
      by (unfold has_id; cbn; now rewrite Hk, String.eqb_refl).
    cbn [orb]. eexists. split; [reflexivity|]. split; reflexivity.
Qed.

Lemma X19_copy_blocks_witness :
  (exists w2,
      copy_file "k1" "primary" "clouds"
        (snd (copy_file "k1" "primary" "clouds" one_in_primary)) =
        (Ok (false, None,
             Text "File already exists in target collection"), w2) /\
      first w2 =
        first (snd (copy_file "k1" "primary" "clouds" one_in_primary)) /\
      second w2 =
        second (snd (copy_file "k1" "primary" "clouds" one_in_primary))) /\
  (exists w3,
      move_file "k1" "primary" "clouds"
        (snd (copy_file "k1" "primary" "clouds" one_in_primary)) =
        (Ok (false, StrOf DuplicateKeyError), w3) /\
      first w3 =
        first (snd (copy_file "k1" "primary" "clouds" one_in_primary)) /\
      second w3 =
        second (snd (copy_file "k1" "primary" "clouds" one_in_primary))).
Proof.
  exact (X19_copy_blocks_later_copy_and_move "k1" "primary" "clouds"
           one_in_primary (Some "k1") (Text "File copied successfully")
           (snd (copy_file "k1" "primary" "clouds" one_in_primary))
           eq_refl).
Defined.

(** *** [bulk_move_files] at its edges *)

Lemma bulk_move_loop_same slot to_collection files : forall w count,
  full (first w) (second w) (FirstDb, slot) = false ->
  (forall d, In d files -> In d (stored (first w) (second w) (FirstDb, slot))) ->
  exists w',
    bulk_move_loop files (FirstDb, slot) (FirstDb, slot) to_collection count w
      = (Ok count, w') /\
    first w' = first w /\ second w' = second w /\
    clock w' = clock w + len files.
Proof.
  induction files as [|file rest IH]; intros w count Hfull Hsub.
  - exists w. cbn. repeat split; lia.
  - rewrite (bulk_move_loop_step slot slot to_collection file rest count w
               Hfull).
    assert (Hc : collides slot w file = true).
    { apply has_id_In. exists file. split; [|reflexivity].
      apply Hsub. now left. }
    rewrite Hc.
    destruct (IH (record (EvInsertOne (FirstDb, slot)
                            (set_moved to_collection (clock w) file))
                         (tick w)) count) as (w' & E & H1 & H2 & H3).
    + exact Hfull.
    + intros d Hd. apply Hsub. now right.
    + exists w'. split; [exact E|]. split; [exact H1|]. split; [exact H2|].
      rewrite H3. cbn [clock record tick]. unfold len.
      cbn [List.length]. lia.
Qed.

(** X20.  [bulk_move_files] between two names of one collection moves
    nothing.  Every matching record collides with itself, so the count
    returned is 0 and both databases are as before; only the clock has
    been read once per matching record.  A name that is no collection
    stands for the primary collection, so this is also what a bulk move
    from a misspelt name to ['primary'] does. *)
Theorem X20_bulk_move_within_one_collection :
  forall query A B w,
    get_collection_by_name A = get_collection_by_name B ->
    full (first w) (second w) (get_collection_by_name B) = false ->
    exists w',
      bulk_move_files query A B w = (Ok 0, w') /\
      first w' = first w /\ second w' = second w /\
      clock w' =
        clock w +
        len (filter (matches_filter (ByName (Query.build_regex query)))
                    (stored (first w) (second w) (get_collection_by_name A))).
Proof.
  intros query A B w Hsame Hfull.
  unfold bulk_move_files. rewrite Hsame in *.
  rewrite (first_coll B) in *.
  set (slot := snd (get_collection_by_name B)) in *.
  set (f := ByName (Query.build_regex query)).
  assert (Hb : forall w0, bound w0 (FirstDb, slot))
    by (intros w0 H; discriminate H).
  unfold bind. rewrite (find_bound _ f w (Hb w)).
  destruct (bulk_move_loop_same slot B
              (filter (matches_filter f)
                      (stored (first w) (second w) (FirstDb, slot)))
              (record (EvFind (FirstDb, slot) f) w) 0)
    as (w' & E & H1 & H2 & H3).
  - exact Hfull.
  - intros d Hd. now apply filter_In in Hd.
  - exists w'. split; [exact E|]. auto.
Qed.

Lemma X20_bulk_move_within_witness :
  exists w',
    bulk_move_files "alpha" "films" "primary" one_in_primary = (Ok 0, w') /\
    first w' = first one_in_primary /\ second w' = second one_in_primary /\
    clock w' =
      clock one_in_primary +
      len (filter (matches_filter (ByName (Query.build_regex "alpha")))
                  (stored (first one_in_primary) (second one_in_primary)
                          (get_collection_by_name "films"))).
Proof.
  apply (X20_bulk_move_within_one_collection "alpha" "films" "primary"
           one_in_primary); reflexivity.
Defined.

(** X21.  [bulk_move_files] into a collection that refuses writes for
    capacity.  With no matching record it returns 0; otherwise the
    store's [OperationFailure] on the first record is not caught by the
    loop, which handles duplicate keys only, and leaves the function.
    Either way nothing has been moved. *)
Theorem X21_bulk_move_into_full_target :
  forall query A B w,
    full (first w) (second w) (get_collection_by_name B) = true ->
    exists w',
      bulk_move_files query A B w =
        (match filter (matches_filter (ByName (Query.build_regex query)))
                      (stored (first w) (second w)
                              (get_collection_by_name A)) with
         | [] => Ok 0
         | _ :: _ => Raise OperationFailure
         end, w') /\
      first w' = first w /\ second w' = second w.
Proof.
  intros query A B w Hfull. unfold bulk_move_files.
  set (f := ByName (Query.build_regex query)).
  unfold bind at 1. rewrite (find_bound _ f w (bound_first w A)).
  destruct (filter (matches_filter f)
                   (stored (first w) (second w) (get_collection_by_name A)))
    as [|file rest].
  - eexists. split; [reflexivity|]. split; reflexivity.
  - cbn [bulk_move_loop]. unfold bind at 1. rewrite datetime_now_tick.
    unfold bind at 1. unfold try_except, bind at 1.
    rewrite (insert_one_bound (get_collection_by_name B) _ _
               (bound_first _ B)).
    cbv zeta. cbn [first second record tick]. rewrite Hfull.
    eexists. split; [reflexivity|]. split; reflexivity.
Qed.

Lemma X21_bulk_move_into_full_witness :
  exists w',
    bulk_move_files "movie" "primary" "clouds" clouds_full_world =
      (match filter (matches_filter (ByName (Query.build_regex "movie")))
                    (stored (first clouds_full_world)
                            (second clouds_full_world)
                            (get_collection_by_name "primary")) with
       | [] => Ok 0
       | _ :: _ => Raise OperationFailure
       end, w') /\
    first w' = first clouds_full_world /\
    second w' = second clouds_full_world.
Proof.
  apply (X21_bulk_move_into_full_target "movie" "primary" "clouds"
           clouds_full_world).
  reflexivity.
Defined.

(** X22.  Moving or copying a file onto its own collection.  When the
    two names stand for one collection that holds the key, [copy_file]
    reports that the file already exists, and [move_file] returns the
    store's refusal as its message: a duplicate key, or the capacity
    failure when the collection is over its quota.  Neither changes a
    database, so the record is not lost. *)
Theorem X22_move_or_copy_onto_own_collection :
  forall file_id A B w d,
    get_collection_by_name A = get_collection_by_name B ->
    List.find (by_id file_id)
              (stored (first w) (second w) (get_collection_by_name A))
      = Some d ->
    (exists w1,
        copy_file file_id A B w =
          (Ok (false, None,
               Text "File already exists in target collection"), w1) /\
        first w1 = first w /\ second w1 = second w) /\
    (exists w2,
        move_file file_id A B w =
          (Ok (false,
               StrOf (if full (first w) (second w) (get_collection_by_name B)
                      then OperationFailure else DuplicateKeyError)), w2) /\
        first w2 = first w /\ second w2 = second w).
Proof.
  intros file_id A B w d Hsame Hfind.
  pose proof (find_by_id _ _ _ Hfind) as [Hk Hin].
  split.
  - rewrite copy_file_cases. cbv zeta. rewrite <- Hsame, Hfind.
    eexists. split; [reflexivity|]. split; reflexivity.
  - rewrite move_file_cases. cbv zeta. rewrite <- Hsame, Hfind.
    assert (Hh : has_id (_id d)
                   (stored (first w) (second w) (get_collection_by_name A))
                 = true).
    { apply has_id_In. exists d. auto. }
    rewrite Hh.
    destruct (full (first w) (second w) (get_collection_by_name A));
      eexists; (split; [reflexivity|]); split; reflexivity.
Qed.

Lemma X22_move_or_copy_onto_own_witness :
  (exists w1,
      copy_file "k1" "primary" "films" one_in_primary =
        (Ok (false, None,
             Text "File already exists in target collection"), w1) /\
      first w1 = first one_in_primary /\
      second w1 = second one_in_primary) /\
  (exists w2,
      move_file "k1" "primary" "films" one_in_primary =
        (Ok (false,
             StrOf (if full (first one_in_primary) (second one_in_primary)
                            (get_collection_by_name "films")
                    then OperationFailure else DuplicateKeyError)), w2) /\
      first w2 = first one_in_primary /\
      second w2 = second one_in_primary).
Proof.
  apply (X22_move_or_copy_onto_own_collection "k1" "primary" "films"
           one_in_primary (placed_doc "k1" "alpha one" "primary"));
    reflexivity.
Defined.

End ReorganizeFacts.

(** ** Deleting by query *)

Module DeleteFacts.

Import Catalog StoreAux StoreFacts SearchAux SearchProofs SaveAux SaveProofs.
Import ReorganizeAux ReorganizeProofs BulkAux BulkProofs DeleteFactsAux.
Import FramesAux Frames SearchFactsAux SearchFacts LookupFactsAux LookupFacts.
Import ReorganizeFactsAux ReorganizeFacts DeleteFactsAux.
Local Open Scope string_scope.
Local Open Scope list_scope.
Local Open Scope Z_scope.

Lemma delete_many_bound c f w :
  bound w c ->
  delete_many c f w =
  (Ok (len (filter (matches_filter f) (stored (first w) (second w) c))),
   set_coll w c (purged f (coll_at (first w) (second w) c))).
Proof.
  intros H. unfold delete_many, with_coll.
  rewrite (get_coll_bound w c H). reflexivity.
Qed.

Lemma bound_set_coll w c col c' : bound w c' -> bound (set_coll w c col) c'.
Proof.
  unfold bound. intros H Hc. rewrite second_set_coll. auto.
Qed.

Lemma existsb_coll_eqb c cols :
  existsb (coll_eqb c) cols = true <-> In c cols.
Proof.
  rewrite existsb_exists. split.
  - intros (x & Hx & E). apply coll_eqb_eq in E. now subst.
  - intros H. exists c. split; [exact H|apply coll_eqb_refl].
Qed.

Lemma coll_eqb_sym a b : coll_eqb a b = coll_eqb b a.
Proof.
  destruct (coll_eqb a b) eqn:E.
  - apply coll_eqb_eq in E. subst. symmetry. apply coll_eqb_refl.
  - destruct (coll_eqb b a) eqn:E'; [|reflexivity].
    apply coll_eqb_eq in E'. subst. now rewrite coll_eqb_refl in E.
Qed.

Lemma matching_in_ext f d1 d2 e1 e2 cols :
  (forall c, In c cols -> coll_at e1 e2 c = coll_at d1 d2 c) ->
  matching_in f e1 e2 cols = matching_in f d1 d2 cols.
Proof.
  induction cols as [|c cols IH]; intros H; cbn [matching_in]; [reflexivity|].
  unfold stored at 1. rewrite (H c) by now left.
  fold (stored d1 d2 c). rewrite IH; [reflexivity|].
  intros c' Hc'. apply H. now right.
Qed.

(** The loop of [delete_files] over distinct collections. *)
Lemma delete_each_spec f cols : forall w total,
  NoDup cols ->
  (forall c, In c cols -> bound w c) ->
  exists w',
    delete_each cols f total w =
      (Ok (total + matching_in f (first w) (second w) cols), w') /\
    (forall c,
        coll_at (first w') (second w') c =
        if existsb (coll_eqb c) cols
        then purged f (coll_at (first w) (second w) c)
        else coll_at (first w) (second w) c) /\
    (forall c, bound w c -> bound w' c) /\
    (second w' = None <-> second w = None) /\
    clock w' = clock w.
Proof.
  induction cols as [|c0 cols IH]; intros w total Hnd Hb.
  - exists w. cbn. rewrite Z.add_0_r. repeat split; auto.
  - inversion Hnd as [|? ? Hni Hnd']; subst.
    cbn [delete_each]. unfold bind at 1.
    rewrite (delete_many_bound c0 f w) by (apply Hb; now left).
    set (w1 := set_coll w c0 (purged f (coll_at (first w) (second w) c0))).
    assert (H1 : forall c,
               coll_at (first w1) (second w1) c =
               if coll_eqb c0 c
               then purged f (coll_at (first w) (second w) c0)
               else coll_at (first w) (second w) c).
    { intros c. unfold w1. apply coll_at_set_coll. apply Hb. now left. }
    destruct (IH w1 (total +
                     len (filter (matches_filter f)
                                 (stored (first w) (second w) c0))) Hnd')
      as (w' & E & H2 & H3 & H4 & H5).
    { intros c Hc. apply bound_set_coll. apply Hb. now right. }
    exists w'. split; [|split; [|split; [|split]]].
    + rewrite E. f_equal. f_equal. cbn [matching_in].
      rewrite (matching_in_ext f (first w) (second w) (first w1) (second w1));
        [lia|].
      intros c Hc. rewrite H1.
      rewrite coll_eqb_neq; [reflexivity|]. intros ->. contradiction.
    + intros c. rewrite H2, H1. cbn [existsb].
      rewrite (coll_eqb_sym c c0).
      destruct (coll_eqb c0 c) eqn:Ec.
      * apply coll_eqb_eq in Ec. subst c. cbn [orb].
        destruct (existsb (coll_eqb c0) cols) eqn:Ex; [|reflexivity].
        apply existsb_coll_eqb in Ex. contradiction.
      * reflexivity.
    + intros c Hc. apply H3. now apply bound_set_coll.
    + rewrite H4. unfold w1. apply second_set_coll.
    + rewrite H5. unfold w1. apply clock_set_coll.
Qed.

Lemma filter_out_then_in {A} (p : A -> bool) l :
  filter p (filter (fun x => negb (p x)) l) = [].
Proof.
  induction l as [|a l IH]; [reflexivity|]. cbn [filter].
  destruct (p a) eqn:E; cbn [negb filter]; [exact IH|].
  now rewrite E.
Qed.

Lemma everything_purged f w w' :
  (forall c, coll_at (first w') (second w') c =
             purged f (coll_at (first w) (second w) c)) ->
  forall cols, matching_in f (first w') (second w') cols = 0.
Proof.
  intros H cols. induction cols as [|c cols IH]; [reflexivity|].
  cbn [matching_in]. unfold stored. rewrite H, IH. cbn [docs purged].
  now rewrite filter_out_then_in.
Qed.

Lemma matching_in_app f d1 d2 a b :
  matching_in f d1 d2 (a ++ b) =
  matching_in f d1 d2 a + matching_in f d1 d2 b.
Proof.
  induction a as [|c a IH]; cbn [app matching_in]; [reflexivity|].
  rewrite IH. lia.
Qed.

Lemma first_three_bound w c :
  In c [primary_collection; clouds_collection; archive_collection] ->
  bound w c.
Proof. intros [<-|[<-|[<-|[]]]] H; discriminate H. Qed.

Lemma second_three_bound w c :
  second w <> None ->
  In c [second_primary; second_clouds; second_archive] -> bound w c.
Proof. intros H _ _. exact H. Qed.

(** [delete_files] of every collection. *)
Lemma delete_files_all query collection_name w :
  truthy collection_name = None ->
  exists w',
    delete_files query collection_name w =
      (Ok (matching_in (name_filter query) (first w) (second w) lookup_order),
       w') /\
    (forall c,
        coll_at (first w') (second w') c =
        purged (name_filter query) (coll_at (first w) (second w) c)) /\
    clock w' = clock w.
Proof.
  intros Ht. unfold delete_files. rewrite Ht. fold (name_filter query).
  set (f := name_filter query).
  change lookup_order
    with ([primary_collection; clouds_collection; archive_collection] ++
          [second_primary; second_clouds; second_archive]).
  rewrite matching_in_app.
  destruct (delete_each_spec f
              [primary_collection; clouds_collection; archive_collection]
              w 0) as (w1 & E1 & H1 & Hb1 & Hs1 & Hc1).
  { repeat constructor; cbn; intuition discriminate. }
  { apply first_three_bound. }
  unfold bind at 1. rewrite E1. unfold bind at 1, second_configured.
  case_eq (second w1); [intros db1 E21|intros E21].
  - assert (Hn1 : second w1 <> None) by congruence.
    destruct (delete_each_spec f
                [second_primary; second_clouds; second_archive] w1
                (0 + matching_in f (first w) (second w)
                       [primary_collection; clouds_collection;
                        archive_collection]))
      as (w2 & E2 & H2 & Hb2 & Hs2 & Hc2).
    { repeat constructor; cbn; intuition discriminate. }
    { intros c Hc. now apply second_three_bound. }
    exists w2. split; [|split].
    + rewrite E2. f_equal. f_equal.
      rewrite (matching_in_ext f (first w) (second w) (first w1) (second w1));
        [lia|].
      intros c Hc. rewrite H1.
      destruct Hc as [<-|[<-|[<-|[]]]]; reflexivity.
    + intros c. rewrite H2, !H1.
      destruct c as [[|] [| |]]; reflexivity.
    + congruence.
  - assert (Hn : second w = None) by now apply Hs1.
    exists w1. split; [|split].
    + unfold ret. f_equal. f_equal. rewrite Hn. cbn. lia.
    + intros c. rewrite H1.
      destruct c as [[|] [| |]]; try reflexivity;
        unfold coll_at; cbn [fst snd]; rewrite Hn; reflexivity.
    + exact Hc1.
Qed.

Lemma language_filter_In lang results d :
  In d (language_filter lang results) -> In d results.
Proof.
  unfold language_filter. destruct (truthy lang); [|auto].
  intros H. now apply filter_In in H.
Qed.

(** Where a file of a page comes from. *)
Lemma page_file_origin USE query collection_name max_results offset lang
      w r w' d :
  get_search_results USE query collection_name max_results offset lang w =
    (Ok r, w') ->
  In d (files r) ->
  exists name c d0,
    d = tag_source name d0 /\
    In d0 (stored (first w) (second w) c) /\
    matches_filter (search_filter USE query) d0 = true.
Proof.
  intros E Hd.
  destruct (tests_second_collection (second w) collection_name) eqn:Ht.
  { destruct (get_search_results_raises USE query collection_name
                max_results offset lang w Ht) as (w0 & _ & E0).
    rewrite E0 in E. discriminate E. }
  destruct (get_search_results_page USE query collection_name max_results
              offset lang w Ht) as (w0 & _ & E0).
  rewrite E0 in E. inversion E; subst r w0. clear E. cbn [files] in Hd.
  apply page_files_In, language_filter_In in Hd.
  assert (Hp : exists name,
             In d (partition_hits (first w) (second w)
                                  (search_filter USE query) name)).
  { unfold merged_results in Hd. destruct (truthy collection_name) as [n|].
    - now exists n.
    - apply in_app_or in Hd as [Hd|Hd]; [now exists "primary"|].
      apply in_app_or in Hd as [Hd|Hd]; [now exists "clouds"|].
      now exists "archive". }
  destruct Hp as (name & Hin).
  apply partition_hits_In in Hin as (c & d0 & -> & Hin & Hm & _).
  exists name, c, d0. auto.
Qed.

Lemma slice_of_nil {A} o m : slice_to (slice_from (@nil A) o) m = [].
Proof.
  unfold slice_to, slice_from.
  destruct (0 <=? o), (0 <=? m); now rewrite skipn_nil, firstn_nil.
Qed.

Lemma page_of_nothing lang max_results offset :
  fst (fst (page [] lang max_results offset)) = [] /\
  snd (page [] lang max_results offset) = 0.
Proof.
  unfold page. destruct (truthy lang); cbn [filter fst snd];
    rewrite slice_of_nil; split; reflexivity.
Qed.

Lemma no_hits d1 d2 f name :
  (forall c, filter (matches_filter f) (stored d1 d2 c) = []) ->
  partition_hits d1 d2 f name = [].
Proof.
  intros H. unfold partition_hits. rewrite H.
  destruct d2 as [db|]; [|reflexivity].
  destruct (second_lookup name) as [c|]; [|reflexivity].
  now rewrite H.
Qed.

(** X23.  [delete_files] without a collection name (or with an empty
    one) never fails.  It returns the number of records, over the six
    collections, whose name matches the query, and removes exactly
    those: every collection keeps its other records, in order.  A
    search for the same query afterwards returns no file whose name
    matches, and none at all when captions are not searched; a second
    [delete_files] returns 0. *)
Theorem X23_delete_removes_exactly_the_matches :
  forall query collection_name w,
    truthy collection_name = None ->
    exists n w',
      delete_files query collection_name w = (Ok n, w') /\
      n = matching_in (name_filter query) (first w) (second w)
                      lookup_order /\
      (forall c,
          stored (first w') (second w') c =
            filter (fun d =>
                      negb (Query.field_matches (Query.build_regex query)
                                                (file_name d)))
                   (stored (first w) (second w) c)) /\
      (forall USE max_results offset lang,
          exists r w'',
            get_search_results USE query None max_results offset lang w' =
              (Ok r, w'') /\
            (forall d, In d (files r) ->
               Query.field_matches (Query.build_regex query) (file_name d)
               = false) /\
            (USE = false -> files r = [] /\ total_results r = 0)) /\
      (exists w'', delete_files query collection_name w' = (Ok 0, w'')).
Proof.
  intros query cn w Ht.
  destruct (delete_files_all query cn w Ht) as (w' & E & H & Hc).
  exists (matching_in (name_filter query) (first w) (second w) lookup_order),
         w'.
  split; [exact E|]. split; [reflexivity|].
  assert (Hst : forall c,
             stored (first w') (second w') c =
             filter (fun d =>
                       negb (Query.field_matches (Query.build_regex query)
                                                 (file_name d)))
                    (stored (first w) (second w) c)).
  { intros c. unfold stored. now rewrite H. }
  split; [exact Hst|split].
  - intros USE max_results offset lang.
    destruct (get_search_results_page USE query None max_results offset lang
                w' eq_refl) as (w'' & _ & Er).
    eexists; exists w''. split; [exact Er|]. split.
    + intros d Hd.
      destruct (page_file_origin _ _ _ _ _ _ _ _ _ d Er Hd)
        as (name & c & d0 & -> & Hin & _).
      rewrite Hst in Hin. apply filter_In in Hin as [_ Hn].
      now apply negb_true_iff in Hn.
    + intros ->. cbv zeta. cbn [files total_results].
      assert (Hnil : merged_results false (first w') (second w') query None
                     = []).
      { unfold merged_results. cbn [truthy].
        change (search_filter false query) with (name_filter query).
        rewrite !no_hits; [reflexivity| | |];
          intros c; unfold stored; rewrite H; apply filter_out_then_in. }
      rewrite Hnil. apply page_of_nothing.
  - destruct (delete_files_all query cn w' Ht) as (w'' & E' & _).
    exists w''. rewrite E'. f_equal. f_equal.
    now apply (everything_purged (name_filter query) w w').
Qed.

Lemma X23_delete_removes_witness :
  exists n w',
    delete_files "movie" (Some "") shelf_world = (Ok n, w') /\
    n = 2 /\
    stored (first w') (second w') primary_collection =
      [placed_doc "k2" "song two" "primary"] /\
    stored (first w') (second w') second_clouds = [].
Proof.
  destruct (X23_delete_removes_exactly_the_matches "movie" (Some "")
              shelf_world eq_refl) as (n & w' & E & Hn & Hs & _).
  exists n, w'. split; [exact E|]. split; [rewrite Hn; reflexivity|].
  split.
  - rewrite (Hs primary_collection). reflexivity.
  - rewrite (Hs second_clouds). reflexivity.
Defined.

Lemma nonempty_is_truthy name : name <> "" -> truthy (Some name) = Some name.
Proof.
  intros H. unfold truthy. destruct (String.eqb name "") eqn:E; [|reflexivity].
  apply String.eqb_eq in E. contradiction.
Qed.

Lemma unknown_name_is_primary name :
  second_lookup name = None -> get_collection_by_name name = primary_collection.
Proof.
  unfold second_lookup, get_collection_by_name.
  destruct (String.eqb name "primary"); [reflexivity|].
  destruct (String.eqb name "clouds"); [discriminate|].
  destruct (String.eqb name "archive"); [discriminate|reflexivity].
Qed.

(** [delete_files] of one named collection, one store call at a
    time. *)
Lemma delete_files_named query name w :
  name <> "" ->
  delete_files query (Some name) w =
  (let f := name_filter query in
   let t := get_collection_by_name name in
   let w1 := set_coll w t (purged f (coll_at (first w) (second w) t)) in
   let n := len (filter (matches_filter f) (stored (first w) (second w) t)) in
   match second w with
   | None => (Ok n, w1)
   | Some _ =>
       match second_lookup name with
       | Some s =>
           (Ok (n + len (filter (matches_filter f)
                                (stored (first w) (second w) s))),
            set_coll w1 s (purged f (coll_at (first w) (second w) s)))
       | None => (Raise AttributeError, w1)
       end
   end).
Proof.
  intros Hne. unfold delete_files. rewrite (nonempty_is_truthy name Hne).
  fold (name_filter query). cbv zeta.
  set (f := name_filter query). set (t := get_collection_by_name name).
  unfold bind at 1. rewrite (delete_many_bound t f w (bound_first w name)).
  set (w1 := set_coll w t (purged f (coll_at (first w) (second w) t))).
  assert (H1 : forall c,
             coll_at (first w1) (second w1) c =
             if coll_eqb t c then purged f (coll_at (first w) (second w) t)
             else coll_at (first w) (second w) c).
  { intros c. unfold w1. apply coll_at_set_coll, bound_first. }
  assert (Hs1 : second w1 = second w).
  { unfold w1, t. rewrite (first_coll name). reflexivity. }
  unfold bind at 1, second_configured. rewrite Hs1.
  case_eq (second w); [intros db E2|reflexivity].
  case_eq (second_lookup name); [intros s El|reflexivity].
  assert (Hb : bound w1 s) by (intros _; congruence).
  assert (Hts : coll_eqb t s = false).
  { apply coll_eqb_neq. intros E.
    pose proof (second_lookup_second _ _ El) as Hsd.
    rewrite <- E in Hsd. unfold t in Hsd.
    rewrite get_collection_by_name_first in Hsd. discriminate. }
  unfold bind. rewrite (delete_many_bound s f w1 Hb).
  unfold ret, stored. rewrite H1, Hts, E2. reflexivity.
Qed.

(** X24.  [delete_files] with a collection name.  Without a second
    database it purges the named collection of the first and returns
    the number removed.  With a second database and one of the three
    names it purges the collection of that name in both and returns
    the sum.  With a second database and any other name, the primary
    collection, for which such a name stands, has already been purged
    when the lookup of the second collection yields [None] and the call
    on it raises [AttributeError]; the count is lost.  No other
    collection is touched in any case. *)
Theorem X24_delete_from_named_collection :
  forall query name w,
    name <> "" ->
    let f := name_filter query in
    let t := get_collection_by_name name in
    let removed c := len (filter (matches_filter f)
                                 (stored (first w) (second w) c)) in
    exists w',
      (forall c,
          stored (first w') (second w') c =
          if coll_eqb t c ||
             match second_lookup name with
             | Some s => coll_eqb s c
             | None => false
             end
          then filter (fun d => negb (matches_filter f d))
                      (stored (first w) (second w) c)
          else stored (first w) (second w) c) /\
      match second w, second_lookup name with
      | None, _ =>
          delete_files query (Some name) w = (Ok (removed t), w')
      | Some _, Some s =>
          delete_files query (Some name) w = (Ok (removed t + removed s), w')
      | Some _, None =>
          delete_files query (Some name) w = (Raise AttributeError, w') /\
          t = primary_collection
      end.
Proof.
  intros query name w Hne f t removed.
  rewrite (delete_files_named query name w Hne). cbv zeta. fold f t.
  set (w1 := set_coll w t (purged f (coll_at (first w) (second w) t))).
  assert (H1 : forall c,
             coll_at (first w1) (second w1) c =
             if coll_eqb t c then purged f (coll_at (first w) (second w) t)
             else coll_at (first w) (second w) c).
  { intros c. unfold w1. apply coll_at_set_coll, bound_first. }
  assert (Hs1 : second w1 = second w).
  { unfold w1, t. rewrite (first_coll name). reflexivity. }
  assert (Hsame : forall c, coll_eqb t c = true ->
             purged f (coll_at (first w) (second w) t) =
             purged f (coll_at (first w) (second w) c)).
  { intros c Hc. apply coll_eqb_eq in Hc. now subst c. }
  assert (Hgoal : forall w',
             (forall c,
                 coll_at (first w') (second w') c =
                 if coll_eqb t c ||
                    match second_lookup name with
                    | Some s => coll_eqb s c
                    | None => false
                    end
                 then purged f (coll_at (first w) (second w) c)
                 else coll_at (first w) (second w) c) ->
             forall c,
               stored (first w') (second w') c =
               if coll_eqb t c ||
                  match second_lookup name with
                  | Some s => coll_eqb s c
                  | None => false
                  end
               then filter (fun d => negb (matches_filter f d))
                           (stored (first w) (second w) c)
               else stored (first w) (second w) c).
  { intros w' H c. unfold stored. rewrite H.
    destruct (coll_eqb t c || _); reflexivity. }
  destruct (second w) as [db|] eqn:E2.
  - destruct (second_lookup name) as [s|] eqn:El.
    + assert (Hb : bound w1 s) by (intros _; congruence).
      exists (set_coll w1 s (purged f (coll_at (first w) (Some db) s))).
      split; [|reflexivity]. apply Hgoal.
      intros c. rewrite (coll_at_set_coll _ _ _ _ Hb), H1.
      destruct (coll_eqb s c) eqn:Esc.
      * apply coll_eqb_eq in Esc. subst c. now rewrite orb_true_r.
      * rewrite orb_false_r. destruct (coll_eqb t c) eqn:Etc; [|reflexivity].
        now apply Hsame.
    + exists w1. split.
      * apply Hgoal. intros c. rewrite H1, orb_false_r.
        destruct (coll_eqb t c) eqn:Etc; [|reflexivity]. now apply Hsame.
      * split; [reflexivity|]. now apply unknown_name_is_primary.
  - exists w1. split; [|reflexivity]. apply Hgoal.
    intros c. rewrite H1. destruct (coll_eqb t c) eqn:Etc.
    + now apply Hsame.
    + cbn [orb]. destruct (second_lookup name) as [s|] eqn:El; [|reflexivity].
      destruct (coll_eqb s c) eqn:Esc; [|reflexivity].
      apply coll_eqb_eq in Esc. subst c.
      pose proof (second_lookup_second _ _ El) as Hsd.
      destruct s as [[|] slot]; [discriminate Hsd|]. reflexivity.
Qed.

Lemma X24_delete_from_named_witness :
  exists w',
    delete_files "movie" (Some "films") shelf_world =
      (Raise AttributeError, w') /\
    stored (first w') (second w') primary_collection =
      [placed_doc "k2" "song two" "primary"] /\
    stored (first w') (second w') second_clouds =
      [placed_doc "k3" "movie three" "clouds"].
Proof.
  destruct (X24_delete_from_named_collection "movie" "films" shelf_world)
    as (w' & Hat & E & _); [discriminate|].
  exists w'. split; [exact E|]. rewrite !Hat.
  split; reflexivity.
Defined.

End DeleteFacts.

(** ** The counting helpers *)

Module CountFacts.

Import Catalog StoreAux StoreFacts SearchAux SearchProofs SaveAux SaveProofs.
Import ReorganizeAux ReorganizeProofs FramesAux Frames CountFactsAux.
Local Open Scope string_scope.
Local Open Scope list_scope.
Local Open Scope Z_scope.

Lemma count_documents_bound c w :
  bound w c ->
  count_documents c w = (Ok (len (stored (first w) (second w) c)), w).
Proof.
  intros H. unfold count_documents, with_coll.
  rewrite (get_coll_bound w c H). reflexivity.
Qed.

Lemma get_all_counts_spec w :
  get_all_counts w = (Ok (all_counts (first w) (second w)), w).
Proof.
  unfold get_all_counts, all_counts.
  assert (Hf : forall slot, bound w (FirstDb, slot))
    by (intros slot H; discriminate H).
  unfold bind at 1.
  rewrite (count_documents_bound primary_collection w (Hf _)).
  unfold bind at 1.
  rewrite (count_documents_bound clouds_collection w (Hf _)).
  unfold bind at 1.
  rewrite (count_documents_bound archive_collection w (Hf _)).
  unfold bind at 1, second_configured.
  case_eq (second w); [intros db E2|reflexivity].
  assert (Hs : forall slot, bound w (SecondDb, slot))
    by (intros slot _; congruence).
  unfold bind at 1.
  rewrite (count_documents_bound second_primary w (Hs _)).
  unfold bind at 1.
  rewrite (count_documents_bound second_clouds w (Hs _)).
  unfold bind at 1.
  rewrite (count_documents_bound second_archive w (Hs _)).
  rewrite E2. reflexivity.
Qed.

Lemma known_name_cases name :
  In name ["primary"; "clouds"; "archive"] ->
  name = "primary" \/ name = "clouds" \/ name = "archive".
Proof. intros [<-|[<-|[<-|[]]]]; auto. Qed.

Ltac reduce_counts :=
  cbn [first second record tick set_coll slot_set slot_get fst snd
       option_map primary_collection clouds_collection archive_collection
       second_primary second_clouds second_archive docs db_primary
       db_clouds db_archive app dict_set dict_get List.find
       String.eqb Ascii.eqb Bool.eqb String.append].

(** X25.  The place [save_file] returns names the count that rises.
    For one of the three collection names, when [save_file] answers
    [suc] with a place, the dictionary of [get_all_counts] afterwards
    is the one before with the entry of that place, ['clouds'] or
    ['second_clouds'] say, raised by one; when it answers [dup] or
    [err] the dictionary is the same.  [get_all_counts] itself never
    fails and changes nothing. *)
Theorem X25_saved_place_names_the_count :
  forall decode media name w st place w',
    In name ["primary"; "clouds"; "archive"] ->
    save_file decode media name w = (Ok (st, place), w') ->
    exists cnts cnts',
      get_all_counts w = (Ok cnts, w) /\
      get_all_counts w' = (Ok cnts', w') /\
      cnts' =
        match st with
        | suc => dict_set place (dict_get place cnts + 1) cnts
        | _ => cnts
        end.
Proof.
  intros decode media name w st place w' Hname Hs.
  exists (all_counts (first w) (second w)),
         (all_counts (first w') (second w')).
  split; [apply get_all_counts_spec|]. split; [apply get_all_counts_spec|].
  destruct (save_file_needs_key decode _ _ _ _ _ Hs) as [key U].
  rewrite (save_file_cases decode media name w key U) in Hs.
  cbv zeta in Hs.
  set (doc := document_of key media name (clock w)) in *.
  destruct (second w) as [db|] eqn:E2;
    apply known_name_cases in Hname as [-> | [-> | ->]];
    cbn [get_collection_by_name second_lookup_default second_lookup
         String.eqb Ascii.eqb Bool.eqb] in Hs;
    repeat match type of Hs with
           | context [if ?b then _ else _] => destruct b eqn:?
           end;
    inversion Hs; subst st place w'; clear Hs;
    unfold all_counts, stored, coll_at, second_name;
    reduce_counts; rewrite ?E2; reduce_counts;
    rewrite ?len_snoc; reflexivity.
Qed.

Lemma X25_saved_place_witness :
  exists cnts cnts',
    get_all_counts empty_world = (Ok cnts, empty_world) /\
    get_all_counts
      (snd (save_file media_decode sample_media "clouds" empty_world)) =
      (Ok cnts',
       snd (save_file media_decode sample_media "clouds" empty_world)) /\
    cnts' = dict_set "clouds" (dict_get "clouds" cnts + 1) cnts.
Proof.
  apply (X25_saved_place_names_the_count media_decode sample_media "clouds"
           empty_world suc "clouds"
           (snd (save_file media_decode sample_media "clouds" empty_world))).
  - cbn. auto.
  - reflexivity.
Defined.

Lemma other_name_is_primary name :
  ~ In name ["primary"; "clouds"; "archive"] ->
  get_collection_by_name name = primary_collection.
Proof.
  intros H. unfold get_collection_by_name.
  destruct (String.eqb name "primary"); [reflexivity|].
  destruct (String.eqb name "clouds") eqn:E2.
  { apply String.eqb_eq in E2. exfalso. apply H. subst. cbn. auto. }
  destruct (String.eqb name "archive") eqn:E3; [|reflexivity].
  apply String.eqb_eq in E3. exfalso. apply H. subst. cbn. auto.
Qed.

(** X26.  [db_count_documents] never fails and changes nothing.  For
    one of the three names it returns that name's entry of
    [get_all_counts], the number of records of that collection in the
    first database; for any other name, a misspelt one or one of the
    [second_...] places included, it returns the count of the primary
    collection. *)
Theorem X26_count_of_a_name :
  forall name w,
  exists n cnts,
    db_count_documents name w = (Ok n, w) /\
    get_all_counts w = (Ok cnts, w) /\
    n = len (stored (first w) (second w) (get_collection_by_name name)) /\
    (In name ["primary"; "clouds"; "archive"] -> n = dict_get name cnts) /\
    (~ In name ["primary"; "clouds"; "archive"] ->
     n = dict_get "primary" cnts).
Proof.
  intros name w.
  exists (len (stored (first w) (second w) (get_collection_by_name name))),
         (all_counts (first w) (second w)).
  split.
  { unfold db_count_documents.
    apply count_documents_bound, bound_first. }
  split; [apply get_all_counts_spec|]. split; [reflexivity|].
  split.
  - intros Hn. apply known_name_cases in Hn as [-> | [-> | ->]]; reflexivity.
  - intros Hn. rewrite (other_name_is_primary name Hn). reflexivity.
Qed.

Lemma X26_count_of_a_name_witness :
  exists n cnts,
    db_count_documents "second_clouds" empty_world = (Ok n, empty_world) /\
    get_all_counts empty_world = (Ok cnts, empty_world) /\
    n = dict_get "primary" cnts.
Proof.
  destruct (X26_count_of_a_name "second_clouds" empty_world)
    as (n & cnts & E1 & E2 & _ & _ & H).
  exists n, cnts. split; [exact E1|]. split; [exact E2|].
  apply H. cbn. intuition discriminate.
Defined.

End CountFacts.

(** ** Saving, then searching *)

Module FindFacts.

Import Regex Query QueryAux QueryProofs FindFactsAux.
Import Catalog StoreAux StoreFacts SearchAux SearchProofs SaveAux SaveProofs.
Import FramesAux Frames SearchFactsAux SearchFacts FindFactsAux.
Local Open Scope string_scope.
Local Open Scope list_scope.
Local Open Scope Z_scope.

Lemma word_is_matched tok name :
  tok <> "" -> plain (list_ascii_of_string tok) ->
  stands_as_word tok name ->
  field_matches (build_regex tok) name = true.
Proof.
  intros Hne Hp Hw.
  destruct (raw_pattern_single tok Hne Hp) as [Hs Hr].
  unfold build_regex. rewrite Hs, Hr, (compile_single_token tok Hp).
  cbn [field_matches]. unfold search.
  apply search_single_token. exact Hw.
Qed.

(** A stored record that matches is in the merged result list, under
    the name of its partition. *)
Lemma stored_match_in_merged USE query w c d :
  In d (stored (first w) (second w) c) ->
  matches_filter (search_filter USE query) d = true ->
  exists pname,
    In (tag_source pname d)
       (merged_results USE (first w) (second w) query None).
Proof.
  intros Hin Hm. unfold merged_results. cbn [truthy].
  set (f := search_filter USE query) in *.
  assert (Hfirst : forall pname,
             c = get_collection_by_name pname ->
             In (tag_source pname d)
                (partition_hits (first w) (second w) f pname)).
  { intros pname ->. unfold partition_hits. apply in_or_app. left.
    apply in_map, filter_In. auto. }
  assert (Hsecond : forall pname,
             second_lookup pname = Some c ->
             In (tag_source pname d)
                (partition_hits (first w) (second w) f pname)).
  { intros pname El. unfold partition_hits. apply in_or_app. right.
    rewrite El. destruct (second w) as [db|] eqn:E2.
    - apply in_map, filter_In. auto.
    - pose proof (second_lookup_second _ _ El) as Hc.
      destruct c as [[|] slot]; [discriminate Hc|].
      unfold stored, coll_at in Hin. cbn [fst snd] in Hin.
      destruct Hin. }
  destruct c as [[|] [| |]].
  - exists "primary". apply in_or_app. left. now apply Hfirst.
  - exists "clouds". apply in_or_app. right. apply in_or_app. left.
    now apply Hfirst.
  - exists "archive". apply in_or_app. right. apply in_or_app. right.
    now apply Hfirst.
  - exists "primary". apply in_or_app. left. now apply Hsecond.
  - exists "clouds". apply in_or_app. right. apply in_or_app. left.
    now apply Hsecond.
  - exists "archive". apply in_or_app. right. apply in_or_app. right.
    now apply Hsecond.
Qed.

Lemma len_positive {A} (l : list A) x : In x l -> 1 <= len l.
Proof. destruct l; [intros []|]. unfold len. cbn [List.length]. lia. Qed.

(** Where [save_file] has put the record it reports as stored. *)
Lemma saved_record_is_stored decode media collection_name w place w' :
  save_file decode media collection_name w = (Ok (suc, place), w') ->
  exists key c,
    Codec.unpack_new_file_id decode (media_file_id media) = Ok key /\
    In (document_of key media collection_name (clock w))
       (stored (first w') (second w') c).
Proof.
  intros Hs.
  destruct (save_file_needs_key decode _ _ _ _ _ Hs) as [key U].
  exists key. rewrite (save_file_cases decode media collection_name w key U)
    in Hs. cbv zeta in Hs.
  set (doc := document_of key media collection_name (clock w)) in *.
  set (t := get_collection_by_name collection_name) in *.
  set (s := second_lookup_default collection_name) in *.
  destruct (full (first w) (second w) t).
  - destruct (second w) as [db|] eqn:E2; [|discriminate].
    destruct (full (first w) (Some db) s); [discriminate|].
    destruct (has_id key (stored (first w) (Some db) s)); [discriminate|].
    injection Hs as _ Hw. exists s. split; [exact U|].
    rewrite <- Hw. unfold stored. rewrite coll_at_set_coll, coll_eqb_refl.
    + cbn [docs]. apply in_or_app. right. now left.
    + intros _. cbn [second record tick]. rewrite E2. discriminate.
  - destruct (has_id key (stored (first w) (second w) t)); [discriminate|].
    injection Hs as _ Hw. exists t. split; [exact U|].
    rewrite <- Hw. unfold stored.
    rewrite coll_at_set_coll, coll_eqb_refl by apply bound_first.
    cbn [docs]. apply in_or_app. right. now left.
Qed.

(** X27.  A saved file is found by any word of its stored name.  When
    [save_file] has stored a record, a search of every collection for a
    word of letters and digits that stands in the cleaned file name,
    in any letter case, counts at least one result, and a first page
    long enough for the total holds a record with the saved key and
    name, whichever database the record went to. *)
Theorem X27_saved_file_is_found_by_a_word_of_its_name :
  forall decode media collection_name w place w' tok USE max_results,
    save_file decode media collection_name w = (Ok (suc, place), w') ->
    tok <> "" -> plain (list_ascii_of_string tok) ->
    stands_as_word tok (clean_name (str (media_file_name media))) ->
    exists key r w'',
      Codec.unpack_new_file_id decode (media_file_id media) = Ok key /\
      get_search_results USE tok None max_results 0 None w' = (Ok r, w'') /\
      1 <= total_results r /\
      (total_results r <= max_results ->
       exists d, In d (files r) /\ _id d = key /\
                 file_name d = clean_name (str (media_file_name media))).
Proof.
  intros decode media cname w place w' tok USE max_results Hs Hne Hp Hw.
  destruct (saved_record_is_stored _ _ _ _ _ _ Hs) as (key & c & U & Hin).
  set (doc := document_of key media cname (clock w)) in *.
  assert (Hm : matches_filter (search_filter USE tok) doc = true).
  { pose proof (word_is_matched tok _ Hne Hp Hw) as Hf.
    unfold search_filter. destruct USE; cbn [matches_filter];
      change (file_name doc) with (clean_name (str (media_file_name media)));
      rewrite Hf; reflexivity. }
  destruct (stored_match_in_merged USE tok w' c doc Hin Hm) as (pname & Hmem).
  destruct (get_search_results_page USE tok None max_results 0 None w'
              eq_refl) as (w'' & _ & E).
  exists key. eexists. exists w''. split; [exact U|]. split; [exact E|].
  cbv zeta. cbn [total_results files]. rewrite page_total.
  change (language_filter None
            (merged_results USE (first w') (second w') tok None))
    with (merged_results USE (first w') (second w') tok None).
  split; [now apply (len_positive _ (tag_source pname doc))|].
  intros Hle.
  assert (H0 : 0 <= max_results).
  { pose proof (len_positive _ _ Hmem). lia. }
  rewrite (page_window _ None max_results 0) by lia. cbn [fst].
  change (language_filter None
            (merged_results USE (first w') (second w') tok None))
    with (merged_results USE (first w') (second w') tok None).
  change (Z.to_nat 0) with 0%nat. cbn [skipn].
  rewrite firstn_all2 by (unfold len in Hle; lia).
  exists (tag_source pname doc). split; [exact Hmem|]. split; reflexivity.
Qed.

Lemma X27_saved_file_is_found_witness :
  exists key r w'',
    Codec.unpack_new_file_id media_decode (media_file_id sample_media) =
      Ok key /\
    get_search_results false "file" None 10 0 None
      (snd (save_file media_decode sample_media "clouds" empty_world)) =
      (Ok r, w'') /\
    1 <= total_results r /\
    (total_results r <= 10 ->
     exists d, In d (files r) /\ _id d = key /\
               file_name d = clean_name (str (media_file_name sample_media))).
Proof.
  apply (X27_saved_file_is_found_by_a_word_of_its_name media_decode
           sample_media "clouds" empty_world "clouds"
           (snd (save_file media_decode sample_media "clouds" empty_world))
           "file" false 10).
  - reflexivity.
  - discriminate.
  - repeat constructor.
  - exists 3%nat. split; [left; reflexivity|].
    split; [reflexivity|left; reflexivity].
Defined.

End FindFacts.
